(** * Custom Pod Autoscaler example hooks: a shallow embedding in Rocq

    The repository's example hooks are short Python scripts: each reads one
    JSON document from standard input and writes a result to standard output,
    or a diagnostic to standard error with a non-zero exit status.

    This development embeds the scripts the specification talks about:
    - the evaluators  [simple-pod-metrics-python/evaluate.py],
      [python/evaluate.py], [scale-on-tweet/evaluate.py] and
      [python-custom-autoscaler/evaluate.py];
    - the collectors  [cpu/metric.py] (identical in body to
      [k8s-metrics-cpu/metric.py]), [zero-scaler/metric.py] and the remote
      probe of [python/metric.py] (identical in body to
      [simple-pod-metrics-python/metric.py]);
    - the post-scale hook [post-scale-hook/post_scale.py].

    The Python runtime the scripts rely on is modelled alongside, after
    CPython 3.11: Python values with binary64 floats, the exception
    mechanism, the arithmetic the scripts use, [int()], [repr()], the [json]
    module's [loads] (its C scanner, error messages included) and [dumps],
    standard streams, the process exit status, and the file the post-scale
    hook writes. *)

From Stdlib Require Import ZArith List String Ascii Bool Lia.
Import ListNotations.

#[local] Set Warnings "-register-all".

Open Scope Z_scope.

(** ** Python strings

    A Python [str] is a sequence of Unicode code points. *)

Definition pystr := list Z.

(** A Rocq string literal read as a sequence of code points (one per
    character, all of them below 256). *)
Definition lit (s : string) : pystr :=
  map (fun a => Z.of_nat (nat_of_ascii a)) (list_ascii_of_string s).

(** Test data for JSON text: like [lit], with every single quote read as a
    double quote, so that ['{'a': 1}'] stands for the text {"a": 1}. *)
Definition jtext (s : string) : pystr :=
  map (fun c => if c =? 39 then 34 else c) (lit s).

Definition nl : pystr := [10].

Definition is_digit (c : Z) : bool := (48 <=? c) && (c <=? 57).

(** Decimal digits of a natural number, most significant first; [fuel]
    bounds the number of digits. *)
Fixpoint digits_rev (fuel : nat) (n : Z) : list Z :=
  match fuel with
  | O => []
  | S f => if n <? 10 then [48 + n] else (48 + n mod 10) :: digits_rev f (n / 10)
  end.

Definition nat_digits (n : Z) : pystr :=
  rev (digits_rev (S (Z.to_nat (Z.log2 n))) n).

(** Value of a run of decimal digits. *)
Definition digits_value (ds : pystr) : Z :=
  fold_left (fun acc d => acc * 10 + (d - 48)) ds 0.

(** [str(n)] for a Python [int]. *)
Definition int_repr (z : Z) : pystr :=
  if z <? 0 then 45 :: nat_digits (- z) else nat_digits z.

(** [k] digits, zero-padded on the left. *)
Definition pad_digits (k : nat) (x : Z) : pystr :=
  let ds := nat_digits x in repeat 48 (k - List.length ds) ++ ds.

Fixpoint join (sep : pystr) (xs : list pystr) : pystr :=
  match xs with
  | [] => []
  | [x] => x
  | x :: xs' => x ++ sep ++ join sep xs'
  end.

(** ** Binary64 floats

    A Python [float] is an IEEE 754 binary64 value: a signed zero, a signed
    infinity, a NaN, or a finite non-zero value [(-1)^neg * m * 2^e] with
    [2^52 <= m < 2^53] and [-1074 <= e <= 971] (normal numbers) or
    [0 < m < 2^52] and [e = -1074] (subnormal numbers).  The operations the
    scripts use are the correctly rounded ones, to nearest with ties to
    even: each is computed on the exact rational result and rounded once. *)

Inductive binary64 : Type :=
| B64Zero (neg : bool)
| B64Inf (neg : bool)
| B64NaN
| B64Fin (neg : bool) (m e : Z).

Definition b64_valid (x : binary64) : bool :=
  match x with
  | B64Fin _ m e =>
      ((2 ^ 52 <=? m) && (m <? 2 ^ 53) && (-1074 <=? e) && (e <=? 971))
      || ((0 <? m) && (m <? 2 ^ 52) && (e =? -1074))
  | _ => true
  end.

Definition b64_eqb (x y : binary64) : bool :=
  match x, y with
  | B64Zero s, B64Zero t => Bool.eqb s t
  | B64Inf s, B64Inf t => Bool.eqb s t
  | B64NaN, B64NaN => true
  | B64Fin s m e, B64Fin t n f => Bool.eqb s t && (m =? n) && (e =? f)
  | _, _ => false
  end.

Definition b64_is_zero (x : binary64) : bool :=
  match x with B64Zero _ => true | _ => false end.

Definition b64_is_inf (x : binary64) : bool :=
  match x with B64Inf _ => true | _ => false end.

Definition signed (neg : bool) (z : Z) : Z := if neg then - z else z.

(** [2^k <= a / b], for positive [a] and [b]. *)
Definition pow2_le (k a b : Z) : bool :=
  if 0 <=? k then b * 2 ^ k <=? a else b <=? a * 2 ^ (- k).

(** [floor (log2 (a / b))], for positive [a] and [b]. *)
Definition log2_frac (a b : Z) : Z :=
  let k := Z.log2 a - Z.log2 b in
  if pow2_le k a b then k else k - 1.

(** The binary64 value nearest to [(-1)^neg * a / b], for positive [a] and
    [b], ties to even; beyond the largest finite value it is an infinity,
    below the smallest subnormal a zero of the same sign. *)
Definition round_frac (neg : bool) (a b : Z) : binary64 :=
  let e := Z.max (log2_frac a b - 52) (-1074) in
  let '(num, den) := if 0 <=? e then (a, b * 2 ^ e) else (a * 2 ^ (- e), b) in
  let q := num / den in
  let r := num mod den in
  let q' := if (den <? 2 * r) || ((2 * r =? den) && Z.odd q) then q + 1 else q in
  let '(m, e') := if q' =? 2 ^ 53 then (2 ^ 52, e + 1) else (q', e) in
  if m =? 0 then B64Zero neg
  else if 971 <? e' then B64Inf neg
  else B64Fin neg m e'.

(** The value [m * 2^e] as a fraction [(a, b)] with [b > 0]. *)
Definition frac_of (m e : Z) : Z * Z :=
  if 0 <=? e then (m * 2 ^ e, 1) else (m, 2 ^ (- e)).

(** [(-1)^neg * n * 2^e] rounded, for positive [n]. *)
Definition round_scaled (neg : bool) (n e : Z) : binary64 :=
  let '(a, b) := frac_of n e in round_frac neg a b.

(** [float(z)] for an [int] [z]. *)
Definition b64_of_Z (z : Z) : binary64 :=
  if z =? 0 then B64Zero false else round_frac (z <? 0) (Z.abs z) 1.

Definition b64_opp (x : binary64) : binary64 :=
  match x with
  | B64Zero s => B64Zero (negb s)
  | B64Inf s => B64Inf (negb s)
  | B64NaN => B64NaN
  | B64Fin s m e => B64Fin (negb s) m e
  end.

(** [x + y]. *)
Definition b64_add (x y : binary64) : binary64 :=
  match x, y with
  | B64NaN, _ | _, B64NaN => B64NaN
  | B64Inf sx, B64Inf sy => if Bool.eqb sx sy then B64Inf sx else B64NaN
  | B64Inf sx, _ => B64Inf sx
  | _, B64Inf sy => B64Inf sy
  | B64Zero sx, B64Zero sy => B64Zero (sx && sy)
  | B64Zero _, _ => y
  | _, B64Zero _ => x
  | B64Fin sx mx ex, B64Fin sy my ey =>
      let e := Z.min ex ey in
      let s := signed sx (mx * 2 ^ (ex - e)) + signed sy (my * 2 ^ (ey - e)) in
      if s =? 0 then B64Zero false else round_scaled (s <? 0) (Z.abs s) e
  end.

(** [x - y]. *)
Definition b64_sub (x y : binary64) : binary64 := b64_add x (b64_opp y).

(** [x / y]. *)
Definition b64_div (x y : binary64) : binary64 :=
  match x, y with
  | B64NaN, _ | _, B64NaN => B64NaN
  | B64Inf _, B64Inf _ => B64NaN
  | B64Zero _, B64Zero _ => B64NaN
  | B64Inf sx, B64Zero sy | B64Inf sx, B64Fin sy _ _ => B64Inf (xorb sx sy)
  | B64Zero sx, B64Inf sy | B64Zero sx, B64Fin sy _ _ => B64Zero (xorb sx sy)
  | B64Fin sx _ _, B64Inf sy => B64Zero (xorb sx sy)
  | B64Fin sx _ _, B64Zero sy => B64Inf (xorb sx sy)
  | B64Fin sx mx ex, B64Fin sy my ey =>
      let d := ex - ey in
      if 0 <=? d then round_frac (xorb sx sy) (mx * 2 ^ d) my
      else round_frac (xorb sx sy) mx (my * 2 ^ (- d))
  end.

(** [x / y] for [int]s [x] and [y], [y] non-zero: the quotient is rounded
    once, and a zero quotient is negative when exactly one operand is. *)
Definition int_truediv (x y : Z) : binary64 :=
  if x =? 0 then B64Zero (y <? 0)
  else round_frac (xorb (x <? 0) (y <? 0)) (Z.abs x) (Z.abs y).

(** The value of a finite float rounded toward zero ([math.trunc]); none
    for infinities and NaN. *)
Definition b64_trunc (x : binary64) : option Z :=
  match x with
  | B64Zero _ => Some 0
  | B64Fin neg m e => Some (signed neg (if 0 <=? e then m * 2 ^ e else m / 2 ^ (- e)))
  | _ => None
  end.

(** The binary64 value of the decimal [(-1)^neg * M * 10^E], as
    [float()] reads it. *)
Definition b64_of_decimal (neg : bool) (M E : Z) : binary64 :=
  if M =? 0 then B64Zero neg
  else if 0 <=? E then round_frac neg (M * 10 ^ E) 1
  else round_frac neg M (10 ^ (- E)).

(** ** Decimal text of floats

    A float literal as it is written: a sign, the digits before the point,
    the digits after it, and an optional exponent. *)

Record numtext : Type := mkNumtext {
  nt_neg : bool;
  nt_int : pystr;
  nt_frac : pystr;
  nt_exp : option Z
}.

(** The literal as [repr] writes it: the point only when there are
    fractional digits, the exponent with its sign and at least two
    digits. *)
Definition render (t : numtext) : pystr :=
  (if nt_neg t then [45] else []) ++ nt_int t
  ++ (match nt_frac t with [] => [] | f => 46 :: f end)
  ++ (match nt_exp t with
      | None => []
      | Some x => 101 :: (if x <? 0 then 45 else 43) :: pad_digits 2 (Z.abs x)
      end).

(** The float a literal denotes. *)
Definition numtext_value (t : numtext) : binary64 :=
  b64_of_decimal (nt_neg t) (digits_value (nt_int t ++ nt_frac t))
    (match nt_exp t with Some x => x | None => 0 end - Z.of_nat (List.length (nt_frac t))).

(** The layout of [repr] for the significant digits [ds] (the first one
    non-zero) and the decimal point position [decpt] (the value is
    [0.ds * 10^decpt]): scientific notation when [decpt <= -4] or
    [decpt > 16], otherwise positional with at least one digit after the
    point. *)
Definition repr_layout (neg : bool) (ds : pystr) (decpt : Z) : numtext :=
  let n := Z.of_nat (List.length ds) in
  if (decpt <=? -4) || (16 <? decpt) then mkNumtext neg (firstn 1 ds) (skipn 1 ds) (Some (decpt - 1))
  else if decpt <=? 0 then mkNumtext neg [48] (repeat 48 (Z.to_nat (- decpt)) ++ ds) None
  else if decpt <? n then mkNumtext neg (firstn (Z.to_nat decpt) ds) (skipn (Z.to_nat decpt) ds) None
  else mkNumtext neg (ds ++ repeat 48 (Z.to_nat (decpt - n))) [48] None.

(** [c * 10^u] with the trailing zeros of [c] moved into the exponent. *)
Fixpoint strip_zeros (fuel : nat) (c u : Z) : Z * Z :=
  match fuel with
  | O => (c, u)
  | S f => if (0 <? c) && (c mod 10 =? 0) then strip_zeros f (c / 10) (u + 1) else (c, u)
  end.

(** The [repr] layout of the decimal [(-1)^neg * c * 10^u], [c > 0]. *)
Definition dec_layout (neg : bool) (c u : Z) : numtext :=
  let '(c', u') := strip_zeros (S (Z.to_nat (Z.log2 c))) c u in
  let ds := nat_digits c' in
  repr_layout neg ds (Z.of_nat (List.length ds) + u').

(** [10^k <= a / b], for positive [a] and [b]. *)
Definition pow10_le (k a b : Z) : bool :=
  if 0 <=? k then b * 10 ^ k <=? a else b <=? a * 10 ^ (- k).

(** [floor (log10 (a / b))], for positive [a] and [b]. *)
Definition log10_frac (a b : Z) : Z :=
  let k := Z.of_nat (List.length (nat_digits a)) - Z.of_nat (List.length (nat_digits b)) in
  if pow10_le k a b then k else k - 1.

(** The [p]-significant-digit decimal that [repr] picks for [x], of
    absolute value [a / b] with [10^k <= a / b < 10^(k+1)], if one reads
    back as [x]: of the two [p]-digit decimals around [a / b], the one that
    reads back as [x], the nearer one when both do, the even one on a
    tie. *)
Definition candidate (neg : bool) (x : binary64) (a b k : Z) (p : nat) : option numtext :=
  let u := k - Z.of_nat p + 1 in
  let '(num, den) := if 0 <=? u then (a, b * 10 ^ u) else (a * 10 ^ (- u), b) in
  let lo := num / den in
  let ok c := (0 <? c) && b64_eqb (numtext_value (dec_layout neg c u)) x in
  if num mod den =? 0 then
    if ok lo then Some (dec_layout neg lo u) else None
  else
    let hi := lo + 1 in
    match ok lo, ok hi with
    | true, true =>
        let dlo := num - lo * den in
        let dhi := hi * den - num in
        if dlo <? dhi then Some (dec_layout neg lo u)
        else if dhi <? dlo then Some (dec_layout neg hi u)
        else if Z.even lo then Some (dec_layout neg lo u)
        else Some (dec_layout neg hi u)
    | true, false => Some (dec_layout neg lo u)
    | false, true => Some (dec_layout neg hi u)
    | false, false => None
    end.

Fixpoint first_some {A B} (f : A -> option B) (xs : list A) : option B :=
  match xs with
  | [] => None
  | x :: xs' => match f x with Some y => Some y | None => first_some f xs' end
  end.

(** The exact decimal expansion of [(-1)^neg * m * 2^e]. *)
Definition exact_layout (neg : bool) (m e : Z) : numtext :=
  if 0 <=? e then dec_layout neg (m * 2 ^ e) 0 else dec_layout neg (m * 5 ^ (- e)) e.

(** The decimal text of a zero or finite float, as [repr] writes it: the
    fewest significant digits (at most 17) that read back as the same
    float.  (17 digits always suffice for a binary64 value, so the exact
    expansion is never reached for one.) *)
Definition float_text (x : binary64) : numtext :=
  match x with
  | B64Fin neg m e =>
      let '(a, b) := frac_of m e in
      let k := log10_frac a b in
      match first_some (candidate neg x a b k) (seq 1 17) with
      | Some t => t
      | None => exact_layout neg m e
      end
  | B64Zero neg => mkNumtext neg [48] [48] None
  | _ => mkNumtext false [] [] None
  end.

(** [repr(x)] for a float [x]. *)
Definition float_repr (x : binary64) : pystr :=
  match x with
  | B64NaN => lit "nan"
  | B64Inf neg => if neg then lit "-inf" else lit "inf"
  | _ => render (float_text x)
  end.

(** ** Python values

    The values the scripts handle are those [json.loads] builds: [None],
    [bool], [int], [float], [str], [list] and [dict].  A [dict] is an
    association list in insertion order, as CPython keeps it. *)

Inductive pyval : Type :=
| PNone
| PBool (b : bool)
| PInt (z : Z)
| PFloat (x : binary64)
| PStr (s : pystr)
| PList (l : list pyval)
| PDict (kvs : list (pystr * pyval)).

(** Dictionary lookup ([d[k]] with [k] a [str]). *)
Fixpoint dict_get (kvs : list (pystr * pyval)) (k : pystr) : option pyval :=
  match kvs with
  | [] => None
  | (k', v) :: kvs' => if list_eq_dec Z.eq_dec k k' then Some v else dict_get kvs' k
  end.

(** Dictionary store ([d[k] = v]): an existing key keeps its position and
    takes the new value; a new key goes last. *)
Fixpoint dict_set (kvs : list (pystr * pyval)) (k : pystr) (v : pyval)
  : list (pystr * pyval) :=
  match kvs with
  | [] => [(k, v)]
  | (k', v') :: kvs' =>
      if list_eq_dec Z.eq_dec k k' then (k', v) :: kvs' else (k', v') :: dict_set kvs' k v
  end.

(** ** Exceptions *)

Inductive exc_class : Type :=
| KeyError | IndexError | TypeError | ValueError | JSONDecodeError
| AttributeError | ZeroDivisionError | OverflowError | NameError | UnboundLocalError
| RequestsConnectionError | RequestsTimeout | RequestsInvalidURL
| SystemExit (code : Z).

(** An exception object: its class, its message ([str(e)]) and the
    exception that was being handled when it was raised ([__context__]). *)
Inductive exc : Type :=
| Exc (c : exc_class) (m : pystr) (ctx : option exc).

Definition exc_cls (e : exc) : exc_class := match e with Exc c _ _ => c end.
Definition exc_str (e : exc) : pystr := match e with Exc _ m _ => m end.

(** The name a traceback prints for an exception class. *)
Definition cls_name (c : exc_class) : pystr :=
  match c with
  | KeyError => lit "KeyError"
  | IndexError => lit "IndexError"
  | TypeError => lit "TypeError"
  | ValueError => lit "ValueError"
  | JSONDecodeError => lit "json.decoder.JSONDecodeError"
  | AttributeError => lit "AttributeError"
  | ZeroDivisionError => lit "ZeroDivisionError"
  | OverflowError => lit "OverflowError"
  | NameError => lit "NameError"
  | UnboundLocalError => lit "UnboundLocalError"
  | RequestsConnectionError => lit "requests.exceptions.ConnectionError"
  | RequestsTimeout => lit "requests.exceptions.Timeout"
  | RequestsInvalidURL => lit "requests.exceptions.InvalidURL"
  | SystemExit _ => lit "SystemExit"
  end.

(** [except ValueError] also catches its subclass [JSONDecodeError]. *)
Definition is_ValueError (c : exc_class) : bool :=
  match c with ValueError | JSONDecodeError => true | _ => false end.

(** [except Exception] catches everything but [SystemExit]. *)
Definition is_Exception (c : exc_class) : bool :=
  match c with SystemExit _ => false | _ => true end.

(** ** The script monad

    A script runs against the process's output streams and its view of the
    file system, and either returns or raises. *)

Record io : Type := mkIO {
  io_out : pystr;
  io_err : pystr;
  io_files : list (pystr * pystr)
}.

Inductive res (A : Type) : Type :=
| Ok (a : A)
| Exn (e : exc).
Arguments Ok {A} a.
Arguments Exn {A} e.

Definition M (A : Type) : Type := io -> res A * io.

Definition ret {A} (a : A) : M A := fun st => (Ok a, st).

Definition bind {A B} (m : M A) (k : A -> M B) : M B :=
  fun st => match m st with
            | (Ok a, st') => k a st'
            | (Exn e, st') => (Exn e, st')
            end.

Notation "x <- m ;; k" := (bind m (fun x => k))
  (at level 61, m at next level, right associativity).

Definition raise {A} (c : exc_class) (m : pystr) : M A :=
  fun st => (Exn (Exc c m None), st).

Definition write_out (s : pystr) : M unit :=
  fun st => (Ok tt, mkIO (io_out st ++ s) (io_err st) (io_files st)).

Definition write_err (s : pystr) : M unit :=
  fun st => (Ok tt, mkIO (io_out st) (io_err st ++ s) (io_files st)).

(** [sys.stdout.write(v)]: only a [str] can be written. *)
Definition sys_stdout_write (v : pyval) : M unit :=
  match v with
  | PStr s => write_out s
  | _ => raise TypeError (lit "write() argument must be str")
  end.

(** [exit(n)]. *)
Definition sys_exit {A} (n : Z) : M A := raise (SystemExit n) [].

(** [for x in xs: acc = body(x, acc)]. *)
Fixpoint for_acc {A B} (xs : list A) (acc : B) (body : A -> B -> M B) : M B :=
  match xs with
  | [] => ret acc
  | x :: xs' => a <- body x acc ;; for_acc xs' a body
  end.

(** Exceptions raised while a handler runs record the exception being
    handled as their context. *)
Definition with_context (e0 e : exc) : exc :=
  match e with
  | Exc c m None => Exc c m (Some e0)
  | _ => e
  end.

(** An [except] clause: the expression naming the class it catches, which is
    evaluated only when an exception reaches the clause, and its body. *)
Definition handler (A : Type) : Type := (M (exc_class -> bool) * (exc -> M A))%type.

Fixpoint dispatch {A} (hs : list (handler A)) (e : exc) : M A :=
  match hs with
  | [] => fun st => (Exn e, st)
  | (sel, body) :: hs' =>
      fun st =>
        match sel st with
        | (Ok test, st') =>
            if test (exc_cls e) then
              match body e st' with
              | (Exn e2, st'') => (Exn (with_context e e2), st'')
              | r => r
              end
            else dispatch hs' e st'
        | (Exn e2, st') => (Exn (with_context e e2), st')
        end
  end.

(** [try: body except ...]. *)
Definition try_except {A} (body : M A) (hs : list (handler A)) : M A :=
  fun st => match body st with
            | (Ok a, st') => (Ok a, st')
            | (Exn e, st') => dispatch hs e st'
            end.

(** Name resolution of an exception class in an [except] clause: the
    module's globals first, then the builtins. *)
Definition builtin_classes : list (string * (exc_class -> bool)) :=
  [("Exception"%string, is_Exception); ("ValueError"%string, is_ValueError)].

Fixpoint lookup_class (env : list (string * (exc_class -> bool))) (n : string)
  : option (exc_class -> bool) :=
  match env with
  | [] => None
  | (n', t) :: env' => if String.eqb n n' then Some t else lookup_class env' n
  end.

Definition load_exc_name (globals : list (string * (exc_class -> bool))) (n : string)
  : M (exc_class -> bool) :=
  match lookup_class (globals ++ builtin_classes) n with
  | Some t => ret t
  | None => raise NameError (lit "name '" ++ lit n ++ lit "' is not defined")
  end.

(** ** Processes

    What the orchestrator observes of one run of a script. *)

Record outcome : Type := mkOutcome {
  out : pystr;
  err : pystr;
  status : Z;
  files : list (pystr * pystr)
}.

(** The report the interpreter prints for an uncaught exception (the frame
    lines are left out): the exception being handled when it was raised
    comes first. *)
Fixpoint traceback (e : exc) : pystr :=
  match e with
  | Exc c m ctx =>
      let here := lit "Traceback (most recent call last):" ++ nl
                  ++ cls_name c ++ lit ": " ++ m ++ nl in
      match ctx with
      | None => here
      | Some e0 =>
          traceback e0 ++ nl
          ++ lit "During handling of the above exception, another exception occurred:"
          ++ nl ++ nl ++ here
      end
  end.

Definition run_with (fs : list (pystr * pystr)) (m : M unit) : outcome :=
  match m (mkIO [] [] fs) with
  | (Ok _, st) => mkOutcome (io_out st) (io_err st) 0 (io_files st)
  | (Exn (Exc (SystemExit n) _ _), st) => mkOutcome (io_out st) (io_err st) n (io_files st)
  | (Exn e, st) => mkOutcome (io_out st) (io_err st ++ traceback e) 1 (io_files st)
  end.

Definition run (m : M unit) : outcome := run_with [] m.

(** ** Python operations *)

(** [xs[i]] on a sequence, with Python's negative indices. *)
Definition py_index {A} (xs : list A) (i : Z) : option A :=
  if 0 <=? i then nth_error xs (Z.to_nat i)
  else if - Z.of_nat (List.length xs) <=? i then nth_error xs (Z.to_nat (Z.of_nat (List.length xs) + i))
  else None.

(** [v[k]]. *)
Definition py_getitem (v k : pyval) : M pyval :=
  match v, k with
  | PDict kvs, PStr s =>
      match dict_get kvs s with
      | Some x => ret x
      | None => raise KeyError ([39] ++ s ++ [39])
      end
  | PDict _, (PList _ | PDict _) => raise TypeError (lit "unhashable type")
  | PDict _, _ => raise KeyError []
  | PList l, (PInt _ | PBool _) =>
      let i := match k with PInt i => i | PBool true => 1 | _ => 0 end in
      match py_index l i with
      | Some x => ret x
      | None => raise IndexError (lit "list index out of range")
      end
  | PList _, _ => raise TypeError (lit "list indices must be integers or slices")
  | PStr s, (PInt _ | PBool _) =>
      let i := match k with PInt i => i | PBool true => 1 | _ => 0 end in
      match py_index s i with
      | Some c => ret (PStr [c])
      | None => raise IndexError (lit "string index out of range")
      end
  | PStr _, _ => raise TypeError (lit "string indices must be integers")
  | _, _ => raise TypeError (lit "object is not subscriptable")
  end.

(** [v["key"]] with a literal key. *)
Definition item (v : pyval) (key : string) : M pyval := py_getitem v (PStr (lit key)).

(** The elements [for x in v] visits. *)
Definition py_iter (v : pyval) : M (list pyval) :=
  match v with
  | PList l => ret l
  | PDict kvs => ret (map (fun kv => PStr (fst kv)) kvs)
  | PStr s => ret (map (fun c => PStr [c]) s)
  | _ => raise TypeError (lit "object is not iterable")
  end.

(** [len(v)]. *)
Definition py_len (v : pyval) : M Z :=
  match v with
  | PList l => ret (Z.of_nat (List.length l))
  | PDict kvs => ret (Z.of_nat (List.length kvs))
  | PStr s => ret (Z.of_nat (List.length s))
  | _ => raise TypeError (lit "object has no len()")
  end.

Fixpoint is_prefix (p s : pystr) : bool :=
  match p, s with
  | [], _ => true
  | c :: p', d :: s' => (c =? d) && is_prefix p' s'
  | _ :: _, [] => false
  end.

Fixpoint is_infix (p s : pystr) : bool :=
  is_prefix p s || match s with [] => false | _ :: s' => is_infix p s' end.

(** [needle in v] for a [str] needle. *)
Definition py_contains_str (v : pyval) (needle : pystr) : M bool :=
  match v with
  | PDict kvs => ret (match dict_get kvs needle with Some _ => true | None => false end)
  | PList l =>
      ret (existsb (fun x => match x with
                             | PStr s => if list_eq_dec Z.eq_dec s needle then true else false
                             | _ => false
                             end) l)
  | PStr s => ret (is_infix needle s)
  | _ => raise TypeError (lit "argument is not iterable")
  end.

(** [d.items()]. *)
Definition py_items (v : pyval) : M (list (pystr * pyval)) :=
  match v with
  | PDict kvs => ret kvs
  | _ => raise AttributeError (lit "object has no attribute 'items'")
  end.

(** Python numbers: [bool] and [int] as integers, [float] as binary64. *)
Definition num_of (v : pyval) : option (Z + binary64) :=
  match v with
  | PBool b => Some (inl (if b then 1 else 0))
  | PInt z => Some (inl z)
  | PFloat x => Some (inr x)
  | _ => None
  end.

(** An operand of a float operation converted to a float: an [int] too
    large for a finite float raises. *)
Definition to_b64 (x : Z + binary64) : M binary64 :=
  match x with
  | inl z =>
      let f := b64_of_Z z in
      if b64_is_inf f then raise OverflowError (lit "int too large to convert to float")
      else ret f
  | inr f => ret f
  end.

(** [a + b]: [int] when both operands are integers, otherwise both are
    converted to [float], the left one first. *)
Definition py_add (a b : pyval) : M pyval :=
  match a, b with
  | PStr s, PStr t => ret (PStr (s ++ t))
  | PList l, PList m => ret (PList (l ++ m))
  | _, _ =>
      match num_of a, num_of b with
      | Some (inl x), Some (inl y) => ret (PInt (x + y))
      | Some x, Some y => fx <- to_b64 x ;; fy <- to_b64 y ;; ret (PFloat (b64_add fx fy))
      | _, _ => raise TypeError (lit "unsupported operand type(s) for +")
      end
  end.

(** [a - b]. *)
Definition py_sub (a b : pyval) : M pyval :=
  match num_of a, num_of b with
  | Some (inl x), Some (inl y) => ret (PInt (x - y))
  | Some x, Some y => fx <- to_b64 x ;; fy <- to_b64 y ;; ret (PFloat (b64_sub fx fy))
  | _, _ => raise TypeError (lit "unsupported operand type(s) for -")
  end.

(** [a / b], true division: always a [float].  Two integers are divided
    exactly and the quotient rounded once; otherwise both operands are
    converted to [float] first. *)
Definition py_truediv (a b : pyval) : M pyval :=
  match num_of a, num_of b with
  | Some (inl x), Some (inl y) =>
      if y =? 0 then raise ZeroDivisionError (lit "division by zero")
      else
        let q := int_truediv x y in
        if b64_is_inf q then raise OverflowError (lit "integer division result too large for a float")
        else ret (PFloat q)
  | Some x, Some y =>
      fx <- to_b64 x ;;
      fy <- to_b64 y ;;
      if b64_is_zero fy then raise ZeroDivisionError (lit "float division by zero")
      else ret (PFloat (b64_div fx fy))
  | _, _ => raise TypeError (lit "unsupported operand type(s) for /")
  end.

(** [str.isspace] for one code point. *)
Definition is_space (c : Z) : bool :=
  ((9 <=? c) && (c <=? 13)) || ((28 <=? c) && (c <=? 32)) || (c =? 133) || (c =? 160)
  || (c =? 5760) || ((8192 <=? c) && (c <=? 8202)) || (c =? 8232) || (c =? 8233)
  || (c =? 8239) || (c =? 8287) || (c =? 12288).

(** The code points of Unicode 14.0 (the version of CPython 3.11's
    database) whose decimal digit value is 0; digits 1 to 9 follow each. *)
Definition decimal_zeros : list Z :=
  [48; 1632; 1776; 1984; 2406; 2534; 2662; 2790; 2918; 3046;
   3174; 3302; 3430; 3558; 3664; 3792; 3872; 4160; 4240; 6112;
   6160; 6470; 6608; 6784; 6800; 6992; 7088; 7232; 7248; 42528;
   43216; 43264; 43472; 43504; 43600; 44016; 65296; 66720; 68912; 69734;
   69872; 69942; 70096; 70384; 70736; 70864; 71248; 71360; 71472; 71904;
   72016; 72784; 73040; 73120; 92768; 92864; 93008; 120782; 120792; 120802;
   120812; 120822; 123200; 123632; 125264; 130032].

(** The ranges of non-ASCII code points that [str.isprintable] accepts in
    Unicode 14.0: all but the categories Cc, Cf, Cs, Co, Cn, Zl, Zp and Zs. *)
Definition printable_ranges : list (Z * Z) :=
  [(161, 172); (174, 887); (890, 895); (900, 906); (908, 908); (910, 929);
   (931, 1327); (1329, 1366); (1369, 1418); (1421, 1423); (1425, 1479); (1488, 1514);
   (1519, 1524); (1542, 1563); (1565, 1756); (1758, 1805); (1808, 1866); (1869, 1969);
   (1984, 2042); (2045, 2093); (2096, 2110); (2112, 2139); (2142, 2142); (2144, 2154);
   (2160, 2190); (2200, 2273); (2275, 2435); (2437, 2444); (2447, 2448); (2451, 2472);
   (2474, 2480); (2482, 2482); (2486, 2489); (2492, 2500); (2503, 2504); (2507, 2510);
   (2519, 2519); (2524, 2525); (2527, 2531); (2534, 2558); (2561, 2563); (2565, 2570);
   (2575, 2576); (2579, 2600); (2602, 2608); (2610, 2611); (2613, 2614); (2616, 2617);
   (2620, 2620); (2622, 2626); (2631, 2632); (2635, 2637); (2641, 2641); (2649, 2652);
   (2654, 2654); (2662, 2678); (2689, 2691); (2693, 2701); (2703, 2705); (2707, 2728);
   (2730, 2736); (2738, 2739); (2741, 2745); (2748, 2757); (2759, 2761); (2763, 2765);
   (2768, 2768); (2784, 2787); (2790, 2801); (2809, 2815); (2817, 2819); (2821, 2828);
   (2831, 2832); (2835, 2856); (2858, 2864); (2866, 2867); (2869, 2873); (2876, 2884);
   (2887, 2888); (2891, 2893); (2901, 2903); (2908, 2909); (2911, 2915); (2918, 2935);
   (2946, 2947); (2949, 2954); (2958, 2960); (2962, 2965); (2969, 2970); (2972, 2972);
   (2974, 2975); (2979, 2980); (2984, 2986); (2990, 3001); (3006, 3010); (3014, 3016);
   (3018, 3021); (3024, 3024); (3031, 3031); (3046, 3066); (3072, 3084); (3086, 3088);
   (3090, 3112); (3114, 3129); (3132, 3140); (3142, 3144); (3146, 3149); (3157, 3158);
   (3160, 3162); (3165, 3165); (3168, 3171); (3174, 3183); (3191, 3212); (3214, 3216);
   (3218, 3240); (3242, 3251); (3253, 3257); (3260, 3268); (3270, 3272); (3274, 3277);
   (3285, 3286); (3293, 3294); (3296, 3299); (3302, 3311); (3313, 3314); (3328, 3340);
   (3342, 3344); (3346, 3396); (3398, 3400); (3402, 3407); (3412, 3427); (3430, 3455);
   (3457, 3459); (3461, 3478); (3482, 3505); (3507, 3515); (3517, 3517); (3520, 3526);
   (3530, 3530); (3535, 3540); (3542, 3542); (3544, 3551); (3558, 3567); (3570, 3572);
   (3585, 3642); (3647, 3675); (3713, 3714); (3716, 3716); (3718, 3722); (3724, 3747);
   (3749, 3749); (3751, 3773); (3776, 3780); (3782, 3782); (3784, 3789); (3792, 3801);
   (3804, 3807); (3840, 3911); (3913, 3948); (3953, 3991); (3993, 4028); (4030, 4044);
   (4046, 4058); (4096, 4293); (4295, 4295); (4301, 4301); (4304, 4680); (4682, 4685);
   (4688, 4694); (4696, 4696); (4698, 4701); (4704, 4744); (4746, 4749); (4752, 4784);
   (4786, 4789); (4792, 4798); (4800, 4800); (4802, 4805); (4808, 4822); (4824, 4880);
   (4882, 4885); (4888, 4954); (4957, 4988); (4992, 5017); (5024, 5109); (5112, 5117);
   (5120, 5759); (5761, 5788); (5792, 5880); (5888, 5909); (5919, 5942); (5952, 5971);
   (5984, 5996); (5998, 6000); (6002, 6003); (6016, 6109); (6112, 6121); (6128, 6137);
   (6144, 6157); (6159, 6169); (6176, 6264); (6272, 6314); (6320, 6389); (6400, 6430);
   (6432, 6443); (6448, 6459); (6464, 6464); (6468, 6509); (6512, 6516); (6528, 6571);
   (6576, 6601); (6608, 6618); (6622, 6683); (6686, 6750); (6752, 6780); (6783, 6793);
   (6800, 6809); (6816, 6829); (6832, 6862); (6912, 6988); (6992, 7038); (7040, 7155);
   (7164, 7223); (7227, 7241); (7245, 7304); (7312, 7354); (7357, 7367); (7376, 7418);
   (7424, 7957); (7960, 7965); (7968, 8005); (8008, 8013); (8016, 8023); (8025, 8025);
   (8027, 8027); (8029, 8029); (8031, 8061); (8064, 8116); (8118, 8132); (8134, 8147);
   (8150, 8155); (8157, 8175); (8178, 8180); (8182, 8190); (8208, 8231); (8240, 8286);
   (8304, 8305); (8308, 8334); (8336, 8348); (8352, 8384); (8400, 8432); (8448, 8587);
   (8592, 9254); (9280, 9290); (9312, 11123); (11126, 11157); (11159, 11507); (11513, 11557);
   (11559, 11559); (11565, 11565); (11568, 11623); (11631, 11632); (11647, 11670); (11680, 11686);
   (11688, 11694); (11696, 11702); (11704, 11710); (11712, 11718); (11720, 11726); (11728, 11734);
   (11736, 11742); (11744, 11869); (11904, 11929); (11931, 12019); (12032, 12245); (12272, 12283);
   (12289, 12351); (12353, 12438); (12441, 12543); (12549, 12591); (12593, 12686); (12688, 12771);
   (12784, 12830); (12832, 42124); (42128, 42182); (42192, 42539); (42560, 42743); (42752, 42954);
   (42960, 42961); (42963, 42963); (42965, 42969); (42994, 43052); (43056, 43065); (43072, 43127);
   (43136, 43205); (43214, 43225); (43232, 43347); (43359, 43388); (43392, 43469); (43471, 43481);
   (43486, 43518); (43520, 43574); (43584, 43597); (43600, 43609); (43612, 43714); (43739, 43766);
   (43777, 43782); (43785, 43790); (43793, 43798); (43808, 43814); (43816, 43822); (43824, 43883);
   (43888, 44013); (44016, 44025); (44032, 55203); (55216, 55238); (55243, 55291); (63744, 64109);
   (64112, 64217); (64256, 64262); (64275, 64279); (64285, 64310); (64312, 64316); (64318, 64318);
   (64320, 64321); (64323, 64324); (64326, 64450); (64467, 64911); (64914, 64967); (64975, 64975);
   (65008, 65049); (65056, 65106); (65108, 65126); (65128, 65131); (65136, 65140); (65142, 65276);
   (65281, 65470); (65474, 65479); (65482, 65487); (65490, 65495); (65498, 65500); (65504, 65510);
   (65512, 65518); (65532, 65533); (65536, 65547); (65549, 65574); (65576, 65594); (65596, 65597);
   (65599, 65613); (65616, 65629); (65664, 65786); (65792, 65794); (65799, 65843); (65847, 65934);
   (65936, 65948); (65952, 65952); (66000, 66045); (66176, 66204); (66208, 66256); (66272, 66299);
   (66304, 66339); (66349, 66378); (66384, 66426); (66432, 66461); (66463, 66499); (66504, 66517);
   (66560, 66717); (66720, 66729); (66736, 66771); (66776, 66811); (66816, 66855); (66864, 66915);
   (66927, 66938); (66940, 66954); (66956, 66962); (66964, 66965); (66967, 66977); (66979, 66993);
   (66995, 67001); (67003, 67004); (67072, 67382); (67392, 67413); (67424, 67431); (67456, 67461);
   (67463, 67504); (67506, 67514); (67584, 67589); (67592, 67592); (67594, 67637); (67639, 67640);
   (67644, 67644); (67647, 67669); (67671, 67742); (67751, 67759); (67808, 67826); (67828, 67829);
   (67835, 67867); (67871, 67897); (67903, 67903); (67968, 68023); (68028, 68047); (68050, 68099);
   (68101, 68102); (68108, 68115); (68117, 68119); (68121, 68149); (68152, 68154); (68159, 68168);
   (68176, 68184); (68192, 68255); (68288, 68326); (68331, 68342); (68352, 68405); (68409, 68437);
   (68440, 68466); (68472, 68497); (68505, 68508); (68521, 68527); (68608, 68680); (68736, 68786);
   (68800, 68850); (68858, 68903); (68912, 68921); (69216, 69246); (69248, 69289); (69291, 69293);
   (69296, 69297); (69376, 69415); (69424, 69465); (69488, 69513); (69552, 69579); (69600, 69622);
   (69632, 69709); (69714, 69749); (69759, 69820); (69822, 69826); (69840, 69864); (69872, 69881);
   (69888, 69940); (69942, 69959); (69968, 70006); (70016, 70111); (70113, 70132); (70144, 70161);
   (70163, 70206); (70272, 70278); (70280, 70280); (70282, 70285); (70287, 70301); (70303, 70313);
   (70320, 70378); (70384, 70393); (70400, 70403); (70405, 70412); (70415, 70416); (70419, 70440);
   (70442, 70448); (70450, 70451); (70453, 70457); (70459, 70468); (70471, 70472); (70475, 70477);
   (70480, 70480); (70487, 70487); (70493, 70499); (70502, 70508); (70512, 70516); (70656, 70747);
   (70749, 70753); (70784, 70855); (70864, 70873); (71040, 71093); (71096, 71133); (71168, 71236);
   (71248, 71257); (71264, 71276); (71296, 71353); (71360, 71369); (71424, 71450); (71453, 71467);
   (71472, 71494); (71680, 71739); (71840, 71922); (71935, 71942); (71945, 71945); (71948, 71955);
   (71957, 71958); (71960, 71989); (71991, 71992); (71995, 72006); (72016, 72025); (72096, 72103);
   (72106, 72151); (72154, 72164); (72192, 72263); (72272, 72354); (72368, 72440); (72704, 72712);
   (72714, 72758); (72760, 72773); (72784, 72812); (72816, 72847); (72850, 72871); (72873, 72886);
   (72960, 72966); (72968, 72969); (72971, 73014); (73018, 73018); (73020, 73021); (73023, 73031);
   (73040, 73049); (73056, 73061); (73063, 73064); (73066, 73102); (73104, 73105); (73107, 73112);
   (73120, 73129); (73440, 73464); (73648, 73648); (73664, 73713); (73727, 74649); (74752, 74862);
   (74864, 74868); (74880, 75075); (77712, 77810); (77824, 78894); (82944, 83526); (92160, 92728);
   (92736, 92766); (92768, 92777); (92782, 92862); (92864, 92873); (92880, 92909); (92912, 92917);
   (92928, 92997); (93008, 93017); (93019, 93025); (93027, 93047); (93053, 93071); (93760, 93850);
   (93952, 94026); (94031, 94087); (94095, 94111); (94176, 94180); (94192, 94193); (94208, 100343);
   (100352, 101589); (101632, 101640); (110576, 110579); (110581, 110587); (110589, 110590); (110592, 110882);
   (110928, 110930); (110948, 110951); (110960, 111355); (113664, 113770); (113776, 113788); (113792, 113800);
   (113808, 113817); (113820, 113823); (118528, 118573); (118576, 118598); (118608, 118723); (118784, 119029);
   (119040, 119078); (119081, 119154); (119163, 119274); (119296, 119365); (119520, 119539); (119552, 119638);
   (119648, 119672); (119808, 119892); (119894, 119964); (119966, 119967); (119970, 119970); (119973, 119974);
   (119977, 119980); (119982, 119993); (119995, 119995); (119997, 120003); (120005, 120069); (120071, 120074);
   (120077, 120084); (120086, 120092); (120094, 120121); (120123, 120126); (120128, 120132); (120134, 120134);
   (120138, 120144); (120146, 120485); (120488, 120779); (120782, 121483); (121499, 121503); (121505, 121519);
   (122624, 122654); (122880, 122886); (122888, 122904); (122907, 122913); (122915, 122916); (122918, 122922);
   (123136, 123180); (123184, 123197); (123200, 123209); (123214, 123215); (123536, 123566); (123584, 123641);
   (123647, 123647); (124896, 124902); (124904, 124907); (124909, 124910); (124912, 124926); (124928, 125124);
   (125127, 125142); (125184, 125259); (125264, 125273); (125278, 125279); (126065, 126132); (126209, 126269);
   (126464, 126467); (126469, 126495); (126497, 126498); (126500, 126500); (126503, 126503); (126505, 126514);
   (126516, 126519); (126521, 126521); (126523, 126523); (126530, 126530); (126535, 126535); (126537, 126537);
   (126539, 126539); (126541, 126543); (126545, 126546); (126548, 126548); (126551, 126551); (126553, 126553);
   (126555, 126555); (126557, 126557); (126559, 126559); (126561, 126562); (126564, 126564); (126567, 126570);
   (126572, 126578); (126580, 126583); (126585, 126588); (126590, 126590); (126592, 126601); (126603, 126619);
   (126625, 126627); (126629, 126633); (126635, 126651); (126704, 126705); (126976, 127019); (127024, 127123);
   (127136, 127150); (127153, 127167); (127169, 127183); (127185, 127221); (127232, 127405); (127462, 127490);
   (127504, 127547); (127552, 127560); (127568, 127569); (127584, 127589); (127744, 128727); (128733, 128748);
   (128752, 128764); (128768, 128883); (128896, 128984); (128992, 129003); (129008, 129008); (129024, 129035);
   (129040, 129095); (129104, 129113); (129120, 129159); (129168, 129197); (129200, 129201); (129280, 129619);
   (129632, 129645); (129648, 129652); (129656, 129660); (129664, 129670); (129680, 129708); (129712, 129722);
   (129728, 129733); (129744, 129753); (129760, 129767); (129776, 129782); (129792, 129938); (129940, 129994);
   (130032, 130041); (131072, 173791); (173824, 177976); (177984, 178205); (178208, 183969); (183984, 191456);
   (194560, 195101); (196608, 201546); (917760, 917999)].

(** The decimal digit value of a code point, if it has one. *)
Fixpoint decimal_in (zs : list Z) (c : Z) : option Z :=
  match zs with
  | [] => None
  | z :: zs' => if (z <=? c) && (c <? z + 10) then Some (c - z) else decimal_in zs' c
  end.

Definition decimal_value (c : Z) : option Z := decimal_in decimal_zeros c.

(** [_PyUnicode_TransformDecimalAndSpaceToASCII]: a string of ASCII code
    points is kept; otherwise a code point below 127 is kept, white space
    becomes a space, a decimal digit the ASCII digit of the same value, and
    the first other code point becomes ['?'], where the result ends. *)
Fixpoint transform_ascii (s : pystr) : pystr :=
  match s with
  | [] => []
  | c :: s' =>
      if c <? 127 then c :: transform_ascii s'
      else if is_space c then 32 :: transform_ascii s'
      else match decimal_value c with
           | Some d => (48 + d) :: transform_ascii s'
           | None => [63]
           end
  end.

Definition to_ascii_digits (s : pystr) : pystr :=
  if forallb (fun c => c <? 128) s then s else transform_ascii s.

(** White space as [PyLong_FromString] skips it: ASCII space, tab, newline,
    vertical tab, form feed and carriage return. *)
Definition is_ascii_space (c : Z) : bool := ((9 <=? c) && (c <=? 13)) || (c =? 32).

Fixpoint strip_left (s : pystr) : pystr :=
  match s with
  | c :: s' => if is_ascii_space c then strip_left s' else s
  | [] => []
  end.

Definition strip (s : pystr) : pystr := rev (strip_left (rev (strip_left s))).

Fixpoint dec_body (s : pystr) (acc : Z) : option Z :=
  match s with
  | [] => Some acc
  | c :: s' =>
      if is_digit c then dec_body s' (acc * 10 + (c - 48))
      else if c =? 95 then
        match s' with
        | d :: s'' => if is_digit d then dec_body s'' (acc * 10 + (d - 48)) else None
        | [] => None
        end
      else None
  end.

Definition dec_unsigned (s : pystr) : option Z :=
  match s with
  | c :: s' => if is_digit c then dec_body s' (c - 48) else None
  | [] => None
  end.

(** [int(s)] for a [str] [s], where it succeeds: after the digits of other
    scripts are turned into ASCII ones, surrounding white space, an
    optional sign, then decimal digits with single underscores between
    them. *)
Definition int_of_str (s : pystr) : option Z :=
  match strip (to_ascii_digits s) with
  | c :: s' =>
      if c =? 45 then option_map Z.opp (dec_unsigned s')
      else if c =? 43 then dec_unsigned s'
      else dec_unsigned (c :: s')
  | [] => None
  end.

(** [str.isprintable] for one code point. *)
Definition is_printable (c : Z) : bool :=
  if c <? 128 then (32 <=? c) && (c <? 127)
  else existsb (fun r => (fst r <=? c) && (c <=? snd r)) printable_ranges.

(** The lowercase hexadecimal digits of [x], [k] of them. *)
Fixpoint hex_digits (k : nat) (x : Z) : pystr :=
  match k with
  | O => []
  | S k' => hex_digits k' (x / 16) ++ [let d := x mod 16 in if d <? 10 then 48 + d else 87 + d]
  end.

(** One code point of a string's [repr], inside quotes [q]. *)
Definition repr_char (q c : Z) : pystr :=
  if (c =? q) || (c =? 92) then [92; c]
  else if c =? 9 then [92; 116]
  else if c =? 10 then [92; 110]
  else if c =? 13 then [92; 114]
  else if (c <? 32) || (c =? 127) then [92; 120] ++ hex_digits 2 c
  else if c <? 127 then [c]
  else if is_printable c then [c]
  else if c <=? 255 then [92; 120] ++ hex_digits 2 c
  else if c <=? 65535 then [92; 117] ++ hex_digits 4 c
  else [92; 85] ++ hex_digits 8 c.

(** [repr(s)] for a [str] [s]: in double quotes when [s] has a single quote
    and no double quote, in single quotes otherwise. *)
Definition str_repr (s : pystr) : pystr :=
  let q := if existsb (fun c => c =? 39) s && negb (existsb (fun c => c =? 34) s) then 34 else 39 in
  [q] ++ flat_map (repr_char q) s ++ [q].

(** [int(v)] where it succeeds: a float is rounded toward zero. *)
Definition int_value (v : pyval) : option Z :=
  match v with
  | PInt z => Some z
  | PBool b => Some (if b then 1 else 0)
  | PFloat x => b64_trunc x
  | PStr s => int_of_str s
  | _ => None
  end.

(** [int(v)].  The message for a [str] shows its [repr], cut to 200
    characters. *)
Definition py_int (v : pyval) : M Z :=
  match int_value v with
  | Some z => ret z
  | None =>
      match v with
      | PStr s => raise ValueError (lit "invalid literal for int() with base 10: " ++ firstn 200 (str_repr s))
      | PFloat B64NaN => raise ValueError (lit "cannot convert float NaN to integer")
      | PFloat _ => raise OverflowError (lit "cannot convert float infinity to integer")
      | _ => raise TypeError (lit "int() argument must be a string, a bytes-like object or a real number")
      end
  end.

(** ** The [json] module

    [json.loads] follows CPython's C scanner and the Python decoder around
    it: white space is space, tab, newline and carriage return; strings are
    strict (no raw control characters); a [\uXXXX] escape of a high
    surrogate immediately followed by one of a low surrogate yields the
    combined code point; a number is an optional minus sign, an integer part
    ([0] or digits not starting with [0]), an optional fraction (a point and
    digits) and an optional exponent ([e] or [E], an optional sign, digits);
    it is an [int] exactly when neither the fraction nor the exponent is
    present, and a [float] is read with correct rounding; the constants
    [NaN], [Infinity] and [-Infinity] are accepted; a repeated object key
    keeps its first position and its last value.  A failure is reported
    with the scanner's message and the position where it occurred. *)

Definition is_ws (c : Z) : bool := (c =? 32) || (c =? 9) || (c =? 10) || (c =? 13).

Fixpoint skip_ws (s : pystr) : pystr :=
  match s with
  | c :: s' => if is_ws c then skip_ws s' else s
  | [] => []
  end.

Fixpoint span_digits (s : pystr) : pystr * pystr :=
  match s with
  | c :: s' =>
      if is_digit c then let (ds, r) := span_digits s' in (c :: ds, r) else ([], s)
  | [] => ([], [])
  end.

(** Integer part: [0] or a non-zero digit followed by digits. *)
Definition int_part (s : pystr) : option (pystr * pystr) :=
  match s with
  | c :: t => if c =? 48 then Some ([c], t) else if is_digit c then Some (span_digits s) else None
  | [] => None
  end.

(** Fraction part: the digits after a point, empty when the group is absent. *)
Definition frac_part (s : pystr) : pystr * pystr :=
  match s with
  | c :: ((d :: _) as t) => if (c =? 46) && is_digit d then span_digits t else ([], s)
  | _ => ([], s)
  end.

Definition exp_digits (sign : Z) (s fallback : pystr) : option Z * pystr :=
  match span_digits s with
  | ([], _) => (None, fallback)
  | (ds, r) => (Some (sign * digits_value ds), r)
  end.

(** Exponent part, [None] when the group is absent. *)
Definition exp_part (s : pystr) : option Z * pystr :=
  match s with
  | c :: t =>
      if (c =? 101) || (c =? 69) then
        match t with
        | d :: t' =>
            if d =? 43 then exp_digits 1 t' s
            else if d =? 45 then exp_digits (-1) t' s
            else exp_digits 1 t s
        | [] => (None, s)
        end
      else (None, s)
  | [] => (None, s)
  end.

Definition parse_number (s : pystr) : option (pyval * pystr) :=
  let '(neg, s1) := match s with
                    | c :: t => if c =? 45 then (true, t) else (false, s)
                    | [] => (false, s)
                    end in
  match int_part s1 with
  | None => None
  | Some (ip, s2) =>
      let '(fp, s3) := frac_part s2 in
      let '(ex, s4) := exp_part s3 in
      match fp, ex with
      | [], None => Some (PInt (signed neg (digits_value ip)), s4)
      | _, _ => Some (PFloat (numtext_value (mkNumtext neg ip fp ex)), s4)
      end
  end.

Definition hexval (c : Z) : option Z :=
  if is_digit c then Some (c - 48)
  else if (97 <=? c) && (c <=? 102) then Some (c - 87)
  else if (65 <=? c) && (c <=? 70) then Some (c - 55)
  else None.

Definition hex4 (a b c d : Z) : option Z :=
  match hexval a, hexval b, hexval c, hexval d with
  | Some x, Some y, Some z, Some w => Some (((x * 16 + y) * 16 + z) * 16 + w)
  | _, _, _, _ => None
  end.

Definition is_high (u : Z) : bool := (55296 <=? u) && (u <=? 56319).
Definition is_low (u : Z) : bool := (56320 <=? u) && (u <=? 57343).
Definition join_surrogates (hi lo : Z) : Z := 65536 + (hi - 55296) * 1024 + (lo - 56320).

Definition simple_escape (e : Z) : option Z :=
  if e =? 34 then Some 34 else if e =? 92 then Some 92 else if e =? 47 then Some 47
  else if e =? 98 then Some 8 else if e =? 102 then Some 12 else if e =? 110 then Some 10
  else if e =? 114 then Some 13 else if e =? 116 then Some 9 else None.

(** The outcome of a scanning step: the result and the text after it, or
    the scanner's message and the text from the position it reports. *)
Inductive scan (A : Type) : Type :=
| SOk (a : A) (rest : pystr)
| SErr (msg : string) (at_ : pystr).
Arguments SOk {A} a rest.
Arguments SErr {A} msg at_.

Definition scan_cons (c : Z) (r : scan pystr) : scan pystr :=
  match r with
  | SOk s rest => SOk (c :: s) rest
  | SErr m a => SErr m a
  end.

(** [scanstring]: the body of a string literal whose opening quote starts
    [start], from [s] up to and including its closing quote.  A [\u] escape
    needs its four hexadecimal digits and one more character after them; a
    high surrogate is paired with a following [\u] escape only when seven
    characters follow its own escape. *)
Fixpoint scan_str (start s : pystr) : scan pystr :=
  match s with
  | [] => SErr "Unterminated string starting at" start
  | c :: s' =>
      if c =? 34 then SOk [] s'
      else if c =? 92 then
        match s' with
        | [] => SErr "Unterminated string starting at" start
        | e :: t =>
            if e =? 117 then
              match t with
              | h1 :: h2 :: h3 :: h4 :: ((_ :: _) as s2) =>
                  match hex4 h1 h2 h3 h4 with
                  | None => SErr "Invalid \uXXXX escape" s'
                  | Some u =>
                      if is_high u then
                        match s2 with
                        | b :: ((v :: l1 :: l2 :: l3 :: l4 :: ((_ :: _) as s3)) as w) =>
                            if (b =? 92) && (v =? 117) then
                              match hex4 l1 l2 l3 l4 with
                              | None => SErr "Invalid \uXXXX escape" w
                              | Some u2 =>
                                  if is_low u2 then scan_cons (join_surrogates u u2) (scan_str start s3)
                                  else scan_cons u (scan_str start s2)
                              end
                            else scan_cons u (scan_str start s2)
                        | _ => scan_cons u (scan_str start s2)
                        end
                      else scan_cons u (scan_str start s2)
                  end
              | _ => SErr "Invalid \uXXXX escape" s'
              end
            else
              match simple_escape e with
              | Some c' => scan_cons c' (scan_str start t)
              | None => SErr "Invalid \escape" s
              end
        end
      else if c <=? 31 then SErr "Invalid control character at" s
      else scan_cons c (scan_str start s')
  end.

Definition starts_with (p s : pystr) : bool := is_prefix p s.

(** [scan_once]: one JSON value, then the rest of the text.  [n] bounds
    the depth of the recursion; [loads] gives it one more than the length
    of the text, and every call consumes at least one character. *)
Fixpoint parse_value (n : nat) (s : pystr) {struct n} : scan pyval :=
  match n with
  | O => SErr "Expecting value" s
  | S n' =>
      match s with
      | [] => SErr "Expecting value" []
      | c :: s' =>
          if c =? 34 then
            match scan_str s s' with
            | SOk str r => SOk (PStr str) r
            | SErr m a => SErr m a
            end
          else if c =? 123 then
            match skip_ws s' with
            | c1 :: r1 => if c1 =? 125 then SOk (PDict []) r1 else parse_members n' (c1 :: r1) []
            | [] => parse_members n' [] []
            end
          else if c =? 91 then
            match skip_ws s' with
            | c1 :: r1 => if c1 =? 93 then SOk (PList []) r1 else parse_elements n' (c1 :: r1) []
            | [] => parse_elements n' [] []
            end
          else if starts_with (lit "null") s then SOk PNone (skipn 4 s)
          else if starts_with (lit "true") s then SOk (PBool true) (skipn 4 s)
          else if starts_with (lit "false") s then SOk (PBool false) (skipn 5 s)
          else if starts_with (lit "NaN") s then SOk (PFloat B64NaN) (skipn 3 s)
          else if starts_with (lit "Infinity") s then SOk (PFloat (B64Inf false)) (skipn 8 s)
          else if starts_with (lit "-Infinity") s then SOk (PFloat (B64Inf true)) (skipn 9 s)
          else
            match parse_number s with
            | Some (v, r) => SOk v r
            | None => SErr "Expecting value" s
            end
      end
  end
(** Array elements after [[]: [acc] holds the elements read so far. *)
with parse_elements (n : nat) (s : pystr) (acc : list pyval) {struct n} : scan pyval :=
  match n with
  | O => SErr "Expecting value" s
  | S n' =>
      match parse_value n' s with
      | SErr m a => SErr m a
      | SOk v r =>
          match skip_ws r with
          | c :: r' =>
              if c =? 93 then SOk (PList (acc ++ [v])) r'
              else if c =? 44 then parse_elements n' (skip_ws r') (acc ++ [v])
              else SErr "Expecting ',' delimiter" (c :: r')
          | [] => SErr "Expecting ',' delimiter" []
          end
      end
  end
(** Object members after [{]: [acc] holds the dictionary built so far. *)
with parse_members (n : nat) (s : pystr) (acc : list (pystr * pyval)) {struct n}
  : scan pyval :=
  match n with
  | O => SErr "Expecting value" s
  | S n' =>
      match s with
      | c :: s' =>
          if c =? 34 then
            match scan_str s s' with
            | SErr m a => SErr m a
            | SOk k r =>
                match skip_ws r with
                | c2 :: r2 =>
                    if c2 =? 58 then
                      match parse_value n' (skip_ws r2) with
                      | SErr m a => SErr m a
                      | SOk v r3 =>
                          match skip_ws r3 with
                          | c3 :: r4 =>
                              if c3 =? 125 then SOk (PDict (dict_set acc k v)) r4
                              else if c3 =? 44 then parse_members n' (skip_ws r4) (dict_set acc k v)
                              else SErr "Expecting ',' delimiter" (c3 :: r4)
                          | [] => SErr "Expecting ',' delimiter" []
                          end
                      end
                    else SErr "Expecting ':' delimiter" (c2 :: r2)
                | [] => SErr "Expecting ':' delimiter" []
                end
            end
          else SErr "Expecting property name enclosed in double quotes" s
      | [] => SErr "Expecting property name enclosed in double quotes" []
      end
  end.

(** What [json.loads] makes of a [str]: a value, or the message and the
    position of a [JSONDecodeError]. *)
Inductive decoded : Type :=
| Decoded (v : pyval)
| DecodeError (msg : string) (at_ : pystr).

(** [json.loads(s)] for a [str] [s]: a leading byte order mark is refused;
    then one value, surrounded by white space only. *)
Definition loads_result (s : pystr) : decoded :=
  match s with
  | 65279 :: _ => DecodeError "Unexpected UTF-8 BOM (decode using utf-8-sig)" s
  | _ =>
      match parse_value (S (List.length s)) (skip_ws s) with
      | SOk v r =>
          match skip_ws r with
          | [] => Decoded v
          | r' => DecodeError "Extra data" r'
          end
      | SErr m a => DecodeError m a
      end
  end.

Definition loads_text (s : pystr) : option pyval :=
  match loads_result s with Decoded v => Some v | DecodeError _ _ => None end.

(** The column of the position after [s], counted from 1 after its last
    newline. *)
Fixpoint column_after (s : pystr) (col : Z) : Z :=
  match s with
  | [] => col
  | c :: s' => column_after s' (if c =? 10 then 1 else col + 1)
  end.

(** [str()] of a [JSONDecodeError] for the document [doc], raised at the
    position where the suffix [at_] of [doc] starts:
    ["msg: line L column C (char P)"]. *)
Definition decode_error_msg (doc : pystr) (msg : string) (at_ : pystr) : pystr :=
  let pos := (List.length doc - List.length at_)%nat in
  let before := firstn pos doc in
  let lineno := Z.of_nat (List.length (filter (fun c => c =? 10) before)) + 1 in
  lit msg ++ lit ": line " ++ int_repr lineno ++ lit " column " ++ int_repr (column_after before 1)
  ++ lit " (char " ++ int_repr (Z.of_nat pos) ++ lit ")".

(** [json.loads(v)]. *)
Definition json_loads (v : pyval) : M pyval :=
  match v with
  | PStr s =>
      match loads_result s with
      | Decoded x => ret x
      | DecodeError m a => raise JSONDecodeError (decode_error_msg s m a)
      end
  | _ => raise TypeError (lit "the JSON object must be str, bytes or bytearray")
  end.

(** [json.dumps] with its defaults: [ensure_ascii], [allow_nan],
    separators [", "] and [": "], no indentation. *)

Definition hexch (d : Z) : Z := if d <? 10 then 48 + d else 87 + d.

Definition u_escape (c : Z) : pystr :=
  [92; 117; hexch (c / 4096 mod 16); hexch (c / 256 mod 16); hexch (c / 16 mod 16); hexch (c mod 16)].

Definition esc_char (c : Z) : pystr :=
  if c =? 34 then [92; 34]
  else if c =? 92 then [92; 92]
  else if c =? 8 then [92; 98]
  else if c =? 12 then [92; 102]
  else if c =? 10 then [92; 110]
  else if c =? 13 then [92; 114]
  else if c =? 9 then [92; 116]
  else if (32 <=? c) && (c <=? 126) then [c]
  else if c <=? 65535 then u_escape c
  else u_escape (55296 + (c - 65536) / 1024) ++ u_escape (56320 + (c - 65536) mod 1024).

Definition quote (s : pystr) : pystr := [34] ++ flat_map esc_char s ++ [34].

(** A float in JSON text: [float.__repr__], with [NaN], [Infinity] and
    [-Infinity] for the special values. *)
Definition float_json (x : binary64) : pystr :=
  match x with
  | B64NaN => lit "NaN"
  | B64Inf neg => if neg then lit "-Infinity" else lit "Infinity"
  | _ => render (float_text x)
  end.

Fixpoint dumps (v : pyval) : pystr :=
  match v with
  | PNone => lit "null"
  | PBool b => if b then lit "true" else lit "false"
  | PInt z => int_repr z
  | PFloat x => float_json x
  | PStr s => quote s
  | PList l => [91] ++ join (lit ", ") (map dumps l) ++ [93]
  | PDict kvs => [123] ++ join (lit ", ") (map (fun '(k, x) => quote k ++ lit ": " ++ dumps x) kvs) ++ [125]
  end.

(** [repr(v)]. *)
Fixpoint py_repr (v : pyval) : pystr :=
  match v with
  | PNone => lit "None"
  | PBool b => if b then lit "True" else lit "False"
  | PInt z => int_repr z
  | PFloat x => float_repr x
  | PStr s => str_repr s
  | PList l => [91] ++ join (lit ", ") (map py_repr l) ++ [93]
  | PDict kvs => [123] ++ join (lit ", ") (map (fun '(k, x) => str_repr k ++ lit ": " ++ py_repr x) kvs) ++ [125]
  end.

(** [str(v)], as an f-string renders it. *)
Definition py_str (v : pyval) : pystr :=
  match v with
  | PStr s => s
  | _ => py_repr v
  end.

(** * The scripts *)

(** [simple-pod-metrics-python/evaluate.py]. *)
Module SimplePodMetrics.

(** The body of the counting loop. *)
Definition count_available (metric : pyval) (total_available : Z) : M Z :=
  value <- item metric "value" ;;
  json_value <- json_loads value ;;
  available <- item json_value "available" ;;
  a <- py_int available ;;
  ret (total_available + a).

Definition evaluate (spec : pyval) : M unit :=
  (* Count total available *)
  metrics <- item spec "metrics" ;;
  entries <- py_iter metrics ;;
  total_available <- for_acc entries 0 count_available ;;
  (* Get current replica count *)
  resource <- item spec "resource" ;;
  status <- item resource "status" ;;
  replicas <- item status "replicas" ;;
  target_replica_count <- py_int replicas ;;
  (* Decrease target replicas if more than 5 available *)
  let target_replica_count :=
    if total_available >? 5 then target_replica_count - 1 else target_replica_count in
  (* Increase target replicas if none available *)
  let target_replica_count :=
    if total_available <=? 0 then target_replica_count + 1 else target_replica_count in
  (* Output JSON to stdout *)
  write_out (dumps (PDict [(lit "targetReplicas", PInt target_replica_count)])).

Definition main (stdin : pystr) : M unit :=
  spec <- json_loads (PStr stdin) ;; evaluate spec.

End SimplePodMetrics.

(** [python/evaluate.py].  [target_replica_count] is assigned in the body
    of [evaluate], so it is one of its local variables; its slot is unbound
    when the function starts and reading an unbound local raises
    [UnboundLocalError]. *)
Module PythonExample.

Definition load_local (name : string) (slot : option pyval) : M pyval :=
  match slot with
  | Some v => ret v
  | None =>
      raise UnboundLocalError
        (lit "cannot access local variable '" ++ lit name ++ lit "' where it is not associated with a value")
  end.

(** The body of the counting loop. *)
Definition count_available (metric : pyval) (total_available : Z) : M Z :=
  _pod <- item metric "pod" ;;
  available <- item metric "available" ;;
  a <- py_int available ;;
  ret (total_available + a).

Definition evaluate (metrics : pyval) : M unit :=
  let target_replica_count : option pyval := None in
  entries <- py_iter metrics ;;
  total_available <- for_acc entries 0 count_available ;;
  target_replica_count <-
    (if total_available >? 5 then
       x <- load_local "target_replica_count" target_replica_count ;;
       y <- py_sub x (PInt 1) ;; ret (Some y)
     else ret target_replica_count) ;;
  target_replica_count <-
    (if total_available <=? 0 then
       x <- load_local "target_replica_count" target_replica_count ;;
       y <- py_add x (PInt 1) ;; ret (Some y)
     else ret target_replica_count) ;;
  x <- load_local "target_replica_count" target_replica_count ;;
  write_out (dumps (PDict [(lit "target_replicas", x)])).

Definition main (stdin : pystr) : M unit :=
  metric_json <- json_loads (PStr stdin) ;; evaluate metric_json.

End PythonExample.

(** [scale-on-tweet/evaluate.py]. *)
Module ScaleOnTweet.

Definition evaluate (metrics : pyval) : M unit :=
  (* Only expect 1 metric provided *)
  n <- py_len metrics ;;
  _ <- (if negb (n =? 1) then _ <- write_err (lit "Expected 1 metric") ;; sys_exit 1
        else ret tt) ;;
  (* Get thumbs up and thumbs down values *)
  m0 <- py_getitem metrics (PInt 0) ;;
  value <- item m0 "value" ;;
  tweet_ratio_json <- json_loads value ;;
  up_v <- item tweet_ratio_json "up" ;;
  up <- py_int up_v ;;
  down_v <- item tweet_ratio_json "down" ;;
  down <- py_int down_v ;;
  (* Calculate number of replicas *)
  let replicas := up - down in
  (* Output target number of replicas to stdout *)
  write_out (dumps (PDict [(lit "target_replicas", PInt replicas)])).

Definition main (stdin : pystr) : M unit :=
  (* Parse metrics in JSON *)
  metrics <- json_loads (PStr stdin) ;; evaluate metrics.

End ScaleOnTweet.

(** [python-custom-autoscaler/evaluate.py]. *)
Module CustomAutoscaler.

Definition evaluate (spec : pyval) : M unit :=
  try_except
    (rm <- item spec "resourceMetrics" ;;
     ms <- item rm "metrics" ;;
     m0 <- py_getitem ms (PInt 0) ;;
     v <- item m0 "value" ;;
     value <- py_int v ;;
     (* Build JSON dict with targetReplicas *)
     write_out (dumps (PDict [(lit "targetReplicas", PInt (value * 2))])))
    [(load_exc_name [] "ValueError",
      fun err =>
        (* If not an integer, output error *)
        _ <- write_err (lit "Invalid metric value: " ++ exc_str err) ;;
        sys_exit 1)].

Definition main (stdin : pystr) : M unit :=
  (* Parse provided spec into a dict *)
  spec <- json_loads (PStr stdin) ;; evaluate spec.

End CustomAutoscaler.

(** [zero-scaler/metric.py]. *)
Module ZeroScaler.

Definition metric (spec : pyval) : M unit :=
  resource <- item spec "resource" ;;
  metadata <- item resource "metadata" ;;
  labels <- item metadata "labels" ;;
  has <- py_contains_str labels (lit "numPods") ;;
  if has then
    v <- item labels "numPods" ;;
    sys_stdout_write v
  else
    _ <- write_err (lit "No 'numPods' label on resource being managed") ;;
    sys_exit 1.

Definition main (stdin : pystr) : M unit :=
  (* Parse spec into a dict *)
  spec <- json_loads (PStr stdin) ;; metric spec.

End ZeroScaler.

(** [cpu/metric.py]; [k8s-metrics-cpu/metric.py] has the same body. *)
Module CpuMetric.

(** The body of the summing loop over [pod_metrics_info.items()]. *)
Definition add_utilization (pod : pystr * pyval) (total_utilization : pyval) : M pyval :=
  v <- item (snd pod) "Value" ;;
  py_add total_utilization v.

Definition metric (spec : pyval) : M unit :=
  kms <- item spec "kubernetesMetrics" ;;
  cpu_metrics <- py_getitem kms (PInt 0) ;;
  current_replicas <- item cpu_metrics "current_replicas" ;;
  resource <- item cpu_metrics "resource" ;;
  pod_metrics_info <- item resource "pod_metrics_info" ;;
  pods <- py_items pod_metrics_info ;;
  total_utilization <- for_acc pods (PInt 0) add_utilization ;;
  average_utilization <- py_truediv total_utilization current_replicas ;;
  write_out (dumps (PDict [(lit "current_replicas", current_replicas);
                           (lit "average_utilization", average_utilization)])).

Definition main (stdin : pystr) : M unit :=
  (* Parse JSON into a dict *)
  spec <- json_loads (PStr stdin) ;; metric spec.

End CpuMetric.

(** The remote probe of [python/metric.py]; the [metric] function of
    [simple-pod-metrics-python/metric.py] has the same body.  The network
    is a parameter: what [requests.get] does for a URL.  It returns a
    response for every HTTP status, error statuses included, or raises
    a transport error. *)
Module RemoteProbe.

Inductive http_result : Type :=
| Response (code : Z) (text : pystr)
| Failure (c : exc_class) (m : pystr).

Definition requests_get (net : pystr -> http_result) (url : pystr) : M pystr :=
  match net url with
  | Response _ text => ret text
  | Failure c m => raise c m
  end.

(** The module's global names: [import json, sys, requests] binds three
    modules and no exception class. *)
Definition globals : list (string * (exc_class -> bool)) := [].

Definition metric (net : pystr -> http_result) (pod : pyval) : M unit :=
  status <- item pod "status" ;;
  ip <- item status "podIP" ;;
  try_except
    (response <- requests_get net (lit "http://" ++ py_str ip ++ lit ":5000/metric") ;;
     write_out response)
    [(load_exc_name globals "HTTPError",
      fun http_err =>
        _ <- write_err (lit "HTTP error occurred: " ++ exc_str http_err) ;; sys_exit 1);
     (load_exc_name globals "Exception",
      fun err =>
        _ <- write_err (lit "Other error occurred: " ++ exc_str err) ;; sys_exit 1)].

Definition main (net : pystr -> http_result) (stdin : pystr) : M unit :=
  pod <- json_loads (PStr stdin) ;; metric net pod.

End RemoteProbe.

(** [post-scale-hook/post_scale.py]. *)
Module PostScale.

Definition data_path : pystr := lit "/post_scale_data.json".

Fixpoint file_set (fs : list (pystr * pystr)) (p c : pystr) : list (pystr * pystr) :=
  match fs with
  | [] => [(p, c)]
  | (p', c') :: fs' =>
      if list_eq_dec Z.eq_dec p p' then (p', c) :: fs' else (p', c') :: file_set fs' p c
  end.

Fixpoint file_get (fs : list (pystr * pystr)) (p : pystr) : option pystr :=
  match fs with
  | [] => None
  | (p', c) :: fs' => if list_eq_dec Z.eq_dec p p' then Some c else file_get fs' p
  end.

(** [open(p, "w+")] creates the file or truncates it. *)
Definition open_truncate (p : pystr) : M unit :=
  fun st => (Ok tt, mkIO (io_out st) (io_err st) (file_set (io_files st) p [])).

(** [file.write(s)] appends at the position of the file, its end here. *)
Definition file_write (p s : pystr) : M unit :=
  fun st =>
    let c := match file_get (io_files st) p with Some c => c | None => [] end in
    (Ok tt, mkIO (io_out st) (io_err st) (file_set (io_files st) p (c ++ s))).

Definition main (stdin : pystr) : M unit :=
  (* Parse scale info JSON into a dict *)
  scale_info <- json_loads (PStr stdin) ;;
  _ <- open_truncate data_path ;;
  file_write data_path (dumps scale_info).

End PostScale.


(** [downscale-stabilization/metric.py]: the remote probe of
    [python/metric.py], with the pod status read from the [resource] field
    of the spec.  The module imports the same three modules, so it binds no
    exception class either. *)
Module DownscaleStabilization.

Definition globals : list (string * (exc_class -> bool)) := [].

Definition metric (net : pystr -> RemoteProbe.http_result) (spec : pyval) : M unit :=
  (* Get Pod IP *)
  resource <- item spec "resource" ;;
  status <- item resource "status" ;;
  ip <- item status "podIP" ;;
  try_except
    ((* Make request to Pod metric endpoint *)
     response <- RemoteProbe.requests_get net (lit "http://" ++ py_str ip ++ lit ":5000/metric") ;;
     (* Output whatever metrics are gathered to stdout *)
     write_out response)
    [(load_exc_name globals "HTTPError",
      fun http_err =>
        _ <- write_err (lit "HTTP error occurred: " ++ exc_str http_err) ;; sys_exit 1);
     (load_exc_name globals "Exception",
      fun err =>
        _ <- write_err (lit "Other error occurred: " ++ exc_str err) ;; sys_exit 1)].

Definition main (net : pystr -> RemoteProbe.http_result) (stdin : pystr) : M unit :=
  (* Parse JSON into a dict *)
  spec <- json_loads (PStr stdin) ;; metric net spec.

End DownscaleStabilization.

(** [python/app/api.py]: the Flask application the remote probe polls.
    Its state is the module global [global_metric]; each view function
    reads it, may update it, and either returns a body (sent with status
    200) or calls [abort].  Requests are taken one at a time. *)
Module MetricApp.

Definition MAX_METRIC : Z := 5.
Definition MIN_METRIC : Z := 0.
Definition global_metric_init : Z := 0.

Inductive reply : Type :=
| Body (text : pystr)
| Abort (code : Z) (description : pystr).

(** The body every view returns. *)
Definition snapshot (global_metric : Z) : pystr :=
  dumps (PDict [(lit "value", PInt global_metric);
                (lit "available", PInt (MAX_METRIC - global_metric));
                (lit "min", PInt MIN_METRIC);
                (lit "max", PInt MAX_METRIC)]).

(** [GET /metric]. *)
Definition metric (global_metric : Z) : reply * Z :=
  (Body (snapshot global_metric), global_metric).

(** [POST /increment]. *)
Definition increment (global_metric : Z) : reply * Z :=
  if global_metric >=? MAX_METRIC then
    (Abort 400 (lit "Metric cannot be incremented beyond " ++ int_repr MAX_METRIC), global_metric)
  else
    let global_metric := global_metric + 1 in
    (Body (snapshot global_metric), global_metric).

(** [POST /decrement]. *)
Definition decrement (global_metric : Z) : reply * Z :=
  if global_metric <=? MIN_METRIC then
    (Abort 400 (lit "Metric cannot be decremented below " ++ int_repr MIN_METRIC), global_metric)
  else
    let global_metric := global_metric - 1 in
    (Body (snapshot global_metric), global_metric).

(** The three routes with their methods. *)
Inductive request : Type := GetMetric | PostIncrement | PostDecrement.

Definition route (r : request) : Z -> reply * Z :=
  match r with
  | GetMetric => metric
  | PostIncrement => increment
  | PostDecrement => decrement
  end.

(** A sequence of requests, from a given value of [global_metric]. *)
Fixpoint serve (global_metric : Z) (rs : list request) : list reply * Z :=
  match rs with
  | [] => ([], global_metric)
  | r :: rs' =>
      let (rep, g) := route r global_metric in
      let (reps, g') := serve g rs' in
      (rep :: reps, g')
  end.

End MetricApp.

(** [scale-on-tweet/metric.py].  The process environment is an association
    list; the search of the Twitter API is a parameter giving, for a raw
    query, the texts of the tweets it returns. *)
Module TweetMetric.

(* Twitter auth environment variable keys *)
Definition CONSUMER_KEY_ENV : string := "consumerKey".
Definition CONSUMER_SECRET_ENV : string := "consumerSecret".
Definition ACCESS_TOKEN_ENV : string := "accessToken".
Definition ACCESS_TOKEN_SECRET_ENV : string := "accessTokenSecret".
(* Hashtag environment variable key *)
Definition HASHTAG_ENV : string := "hashtag".

Fixpoint env_lookup (env : list (pystr * pystr)) (k : pystr) : option pystr :=
  match env with
  | [] => None
  | (k', v) :: env' => if list_eq_dec Z.eq_dec k k' then Some v else env_lookup env' k
  end.

(** [os.environ[key]]. *)
Definition environ_get (env : list (pystr * pystr)) (key : string) : M pystr :=
  match env_lookup env (lit key) with
  | Some v => ret v
  | None => raise KeyError ([39] ++ lit key ++ [39])
  end.

(** The two emoji the script looks for, U+1F44D and U+1F44E. *)
Definition thumbs_up : pystr := [128077].
Definition thumbs_down : pystr := [128078].

(** The body of the counting loop. *)
Definition count_tweet (text : pystr) (counts : Z * Z) : M (Z * Z) :=
  let '(num_up, num_down) := counts in
  up <- py_contains_str (PStr text) thumbs_up ;;
  if up then ret (num_up + 1, num_down)
  else
    down <- py_contains_str (PStr text) thumbs_down ;;
    if down then ret (num_up, num_down + 1)
    else ret (num_up, num_down).

Definition main (env : list (pystr * pystr)) (search : pystr -> list pystr) : M unit :=
  (* Load twitter auth *)
  _consumer_key <- environ_get env CONSUMER_KEY_ENV ;;
  _consumer_secret <- environ_get env CONSUMER_SECRET_ENV ;;
  _access_token <- environ_get env ACCESS_TOKEN_ENV ;;
  _access_token_secret <- environ_get env ACCESS_TOKEN_SECRET_ENV ;;
  (* Load watched hashtag *)
  hashtag <- environ_get env HASHTAG_ENV ;;
  (* Get tweets with hashtag *)
  let tweets := search (lit "q=%23" ++ hashtag ++ lit "&result_type=recent&count=100") in
  (* Count number of thumbs up and thumbs down *)
  counts <- for_acc tweets (0, 0) count_tweet ;;
  let '(num_up, num_down) := counts in
  (* Output number of thumbs up and down *)
  write_out (dumps (PDict [(lit "up", PInt num_up); (lit "down", PInt num_down)])).

End TweetMetric.


(** * Reasoning about the scripts *)

(** [v[key]] on a dictionary, as a partial function. *)
Definition get (v : pyval) (key : string) : option pyval :=
  match v with
  | PDict kvs => dict_get kvs (lit key)
  | _ => None
  end.

Lemma bind_ok {A B} (m : M A) (k : A -> M B) st a st' :
  m st = (Ok a, st') -> bind m k st = k a st'.
Proof. intros H; unfold bind; rewrite H; reflexivity. Qed.

Lemma bind_exn {A B} (m : M A) (k : A -> M B) st e st' :
  m st = (Exn e, st') -> bind m k st = (Exn e, st').
Proof. intros H; unfold bind; rewrite H; reflexivity. Qed.

Lemma ret_run {A} (a : A) st : ret a st = (Ok a, st).
Proof. reflexivity. Qed.

Lemma item_get v key x st : get v key = Some x -> item v key st = (Ok x, st).
Proof.
  destruct v; try discriminate; simpl; intros H.
  unfold item, py_getitem; rewrite H; reflexivity.
Qed.

Lemma py_int_ok v z st : int_value v = Some z -> py_int v st = (Ok z, st).
Proof. intros H; unfold py_int; rewrite H; reflexivity. Qed.

Lemma json_loads_ok s x st : loads_text s = Some x -> json_loads (PStr s) st = (Ok x, st).
Proof.
  unfold loads_text, json_loads; destruct (loads_result s); intros H;
    inversion H; reflexivity.
Qed.

Lemma py_iter_list l st : py_iter (PList l) st = (Ok l, st).
Proof. reflexivity. Qed.

Lemma py_items_dict kvs st : py_items (PDict kvs) st = (Ok kvs, st).
Proof. reflexivity. Qed.

Create HintDb pyrun.
#[export] Hint Resolve item_get py_int_ok json_loads_ok py_iter_list py_items_dict ret_run : pyrun.
#[export] Hint Extern 5 (_ = _) => reflexivity : pyrun.

(** Run the first statement of a script whose outcome the hypotheses fix. *)
Ltac step := erewrite bind_ok by eauto with pyrun.

Definition sum (xs : list Z) : Z := fold_right Z.add 0 xs.

(** The document an evaluator writes for a target replica count. *)
Definition evaluation_doc (key : string) (t : Z) : pystr :=
  dumps (PDict [(lit key, PInt t)]).

(** A metric entry of [simple-pod-metrics-python/evaluate.py] whose
    string-encoded value is a JSON object with an integer [available]
    field [a]. *)
Definition available_entry (metric : pyval) (a : Z) : Prop :=
  exists s j, get metric "value" = Some (PStr s) /\ loads_text s = Some j
              /\ get j "available" = Some (PInt a).

Lemma count_available_ok metric a acc st :
  available_entry metric a ->
  SimplePodMetrics.count_available metric acc st = (Ok (acc + a), st).
Proof.
  intros (s & j & Hv & Hl & Ha); unfold SimplePodMetrics.count_available.
  do 4 step; reflexivity.
Qed.

Lemma count_available_loop entries avail acc st :
  Forall2 available_entry entries avail ->
  for_acc entries acc SimplePodMetrics.count_available st
  = (Ok (acc + sum avail), st).
Proof.
  intros H; revert acc; induction H as [|m a entries avail Hm _ IH]; intros acc.
  - unfold sum; simpl fold_right; rewrite Z.add_0_r; reflexivity.
  - simpl for_acc; erewrite bind_ok by (apply count_available_ok; eassumption).
    rewrite IH; unfold sum; simpl fold_right; do 2 f_equal; lia.
Qed.

(** The whole run of [simple-pod-metrics-python/evaluate.py]. *)
Lemma simple_evaluate_run spec entries avail resource rstatus baseline :
  get spec "metrics" = Some (PList entries) ->
  Forall2 available_entry entries avail ->
  get spec "resource" = Some resource ->
  get resource "status" = Some rstatus ->
  get rstatus "replicas" = Some (PInt baseline) ->
  run (SimplePodMetrics.evaluate spec)
  = mkOutcome (evaluation_doc "targetReplicas"
                 (let t := if sum avail >? 5 then baseline - 1 else baseline in
                  if sum avail <=? 0 then t + 1 else t)) [] 0 [].
Proof.
  intros Hm Hl Hr Hs Hb; unfold run, run_with, SimplePodMetrics.evaluate.
  do 2 step.
  erewrite bind_ok by (apply count_available_loop; eassumption).
  do 4 step.
  rewrite Z.add_0_l; reflexivity.
Qed.

(** ** C1: the hysteresis band of [simple-pod-metrics-python/evaluate.py]

    For every evaluation input whose metric entries carry string-encoded
    JSON values each with an integer [available] field, with
    [totalAvailable] the sum of these fields and [baseline] the replica
    count read from [resource.status.replicas], the evaluator succeeds and
    writes [targetReplicas = baseline - 1] when [totalAvailable > 5],
    [baseline + 1] when [totalAvailable <= 0], and [baseline] otherwise; in
    particular [totalAvailable = 5] leaves the target unchanged and
    [totalAvailable = 0] increments it. *)
Theorem hysteresis_band :
  forall (spec : pyval) (entries : list pyval) (avail : list Z)
         (resource rstatus : pyval) (baseline : Z),
    get spec "metrics" = Some (PList entries) ->
    Forall2 available_entry entries avail ->
    get spec "resource" = Some resource ->
    get resource "status" = Some rstatus ->
    get rstatus "replicas" = Some (PInt baseline) ->
    let o := run (SimplePodMetrics.evaluate spec) in
    err o = [] /\ status o = 0 /\
    (sum avail > 5 -> out o = evaluation_doc "targetReplicas" (baseline - 1)) /\
    (sum avail <= 0 -> out o = evaluation_doc "targetReplicas" (baseline + 1)) /\
    (0 < sum avail <= 5 -> out o = evaluation_doc "targetReplicas" baseline) /\
    (sum avail = 5 -> out o = evaluation_doc "targetReplicas" baseline) /\
    (sum avail = 0 -> out o = evaluation_doc "targetReplicas" (baseline + 1)).
Proof.
  intros spec entries avail resource rstatus baseline Hm Hl Hr Hs Hb o.
  subst o; rewrite (simple_evaluate_run spec entries avail resource rstatus baseline)
    by assumption.
  cbn [err status out].
  repeat split; intros H;
    repeat match goal with
           | |- context [?a >? ?b] => destruct (Z.gtb_spec a b)
           | |- context [?a <=? ?b] => destruct (Z.leb_spec a b)
           end; try lia; f_equal; lia.
Qed.

Definition c1_entries : list pyval :=
  [PDict [(lit "resource", PStr (lit "flask-metric-869879868f-jgbg4"));
          (lit "value", PStr (jtext "{'value': 0, 'available': 5, 'min': 0, 'max': 5}"))];
   PDict [(lit "resource", PStr (lit "flask-metric-869879868f-2cslm"));
          (lit "value", PStr (jtext "{'value': 5, 'available': 0, 'min': 0, 'max': 5}"))]].

Definition c1_input : pyval :=
  PDict [(lit "metrics", PList c1_entries);
         (lit "resource", PDict [(lit "status", PDict [(lit "replicas", PInt 2)])]);
         (lit "runType", PStr (lit "api"))].

Lemma hysteresis_band_witness :
  let o := run (SimplePodMetrics.evaluate c1_input) in
  err o = [] /\ status o = 0 /\
  (sum [5; 0] > 5 -> out o = evaluation_doc "targetReplicas" (2 - 1)) /\
  (sum [5; 0] <= 0 -> out o = evaluation_doc "targetReplicas" (2 + 1)) /\
  (0 < sum [5; 0] <= 5 -> out o = evaluation_doc "targetReplicas" 2) /\
  (sum [5; 0] = 5 -> out o = evaluation_doc "targetReplicas" 2) /\
  (sum [5; 0] = 0 -> out o = evaluation_doc "targetReplicas" (2 + 1)).
Proof.
  apply (hysteresis_band c1_input c1_entries [5; 0] (PDict [(lit "status", PDict [(lit "replicas", PInt 2)])])
           (PDict [(lit "replicas", PInt 2)]) 2);
    try reflexivity.
  unfold c1_entries; repeat apply Forall2_cons; try apply Forall2_nil.
  all: unfold available_entry; do 2 eexists; repeat split; reflexivity.
Defined.

(** ** C3: the baseline of the hysteresis evaluators *)

(** A metric entry of [python/evaluate.py] that the counting loop accepts:
    it has a [pod] key and an [available] value [int()] converts to [a]. *)
Definition python_entry (metric : pyval) (a : Z) : Prop :=
  (exists p, get metric "pod" = Some p)
  /\ exists v, get metric "available" = Some v /\ int_value v = Some a.

Lemma python_count_ok metric a acc st :
  python_entry metric a ->
  PythonExample.count_available metric acc st = (Ok (acc + a), st).
Proof.
  intros ((p & Hp) & v & Hv & Ha); unfold PythonExample.count_available.
  do 3 step; reflexivity.
Qed.

Lemma python_count_loop entries avail acc st :
  Forall2 python_entry entries avail ->
  for_acc entries acc PythonExample.count_available st = (Ok (acc + sum avail), st).
Proof.
  intros H; revert acc; induction H as [|m a entries avail Hm _ IH]; intros acc.
  - unfold sum; simpl fold_right; rewrite Z.add_0_r; reflexivity.
  - simpl for_acc; erewrite bind_ok by (apply python_count_ok; eassumption).
    rewrite IH; unfold sum; simpl fold_right; do 2 f_equal; lia.
Qed.

Definition unbound_target : exc :=
  Exc UnboundLocalError
      (lit "cannot access local variable 'target_replica_count' where it is not associated with a value")
      None.

(** C3 (code defect): [python/evaluate.py] never gives its baseline
    [target_replica_count] a value: on every input its counting loop
    accepts, whatever [totalAvailable] is, the evaluator reads the unbound
    local and dies with [UnboundLocalError] (exit status 1, nothing on
    standard output) instead of adjusting a baseline. *)
Theorem python_evaluate_reads_unbound_baseline :
  forall (entries : list pyval) (avail : list Z),
    Forall2 python_entry entries avail ->
    run (PythonExample.evaluate (PList entries))
    = mkOutcome [] (traceback unbound_target) 1 [].
Proof.
  intros entries avail H; unfold run, run_with, PythonExample.evaluate.
  step.
  erewrite bind_ok by (apply python_count_loop; eassumption).
  destruct (0 + sum avail >? 5); destruct (0 + sum avail <=? 0); reflexivity.
Qed.

(** The failing input: the empty metric list, [totalAvailable = 0]. *)
Lemma python_evaluate_reads_unbound_baseline_witness :
  Forall2 python_entry [] []
  /\ run (PythonExample.evaluate (PList [])) = mkOutcome [] (traceback unbound_target) 1 [].
Proof.
  split; [constructor | apply (python_evaluate_reads_unbound_baseline [] []); constructor].
Defined.

(** ** C5: the key of the evaluation document *)

Definition c5_input : pyval :=
  PList [PDict [(lit "resource", PStr (lit "hello-kubernetes"));
                (lit "value", PStr (jtext "{'up': 3,'down': 2}"))]].

(** C5 (code defect): [scale-on-tweet/evaluate.py] succeeds on its own
    documented input and writes the key [target_replicas], not
    [targetReplicas]. *)
Theorem scale_on_tweet_key_is_snake_case :
  run (ScaleOnTweet.evaluate c5_input)
  = mkOutcome (jtext "{'target_replicas': 1}") [] 0 [].
Proof. vm_compute; reflexivity. Qed.

(** ** C6: the ratio evaluator of [scale-on-tweet/evaluate.py] *)

(** A metric entry whose string-encoded JSON value has fields [up] and
    [down] that [int()] converts to [up] and [down]. *)
Definition ratio_entry (metric : pyval) (up down : Z) : Prop :=
  exists s j u d,
    get metric "value" = Some (PStr s) /\ loads_text s = Some j
    /\ get j "up" = Some u /\ int_value u = Some up
    /\ get j "down" = Some d /\ int_value d = Some down.

(** C6: on an input made of exactly one such entry the evaluator succeeds
    and its target replica count is [up - down], with no baseline and no
    clamping: zero and negative counts are written as they are.  (The key it
    writes them under is [target_replicas], see C5.) *)
Theorem ratio_evaluator_up_minus_down :
  forall (metric : pyval) (up down : Z),
    ratio_entry metric up down ->
    run (ScaleOnTweet.evaluate (PList [metric]))
    = mkOutcome (evaluation_doc "target_replicas" (up - down)) [] 0 [].
Proof.
  intros metric up down (s & j & u & d & Hv & Hl & Hu & Hiu & Hd & Hid).
  unfold run, run_with, ScaleOnTweet.evaluate.
  do 9 step; reflexivity.
Qed.

Definition c6_metric : pyval :=
  PDict [(lit "resource", PStr (lit "hello-kubernetes"));
         (lit "value", PStr (jtext "{'up': 3, 'down': 5}"))].

(** [up = 3], [down = 5]: the evaluator asks for [-2] replicas. *)
Lemma ratio_evaluator_up_minus_down_witness :
  ratio_entry c6_metric 3 5
  /\ run (ScaleOnTweet.evaluate (PList [c6_metric]))
     = mkOutcome (evaluation_doc "target_replicas" (-2)) [] 0 [].
Proof.
  assert (H : ratio_entry c6_metric 3 5)
    by (unfold ratio_entry; do 4 eexists; repeat split; reflexivity).
  split; [exact H | apply (ratio_evaluator_up_minus_down c6_metric 3 5 H)].
Defined.

(** ** C7: the direct-multiplier evaluator of [python-custom-autoscaler/evaluate.py] *)

Lemma py_int_str_none s st :
  int_of_str s = None ->
  py_int (PStr s) st
  = (Exn (Exc ValueError (lit "invalid literal for int() with base 10: " ++ firstn 200 (str_repr s)) None), st).
Proof. intros H; unfold py_int; simpl; rewrite H; reflexivity. Qed.

(** C7: when the first metric value is a string [s], the evaluator writes
    [{"targetReplicas": v * 2}] and exits 0 if [int(s)] is [v]; if [s] is
    not integer-parseable it writes the [ValueError] text after the prefix
    [Invalid metric value: ] to standard error (the text shows [repr(s)]
    cut to 200 characters), nothing to standard output, and exits with
    status 1.  The two outcomes are exhaustive and differ in
    the exit status, so this is an "iff". *)
Theorem direct_multiplier :
  forall (spec rm m0 : pyval) (rest : list pyval) (s : pystr),
    get spec "resourceMetrics" = Some rm ->
    get rm "metrics" = Some (PList (m0 :: rest)) ->
    get m0 "value" = Some (PStr s) ->
    (forall v, int_of_str s = Some v ->
       run (CustomAutoscaler.evaluate spec)
       = mkOutcome (evaluation_doc "targetReplicas" (v * 2)) [] 0 [])
    /\ (int_of_str s = None ->
       run (CustomAutoscaler.evaluate spec)
       = mkOutcome []
           (lit "Invalid metric value: invalid literal for int() with base 10: "
            ++ firstn 200 (str_repr s))
           1 []).
Proof.
  intros spec rm m0 rest s Hrm Hms Hv; split.
  - intros v Hs; unfold run, run_with, CustomAutoscaler.evaluate, try_except.
    do 4 step.
    erewrite bind_ok by (apply py_int_ok; exact Hs).
    reflexivity.
  - intros Hs; unfold run, run_with, CustomAutoscaler.evaluate, try_except.
    do 4 step.
    erewrite bind_exn by (apply py_int_str_none; exact Hs).
    reflexivity.
Qed.

Definition c7_input (s : string) : pyval :=
  PDict [(lit "resourceMetrics",
          PDict [(lit "metrics",
                  PList [PDict [(lit "resource", PStr (lit "flask-metric"));
                                (lit "value", PStr (lit s))]])])].

(** The value ["3"] gives [{"targetReplicas": 6}]. *)
Lemma direct_multiplier_witness :
  run (CustomAutoscaler.evaluate (c7_input "3"))
  = mkOutcome (jtext "{'targetReplicas': 6}") [] 0 [].
Proof.
  apply (proj1 (direct_multiplier (c7_input "3") _ _ [] (lit "3")
                  eq_refl eq_refl eq_refl) 3 eq_refl).
Defined.

(** The value ["abc"] gives exit status 1. *)
Example direct_multiplier_abc :
  status (run (CustomAutoscaler.evaluate (c7_input "abc"))) = 1.
Proof. vm_compute; reflexivity. Qed.

(** ** C8: the [numPods] label of [zero-scaler/metric.py] *)

(** C8: when the resource's labels have no [numPods] key the collector
    writes a message to standard error, nothing to standard output, and
    exits with status 1; when the label is there (label values are
    strings), its value is written verbatim to standard output. *)
Theorem num_pods_label :
  forall (spec resource metadata : pyval) (kvs : list (pystr * pyval)),
    get spec "resource" = Some resource ->
    get resource "metadata" = Some metadata ->
    get metadata "labels" = Some (PDict kvs) ->
    (dict_get kvs (lit "numPods") = None ->
       run (ZeroScaler.metric spec)
       = mkOutcome [] (lit "No 'numPods' label on resource being managed") 1 [])
    /\ (forall v, dict_get kvs (lit "numPods") = Some (PStr v) ->
       run (ZeroScaler.metric spec) = mkOutcome v [] 0 []).
Proof.
  intros spec resource metadata kvs Hr Hm Hl; split.
  - intros Hn; unfold run, run_with, ZeroScaler.metric.
    do 4 step; rewrite Hn; reflexivity.
  - intros v Hn; unfold run, run_with, ZeroScaler.metric.
    do 4 step; rewrite Hn.
    erewrite bind_ok by (apply item_get; exact Hn).
    reflexivity.
Qed.

Definition c8_input (labels : list (pystr * pyval)) : pyval :=
  PDict [(lit "resource", PDict [(lit "metadata", PDict [(lit "labels", PDict labels)])])].

Lemma num_pods_label_witness :
  run (ZeroScaler.metric (c8_input [(lit "app", PStr (lit "hello"))]))
  = mkOutcome [] (lit "No 'numPods' label on resource being managed") 1 []
  /\ run (ZeroScaler.metric (c8_input [(lit "numPods", PStr (lit "3"))]))
     = mkOutcome (lit "3") [] 0 [].
Proof.
  split.
  - apply (proj1 (num_pods_label (c8_input [(lit "app", PStr (lit "hello"))]) _ _ _
                    eq_refl eq_refl eq_refl) eq_refl).
  - apply (proj2 (num_pods_label (c8_input [(lit "numPods", PStr (lit "3"))]) _ _ _
                    eq_refl eq_refl eq_refl) (lit "3") eq_refl).
Defined.

(** ** C2 and C10: the CPU utilisation collector *)

(** An input of [cpu/metric.py]: the first Kubernetes metric reports
    [current_replicas = cr] and a pod mapping whose [Value] fields are the
    integers [vals], in mapping order. *)
Definition cpu_input (spec : pyval) (cr : Z) (vals : list Z) : Prop :=
  exists cm rest res pods,
    get spec "kubernetesMetrics" = Some (PList (cm :: rest))
    /\ get cm "current_replicas" = Some (PInt cr)
    /\ get cm "resource" = Some res
    /\ get res "pod_metrics_info" = Some (PDict pods)
    /\ Forall2 (fun pod v => get (snd pod) "Value" = Some (PInt v)) pods vals.

(** The text written for the average: the integer division [sum / cr],
    rounded once to the nearest float. *)
Definition average_doc (cr : Z) (vals : list Z) : pystr :=
  dumps (PDict [(lit "current_replicas", PInt cr);
                (lit "average_utilization", PFloat (int_truediv (sum vals) cr))]).

Definition zero_division : exc := Exc ZeroDivisionError (lit "division by zero") None.

Definition float_overflow : exc :=
  Exc OverflowError (lit "integer division result too large for a float") None.

Lemma cpu_sum_loop pods vals acc st :
  Forall2 (fun pod v => get (snd pod) "Value" = Some (PInt v)) pods vals ->
  for_acc pods (PInt acc) CpuMetric.add_utilization st = (Ok (PInt (acc + sum vals)), st).
Proof.
  intros H; revert acc; induction H as [|p v pods vals Hp _ IH]; intros acc.
  - unfold sum; simpl fold_right; rewrite Z.add_0_r; reflexivity.
  - simpl for_acc.
    erewrite bind_ok
      by (unfold CpuMetric.add_utilization; erewrite bind_ok by (apply item_get; exact Hp);
          reflexivity).
    rewrite IH; unfold sum; simpl fold_right; do 3 f_equal; lia.
Qed.

(** The whole run of the collector: a zero divisor, a quotient beyond the
    largest float, or the average. *)
Lemma cpu_metric_run spec cr vals :
  cpu_input spec cr vals ->
  run (CpuMetric.metric spec)
  = if cr =? 0 then mkOutcome [] (traceback zero_division) 1 []
    else if b64_is_inf (int_truediv (sum vals) cr) then mkOutcome [] (traceback float_overflow) 1 []
    else mkOutcome (average_doc cr vals) [] 0 [].
Proof.
  intros (cm & rest & res & pods & Hk & Hc & Hr & Hp & Hv).
  unfold run, run_with, CpuMetric.metric.
  do 6 step.
  erewrite bind_ok by (apply cpu_sum_loop; exact Hv).
  unfold py_truediv; cbv [num_of].
  rewrite Z.add_0_l.
  destruct (cr =? 0); [reflexivity |].
  destruct (b64_is_inf (int_truediv (sum vals) cr)); reflexivity.
Qed.

(** C2: with a non-zero replica count [cr] and a quotient within the range
    of floats, the collector succeeds and reports [average_utilization] =
    (sum of the pods' [Value] fields) / [cr], where [cr] is the request's
    [current_replicas], whatever the number of samples; the division is
    Python's true division of two integers, the exact quotient rounded once
    to the nearest float. *)
Theorem average_is_sum_over_current_replicas :
  forall (spec : pyval) (cr : Z) (vals : list Z),
    cpu_input spec cr vals -> cr <> 0 ->
    b64_is_inf (int_truediv (sum vals) cr) = false ->
    run (CpuMetric.metric spec)
    = mkOutcome (dumps (PDict [(lit "current_replicas", PInt cr);
                               (lit "average_utilization", PFloat (int_truediv (sum vals) cr))]))
                [] 0 [].
Proof.
  intros spec cr vals H Hcr Hfin; rewrite (cpu_metric_run spec cr vals H).
  apply Z.eqb_neq in Hcr; rewrite Hcr, Hfin; reflexivity.
Qed.

(** Pods named [pod-0], [pod-1], ... with the values [vals]. *)
Fixpoint cpu_pods (i : Z) (vals : list Z) : list (pystr * pyval) :=
  match vals with
  | [] => []
  | v :: vals' => (lit "pod-" ++ int_repr i, PDict [(lit "Value", PInt v)]) :: cpu_pods (i + 1) vals'
  end.

Definition cpu_spec (cr : Z) (vals : list Z) : pyval :=
  PDict [(lit "kubernetesMetrics",
          PList [PDict [(lit "current_replicas", PInt cr);
                        (lit "resource",
                         PDict [(lit "pod_metrics_info", PDict (cpu_pods 0 vals))])]])].

Lemma cpu_spec_input cr vals : cpu_input (cpu_spec cr vals) cr vals.
Proof.
  unfold cpu_input, cpu_spec; do 4 eexists; repeat split; try reflexivity.
  generalize 0; induction vals as [|v vals IH]; intros i; simpl; constructor;
    [reflexivity | apply IH].
Qed.

(** [values = [4]], [current_replicas = 1]: the text written is
    [{"current_replicas": 1, "average_utilization": 4.0}]. *)
Lemma average_is_sum_over_current_replicas_witness :
  cpu_input (cpu_spec 1 [4]) 1 [4] /\ 1 <> 0 /\ b64_is_inf (int_truediv (sum [4]) 1) = false
  /\ run (CpuMetric.metric (cpu_spec 1 [4]))
     = mkOutcome (jtext "{'current_replicas': 1, 'average_utilization': 4.0}") [] 0 [].
Proof.
  split; [apply cpu_spec_input | split; [lia | split; [vm_compute; reflexivity |]]].
  rewrite (average_is_sum_over_current_replicas (cpu_spec 1 [4]) 1 [4]
             (cpu_spec_input 1 [4]) ltac:(lia) ltac:(vm_compute; reflexivity)).
  vm_compute; reflexivity.
Defined.

(** C10: the division by [current_replicas] is unguarded: with [cr = 0]
    the collector dies with [ZeroDivisionError] (exit status 1, nothing on
    standard output) instead of producing a reading; with [cr <> 0] that
    error is unreachable: the run either writes the average and exits with
    status 0, or, when the quotient exceeds the largest float, dies with
    [OverflowError]. *)
Theorem division_by_current_replicas_unguarded :
  forall (spec : pyval) (cr : Z) (vals : list Z),
    cpu_input spec cr vals ->
    (cr = 0 -> run (CpuMetric.metric spec) = mkOutcome [] (traceback zero_division) 1 [])
    /\ (cr <> 0 ->
        run (CpuMetric.metric spec) = mkOutcome (average_doc cr vals) [] 0 []
        \/ run (CpuMetric.metric spec) = mkOutcome [] (traceback float_overflow) 1 []).
Proof.
  intros spec cr vals H; rewrite (cpu_metric_run spec cr vals H); split.
  - intros ->; reflexivity.
  - intros Hcr; apply Z.eqb_neq in Hcr; rewrite Hcr.
    destruct (b64_is_inf (int_truediv (sum vals) cr)); [right | left]; reflexivity.
Qed.

(** [cr = 0] with one pod; [cr = 2] with two pods of values 4 and 6, for
    which the first case holds and the document written is the one shown. *)
Lemma division_by_current_replicas_unguarded_witness :
  run (CpuMetric.metric (cpu_spec 0 [4])) = mkOutcome [] (traceback zero_division) 1 []
  /\ (run (CpuMetric.metric (cpu_spec 2 [4; 6])) = mkOutcome (average_doc 2 [4; 6]) [] 0 []
      \/ run (CpuMetric.metric (cpu_spec 2 [4; 6])) = mkOutcome [] (traceback float_overflow) 1 [])
  /\ average_doc 2 [4; 6] = jtext "{'current_replicas': 2, 'average_utilization': 5.0}".
Proof.
  split; [|split].
  - apply (proj1 (division_by_current_replicas_unguarded _ 0 [4] (cpu_spec_input 0 [4])) eq_refl).
  - apply (proj2 (division_by_current_replicas_unguarded _ 2 [4; 6] (cpu_spec_input 2 [4; 6]))).
    lia.
  - vm_compute; reflexivity.
Defined.

(** ** C4: failures of the remote probe of [python/metric.py] *)

Definition name_error_HTTPError (cause : exc) : exc :=
  Exc NameError (lit "name 'HTTPError' is not defined") (Some cause).

Definition probe_url (ip : pyval) : pystr := lit "http://" ++ py_str ip ++ lit ":5000/metric".

(** C4 (code defect): the first [except] clause names [HTTPError], which
    the module never imports.  Whatever exception [requests.get] raises
    (connection refused, timeout, anything else), evaluating that clause
    raises [NameError] while the failure is being handled: the run ends with
    the same uncaught [NameError] traceback (chained to the original
    failure), exit status 1 and empty standard output, and neither the
    [HTTP error occurred: ] nor the [Other error occurred: ] message is
    ever written. *)
Theorem probe_failure_is_name_error :
  forall (net : pystr -> RemoteProbe.http_result) (pod status ip : pyval)
         (c : exc_class) (m : pystr),
    get pod "status" = Some status ->
    get status "podIP" = Some ip ->
    net (probe_url ip) = RemoteProbe.Failure c m ->
    run (RemoteProbe.metric net pod)
    = mkOutcome [] (traceback (name_error_HTTPError (Exc c m None))) 1 [].
Proof.
  intros net pod status ip c m Hs Hip Hnet.
  unfold run, run_with, RemoteProbe.metric.
  do 2 step; unfold try_except.
  erewrite bind_exn
    by (unfold RemoteProbe.requests_get; unfold probe_url in Hnet; rewrite Hnet; reflexivity).
  reflexivity.
Qed.

Definition c4_pod : pyval :=
  PDict [(lit "status", PDict [(lit "podIP", PStr (lit "127.0.0.1"))])].

Definition connection_refused : pystr :=
  lit "HTTPConnectionPool(host='127.0.0.1', port=5000): Max retries exceeded with url: /metric (Caused by NewConnectionError('Failed to establish a new connection: [Errno 111] Connection refused'))".

Definition refusing_net (url : pystr) : RemoteProbe.http_result :=
  RemoteProbe.Failure RequestsConnectionError connection_refused.

(** The failing input: the pod's endpoint refuses the connection.  The
    diagnostic is the [NameError] traceback, not a transport-error report. *)
Lemma probe_failure_is_name_error_witness :
  run (RemoteProbe.metric refusing_net c4_pod)
  = mkOutcome [] (traceback (name_error_HTTPError (Exc RequestsConnectionError connection_refused None))) 1 [].
Proof.
  apply (probe_failure_is_name_error refusing_net c4_pod (PDict [(lit "podIP", PStr (lit "127.0.0.1"))]) (PStr (lit "127.0.0.1")) RequestsConnectionError connection_refused);
    reflexivity.
Defined.

(** * The post-scale hook round trip

    [loads] followed by [dumps] followed by [loads] gives back the parsed
    value.  The definitions below say which values [loads] produces, and
    the lemmas follow the text [dumps] writes through the parser: numbers,
    strings and their escapes, then arrays and objects by induction on the
    value. *)

(** A Unicode scalar value: what a character of text decoded from UTF-8
    can be. *)
Definition scalar (c : Z) : bool :=
  (0 <=? c) && (c <=? 1114111) && negb (is_high c || is_low c).

(** A string [dumps] writes so that [loads] reads it back: code points in
    range, and no high surrogate followed by a low one (their two escapes
    would be read back as one astral character). *)
Fixpoint str_ok (s : pystr) : bool :=
  match s with
  | [] => true
  | c :: s' =>
      (0 <=? c) && (c <=? 1114111)
      && match s' with d :: _ => negb (is_high c && is_low d) | [] => true end
      && str_ok s'
  end.

(** Key membership in a dictionary. *)
Fixpoint key_in (k : pystr) (kvs : list (pystr * pyval)) : bool :=
  match kvs with
  | [] => false
  | (k', _) :: kvs' => if list_eq_dec Z.eq_dec k k' then true else key_in k kvs'
  end.

(** The values [loads] can return: well-formed strings, floats in their
    canonical binary64 form, dictionaries without repeated keys. *)
Fixpoint wf (v : pyval) : bool :=
  match v with
  | PNone | PBool _ | PInt _ => true
  | PFloat x => b64_valid x
  | PStr s => str_ok s
  | PList l => forallb wf l
  | PDict kvs =>
      (fix go (kvs : list (pystr * pyval)) : bool :=
         match kvs with
         | [] => true
         | (k, x) :: kvs' => negb (key_in k kvs') && str_ok k && wf x && go kvs'
         end) kvs
  end.

(** Nesting measure, bounding the recursion depth the parser needs. *)
Fixpoint size (v : pyval) : nat :=
  match v with
  | PList l => S (list_sum (map (fun x => S (size x)) l))
  | PDict kvs => S (list_sum (map (fun kv => S (size (snd kv))) kvs))
  | _ => 1%nat
  end.

Lemma fold_digits xs a :
  fold_left (fun acc d => acc * 10 + (d - 48)) xs a
  = a * 10 ^ Z.of_nat (List.length xs) + digits_value xs.
Proof.
  unfold digits_value; revert a; induction xs as [|x xs IH]; intros a; cbn [fold_left List.length].
  - simpl; lia.
  - rewrite (IH (a * 10 + (x - 48))), (IH (0 * 10 + (x - 48))).
    rewrite Nat2Z.inj_succ, Z.pow_succ_r by lia. ring.
Qed.

Lemma digits_value_app xs ys :
  digits_value (xs ++ ys) = digits_value xs * 10 ^ Z.of_nat (List.length ys) + digits_value ys.
Proof. unfold digits_value at 1; rewrite fold_left_app, fold_digits; reflexivity. Qed.

Lemma digits_rev_digits f n :
  0 <= n -> Forall (fun c => is_digit c = true) (digits_rev f n).
Proof.
  revert n; induction f as [|f IH]; intros n Hn; cbn [digits_rev]; [constructor|].
  destruct (n <? 10) eqn:E.
  - apply Z.ltb_lt in E; constructor; [unfold is_digit; apply andb_true_intro; split; apply Z.leb_le; lia | constructor].
  - constructor.
    + pose proof (Z.mod_pos_bound n 10); unfold is_digit; apply andb_true_intro; split; apply Z.leb_le; lia.
    + apply IH; apply Z.div_pos; lia.
Qed.

Lemma digits_rev_value f n :
  0 <= n < 10 ^ Z.of_nat f -> digits_value (rev (digits_rev f n)) = n.
Proof.
  revert n; induction f as [|f IH]; intros n Hn; cbn [digits_rev rev].
  - simpl in Hn; unfold digits_value; simpl; lia.
  - destruct (n <? 10) eqn:E.
    + unfold digits_value; cbn [fold_left app rev]; lia.
    + apply Z.ltb_ge in E.
      cbn [rev]; rewrite digits_value_app, IH.
      * change (Z.of_nat (List.length [48 + n mod 10])) with 1; rewrite Z.pow_1_r.
        unfold digits_value; cbn [fold_left]. pose proof (Z.div_mod n 10); lia.
      * rewrite Nat2Z.inj_succ, Z.pow_succ_r in Hn by lia.
        split; [apply Z.div_pos; lia | apply Z.div_lt_upper_bound; lia].
Qed.

Lemma digits_rev_length_le f n k :
  0 <= n < 10 ^ k -> 1 <= k -> Z.of_nat (List.length (digits_rev f n)) <= k.
Proof.
  revert n k; induction f as [|f IH]; intros n k Hn Hk; cbn [digits_rev]; [simpl; lia|].
  destruct (n <? 10) eqn:E; cbn [List.length]; [lia|].
  apply Z.ltb_ge in E.
  assert (Hk2 : 2 <= k).
  { destruct (Z.eq_dec k 1); [subst; simpl in Hn; lia | lia]. }
  specialize (IH (n / 10) (k - 1)).
  assert (H10 : 10 ^ k = 10 ^ (k - 1) * 10) by (replace k with (Z.succ (k - 1)) at 1 by lia; rewrite Z.pow_succ_r by lia; ring).
  rewrite Nat2Z.inj_succ.
  enough (Z.of_nat (List.length (digits_rev f (n / 10))) <= k - 1) by lia.
  apply IH; [split; [apply Z.div_pos; lia | apply Z.div_lt_upper_bound; lia] | lia].
Qed.

Lemma digits_rev_pow10 f k :
  (k < f)%nat -> List.length (digits_rev f (10 ^ Z.of_nat k)) = S k.
Proof.
  revert f; induction k as [|k IH]; intros f Hf.
  - destruct f; [lia|]; reflexivity.
  - destruct f as [|f]; [lia|]; cbn [digits_rev].
    rewrite Nat2Z.inj_succ, Z.pow_succ_r by lia.
    assert (H : 10 <= 10 * 10 ^ Z.of_nat k) by (pose proof (Z.pow_pos_nonneg 10 (Z.of_nat k)); lia).
    destruct (10 * 10 ^ Z.of_nat k <? 10) eqn:E; [apply Z.ltb_lt in E; lia|].
    replace (10 * 10 ^ Z.of_nat k / 10) with (10 ^ Z.of_nat k)
      by (rewrite Z.mul_comm, Z.div_mul; lia).
    cbn [List.length]; f_equal; apply IH; lia.
Qed.

Lemma digits_rev_lead f n :
  1 <= n < 10 ^ Z.of_nat f ->
  exists c t, rev (digits_rev f n) = c :: t /\ c <> 48.
Proof.
  revert n; induction f as [|f IH]; intros n Hn; cbn [digits_rev].
  { change (10 ^ Z.of_nat 0) with 1 in Hn; lia. }
  destruct (n <? 10) eqn:E.
  - exists (48 + n), []; cbn [rev app]; split; [reflexivity | lia].
  - apply Z.ltb_ge in E.
    rewrite Nat2Z.inj_succ, Z.pow_succ_r in Hn by lia.
    destruct (IH (n / 10)) as (c & t & Ht & Hc).
    + split; [apply Z.div_le_lower_bound; lia | apply Z.div_lt_upper_bound; lia].
    + cbn [rev]; rewrite Ht; exists c, (t ++ [48 + n mod 10]); split; [reflexivity | exact Hc].
Qed.

Lemma nat_digits_fuel n :
  0 <= n -> n < 10 ^ Z.of_nat (S (Z.to_nat (Z.log2 n))).
Proof.
  intros Hn. pose proof (Z.log2_nonneg n).
  rewrite Nat2Z.inj_succ, Z2Nat.id by lia.
  destruct (Z.eq_dec n 0) as [->|Hn0]; [simpl; lia|].
  destruct (Z.log2_spec n) as [_ H2]; [lia|].
  eapply Z.lt_le_trans; [exact H2|].
  rewrite <- Z.add_1_r; apply Z.pow_le_mono_l; lia.
Qed.

Lemma nat_digits_value n : 0 <= n -> digits_value (nat_digits n) = n.
Proof. intros Hn; apply digits_rev_value; pose proof (nat_digits_fuel n Hn); lia. Qed.

Lemma nat_digits_digits n : 0 <= n -> Forall (fun c => is_digit c = true) (nat_digits n).
Proof. intros Hn; apply Forall_rev, digits_rev_digits; exact Hn. Qed.

Lemma nat_digits_length_le n k :
  0 <= n < 10 ^ k -> 1 <= k -> Z.of_nat (List.length (nat_digits n)) <= k.
Proof. intros; unfold nat_digits; rewrite length_rev; apply digits_rev_length_le; assumption. Qed.

Lemma nat_digits_pow10 k :
  List.length (nat_digits (10 ^ Z.of_nat k)) = S k.
Proof.
  unfold nat_digits; rewrite length_rev; apply digits_rev_pow10.
  enough (Z.of_nat k <= Z.log2 (10 ^ Z.of_nat k)) by lia.
  rewrite <- (Z.log2_pow2 (Z.of_nat k)) at 1 by lia.
  apply Z.log2_le_mono, Z.pow_le_mono_l; lia.
Qed.

Lemma nat_digits_shape n :
  0 <= n ->
  (n = 0 /\ nat_digits n = [48])
  \/ (exists c t, nat_digits n = c :: t /\ c <> 48).
Proof.
  intros Hn; destruct (Z.eq_dec n 0) as [->|Hn0]; [left; split; reflexivity|].
  right; apply digits_rev_lead; pose proof (nat_digits_fuel n Hn); lia.
Qed.

(** What may follow a value in the text [dumps] writes. *)
Definition term_ok (rest : pystr) : Prop :=
  match rest with [] => True | c :: _ => c = 44 \/ c = 93 \/ c = 125 end.

Definition no_digit_head (rest : pystr) : Prop :=
  match rest with [] => True | c :: _ => is_digit c = false end.

Lemma term_no_digit rest : term_ok rest -> no_digit_head rest.
Proof. destruct rest as [|c r]; simpl; [trivial|]; intros [ -> | [ -> | -> ]]; reflexivity. Qed.

Lemma span_digits_app ds rest :
  Forall (fun c => is_digit c = true) ds -> no_digit_head rest ->
  span_digits (ds ++ rest) = (ds, rest).
Proof.
  intros Hds Hr; induction Hds as [|c ds Hc _ IH]; simpl.
  - destruct rest as [|c r]; simpl in *; [reflexivity | rewrite Hr; reflexivity].
  - rewrite Hc, IH; reflexivity.
Qed.


(** A run of decimal digits. *)
Definition digits (ds : pystr) : Prop := Forall (fun c => is_digit c = true) ds.

(** An integer part as JSON writes it: [0], or digits not starting with
    [0]. *)
Definition lead_ok (ip : pystr) : Prop := ip = [48] \/ exists c t, ip = c :: t /\ c <> 48.

Lemma digits_zeros j : digits (repeat 48 j).
Proof. apply Forall_forall; intros x Hx; apply repeat_spec in Hx; subst; reflexivity. Qed.

Lemma digits_split k ds : digits ds -> digits (firstn k ds) /\ digits (skipn k ds).
Proof. intros H; unfold digits in *; rewrite <- (firstn_skipn k ds) in H; apply Forall_app in H; exact H. Qed.

Lemma digits_value_nonneg ds : digits ds -> 0 <= digits_value ds.
Proof.
  induction 1 as [|c ds Hc _ IH]; [reflexivity|].
  change (c :: ds) with ([c] ++ ds); rewrite digits_value_app.
  unfold is_digit in Hc; apply andb_prop in Hc; destruct Hc as [Hc _]; apply Z.leb_le in Hc.
  unfold digits_value at 1; cbn [fold_left].
  pose proof (Z.pow_nonneg 10 (Z.of_nat (List.length ds))); nia.
Qed.

Lemma digits_head ds : digits ds -> lead_ok ds -> exists c t, ds = c :: t /\ is_digit c = true.
Proof.
  intros Hd [-> | (c & t & -> & _)]; [exists 48, []; split; reflexivity|].
  exists c, t; split; [reflexivity | exact (Forall_inv Hd)].
Qed.

Lemma nat_digits_ok n : 0 <= n -> digits (nat_digits n) /\ lead_ok (nat_digits n).
Proof.
  intros Hn; split; [apply nat_digits_digits; exact Hn|].
  destruct (nat_digits_shape n Hn) as [[_ E] | H]; [left; exact E | right; exact H].
Qed.

Lemma int_part_digits ip rest :
  digits ip -> lead_ok ip -> no_digit_head rest ->
  int_part (ip ++ rest) = Some (ip, rest).
Proof.
  intros Hd [-> | (c & t & -> & Hc)] Hr; [reflexivity|].
  pose proof (Forall_inv Hd) as Hc'; cbn beta in Hc'.
  cbn [app int_part].
  replace (c =? 48) with false by (symmetry; apply Z.eqb_neq; exact Hc).
  rewrite Hc'.
  apply f_equal, (span_digits_app (c :: t) rest); [exact Hd | exact Hr].
Qed.

Lemma int_part_nat_digits n rest :
  0 <= n -> no_digit_head rest ->
  int_part (nat_digits n ++ rest) = Some (nat_digits n, rest).
Proof. intros Hn Hr; destruct (nat_digits_ok n Hn); apply int_part_digits; assumption. Qed.

Lemma frac_part_none rest : term_ok rest -> frac_part rest = ([], rest).
Proof.
  destruct rest as [|c [|d r]]; simpl; try reflexivity.
  intros [ -> | [ -> | -> ]]; reflexivity.
Qed.

Lemma exp_part_none rest : term_ok rest -> exp_part rest = (None, rest).
Proof. destruct rest as [|c r]; simpl; [reflexivity|]; intros [ -> | [ -> | -> ]]; reflexivity. Qed.

(** A text that starts with a digit is not read as negative. *)
Lemma sign_digit s :
  (exists c t, s = c :: t /\ is_digit c = true) ->
  match s with c :: t => if c =? 45 then (true, t) else (false, s) | [] => (false, s) end = (false, s).
Proof.
  intros (c & t & -> & Hc).
  unfold is_digit in Hc; apply andb_prop in Hc; destruct Hc as [H1 _]; apply Z.leb_le in H1.
  replace (c =? 45) with false by (symmetry; apply Z.eqb_neq; lia); reflexivity.
Qed.

Lemma digits_app_head ds rest :
  digits ds -> lead_ok ds -> exists c t, ds ++ rest = c :: t /\ is_digit c = true.
Proof.
  intros Hd Hl; destruct (digits_head ds Hd Hl) as (c & t & -> & Hc).
  exists c, (t ++ rest); split; [reflexivity | exact Hc].
Qed.

Lemma parse_int z rest :
  term_ok rest -> parse_number (int_repr z ++ rest) = Some (PInt z, rest).
Proof.
  intros Hr; pose proof (term_no_digit rest Hr) as Hnd.
  unfold int_repr, parse_number.
  destruct (z <? 0) eqn:Ez.
  - apply Z.ltb_lt in Ez; cbn [app]; rewrite Z.eqb_refl; cbv beta iota.
    rewrite int_part_nat_digits by (lia || exact Hnd); cbv beta iota.
    rewrite frac_part_none by exact Hr; cbv beta iota.
    rewrite exp_part_none by exact Hr; cbv beta iota.
    rewrite nat_digits_value by lia; cbn [signed]; do 3 f_equal; lia.
  - apply Z.ltb_ge in Ez.
    destruct (nat_digits_ok z Ez) as [Hd Hl].
    rewrite sign_digit by (apply digits_app_head; assumption); cbv beta iota.
    rewrite int_part_nat_digits by (lia || exact Hnd); cbv beta iota.
    rewrite frac_part_none by exact Hr; cbv beta iota.
    rewrite exp_part_none by exact Hr; cbv beta iota.
    rewrite nat_digits_value by lia; reflexivity.
Qed.

Lemma digits_value_zeros j : digits_value (repeat 48 j) = 0.
Proof.
  induction j as [|j IH]; [reflexivity|].
  change (repeat 48 (S j)) with ([48] ++ repeat 48 j).
  rewrite digits_value_app, IH; reflexivity.
Qed.

Lemma pad_digits_ok k x :
  0 <= x -> digits (pad_digits k x) /\ pad_digits k x <> [] /\ digits_value (pad_digits k x) = x.
Proof.
  intros Hx; unfold pad_digits.
  destruct (nat_digits_ok x Hx) as [Hd Hl].
  destruct (digits_head _ Hd Hl) as (c & t & E & _).
  split; [|split].
  - apply Forall_app; split; [apply digits_zeros | exact Hd].
  - rewrite E; intros H; apply app_eq_nil in H; destruct H; discriminate.
  - rewrite digits_value_app, digits_value_zeros, nat_digits_value by lia; lia.
Qed.

Lemma frac_part_digits f rest :
  f <> [] -> digits f -> no_digit_head rest ->
  frac_part (46 :: f ++ rest) = (f, rest).
Proof.
  intros Hf Hfd Hnd; destruct f as [|d f']; [congruence|].
  pose proof (Forall_inv Hfd) as Hd; cbn beta in Hd.
  cbn [app frac_part]; rewrite Z.eqb_refl, Hd; cbn [andb].
  apply (span_digits_app (d :: f') rest Hfd Hnd).
Qed.

(** The pieces of a float literal as [render] writes them. *)
Definition frac_text (fp : pystr) : pystr := match fp with [] => [] | f => 46 :: f end.

Definition exp_text (ex : option Z) : pystr :=
  match ex with
  | None => []
  | Some x => 101 :: (if x <? 0 then 45 else 43) :: pad_digits 2 (Z.abs x)
  end.

Lemma render_eq t rest :
  render t ++ rest
  = (if nt_neg t then [45] else []) ++ nt_int t ++ frac_text (nt_frac t) ++ exp_text (nt_exp t) ++ rest.
Proof. destruct t as [neg ip [|c f] [x|]]; unfold render; cbn [nt_neg nt_int nt_frac nt_exp]; rewrite <- !app_assoc; reflexivity. Qed.

Lemma exp_digits_ok sign ds rest fb :
  digits ds -> ds <> [] -> no_digit_head rest ->
  exp_digits sign (ds ++ rest) fb = (Some (sign * digits_value ds), rest).
Proof.
  intros Hd Hne Hr; unfold exp_digits; rewrite span_digits_app by assumption.
  destruct ds; [congruence | reflexivity].
Qed.

Lemma exp_part_text ex rest : term_ok rest -> exp_part (exp_text ex ++ rest) = (ex, rest).
Proof.
  intros Hr; destruct ex as [x|]; [|apply exp_part_none; exact Hr].
  destruct (pad_digits_ok 2 (Z.abs x) (Z.abs_nonneg x)) as (Hd & Hne & Hv).
  pose proof (term_no_digit rest Hr) as Hnd.
  unfold exp_text, exp_part; cbn [app].
  change ((101 =? 101) || (101 =? 69)) with true; cbv iota.
  destruct (Z.ltb_spec x 0) as [Hx|Hx]; cbv iota.
  - change (45 =? 43) with false; change (45 =? 45) with true; cbv iota.
    rewrite exp_digits_ok by assumption; rewrite Hv; f_equal; f_equal; lia.
  - change (43 =? 43) with true; cbv iota.
    rewrite exp_digits_ok by assumption; rewrite Hv; f_equal; f_equal; lia.
Qed.

Lemma no_digit_exp ex rest : term_ok rest -> no_digit_head (exp_text ex ++ rest).
Proof. intros Hr; destruct ex; [reflexivity | exact (term_no_digit rest Hr)]. Qed.

Lemma frac_part_text fp ex rest :
  digits fp -> term_ok rest ->
  frac_part (frac_text fp ++ exp_text ex ++ rest) = (fp, exp_text ex ++ rest).
Proof.
  intros Hd Hr; destruct fp as [|c f].
  - destruct ex as [x|]; [reflexivity | apply frac_part_none; exact Hr].
  - apply frac_part_digits; [discriminate | exact Hd | apply no_digit_exp; exact Hr].
Qed.

(** The literals [repr] writes: an integer part as JSON has it, digits
    after the point, and an exponent when there is no fraction. *)
Definition numtext_ok (t : numtext) : Prop :=
  digits (nt_int t) /\ lead_ok (nt_int t) /\ digits (nt_frac t)
  /\ (nt_frac t = [] -> nt_exp t <> None).

Lemma parse_render t rest :
  numtext_ok t -> term_ok rest ->
  parse_number (render t ++ rest) = Some (PFloat (numtext_value t), rest).
Proof.
  intros (Hid & Hil & Hfd & Hfe) Hr.
  rewrite render_eq.
  destruct t as [neg ip fp ex]; cbn [nt_neg nt_int nt_frac nt_exp] in *.
  assert (Hnd : no_digit_head (frac_text fp ++ exp_text ex ++ rest))
    by (destruct fp; [apply no_digit_exp; exact Hr | reflexivity]).
  unfold parse_number.
  destruct neg; cbn [app].
  - rewrite Z.eqb_refl; cbv beta iota.
    rewrite int_part_digits by assumption; cbv beta iota.
    rewrite frac_part_text by assumption; cbv beta iota.
    rewrite exp_part_text by assumption; cbv beta iota.
    destruct fp; [destruct ex; [reflexivity | exfalso; exact (Hfe eq_refl eq_refl)] | reflexivity].
  - rewrite sign_digit by (apply digits_app_head; assumption); cbv beta iota.
    rewrite int_part_digits by assumption; cbv beta iota.
    rewrite frac_part_text by assumption; cbv beta iota.
    rewrite exp_part_text by assumption; cbv beta iota.
    destruct fp; [destruct ex; [reflexivity | exfalso; exact (Hfe eq_refl eq_refl)] | reflexivity].
Qed.

(** ** Rounding

    [round_frac] depends only on the ratio [a / b]: the exponent it picks
    is [floor (log2 (a / b))], and scaling both [a] and [b] scales the
    quotient and remainder it rounds alike. *)

Lemma leb_scale x y k : 0 < k -> (x * k <=? y * k) = (x <=? y).
Proof. intros Hk; destruct (Z.leb_spec (x * k) (y * k)), (Z.leb_spec x y); try reflexivity; nia. Qed.

Lemma ltb_scale x y k : 0 < k -> (x * k <? y * k) = (x <? y).
Proof. intros Hk; destruct (Z.ltb_spec (x * k) (y * k)), (Z.ltb_spec x y); try reflexivity; nia. Qed.

Lemma eqb_scale x y k : 0 < k -> (x * k =? y * k) = (x =? y).
Proof. intros Hk; destruct (Z.eqb_spec (x * k) (y * k)), (Z.eqb_spec x y); try reflexivity; nia. Qed.

Lemma pow2_le_iff k a b N :
  0 <= N -> 0 <= k + N ->
  (pow2_le k a b = true <-> b * 2 ^ (k + N) <= a * 2 ^ N).
Proof.
  intros HN HkN; unfold pow2_le.
  destruct (Z.leb_spec 0 k) as [Hk|Hk]; rewrite Z.leb_le.
  - rewrite Z.pow_add_r, Z.mul_assoc by lia.
    apply Z.mul_le_mono_pos_r, Z.pow_pos_nonneg; lia.
  - assert (E : 2 ^ N = 2 ^ (- k) * 2 ^ (k + N)) by (rewrite <- Z.pow_add_r by lia; f_equal; lia).
    rewrite E, Z.mul_assoc.
    apply Z.mul_le_mono_pos_r, Z.pow_pos_nonneg; lia.
Qed.

Lemma pow2_le_mono j j' a b :
  0 < b -> j <= j' -> pow2_le j' a b = true -> pow2_le j a b = true.
Proof.
  intros Hb Hj H.
  set (N := Z.max 0 (- j)).
  apply (pow2_le_iff j a b N); [lia | lia|].
  apply (pow2_le_iff j' a b N) in H; [|lia|lia].
  eapply Z.le_trans; [|exact H].
  apply Z.mul_le_mono_nonneg_l; [lia|].
  apply Z.pow_le_mono_r; lia.
Qed.

Lemma log2_frac_spec a b :
  0 < a -> 0 < b ->
  pow2_le (log2_frac a b) a b = true /\ pow2_le (log2_frac a b + 1) a b = false.
Proof.
  intros Ha Hb.
  destruct (Z.log2_spec a Ha) as [Ha1 Ha2]; destruct (Z.log2_spec b Hb) as [Hb1 Hb2].
  pose proof (Z.log2_nonneg a) as Hla; pose proof (Z.log2_nonneg b) as Hlb.
  set (la := Z.log2 a) in *; set (lb := Z.log2 b) in *.
  assert (P1 : pow2_le (la - lb - 1) a b = true).
  { apply (pow2_le_iff _ a b (lb + 1)); [lia | lia|].
    replace (la - lb - 1 + (lb + 1)) with la by lia.
    replace (lb + 1) with (Z.succ lb) by lia. nia. }
  assert (P2 : pow2_le (la - lb + 1) a b = false).
  { apply not_true_iff_false; intros H.
    apply (pow2_le_iff _ a b lb) in H; [|lia|lia].
    replace (la - lb + 1 + lb) with (Z.succ la) in H by lia.
    nia. }
  unfold log2_frac; cbv zeta; change (Z.log2 a) with la; change (Z.log2 b) with lb.
  destruct (pow2_le (la - lb) a b) eqn:E.
  - split; [exact E | exact P2].
  - split; [exact P1 | replace (la - lb - 1 + 1) with (la - lb) by lia; exact E].
Qed.

Lemma log2_frac_unique a b r :
  0 < a -> 0 < b -> pow2_le r a b = true -> pow2_le (r + 1) a b = false -> log2_frac a b = r.
Proof.
  intros Ha Hb H1 H2; destruct (log2_frac_spec a b Ha Hb) as [L1 L2].
  destruct (Z.lt_total (log2_frac a b) r) as [Hlt|[Heq|Hgt]]; [|exact Heq|].
  - assert (pow2_le (log2_frac a b + 1) a b = true) by (apply (pow2_le_mono _ r); [exact Hb | lia | exact H1]).
    congruence.
  - assert (pow2_le (r + 1) a b = true) by (apply (pow2_le_mono _ (log2_frac a b)); [exact Hb | lia | exact L1]).
    congruence.
Qed.

Lemma pow2_le_scale j a b k : 0 < k -> pow2_le j (a * k) (b * k) = pow2_le j a b.
Proof.
  intros Hk; unfold pow2_le; destruct (0 <=? j).
  - rewrite <- (leb_scale (b * 2 ^ j) a k) by exact Hk; f_equal; ring.
  - rewrite <- (leb_scale b (a * 2 ^ (- j)) k) by exact Hk; f_equal; ring.
Qed.

Lemma log2_frac_scale a b k :
  0 < a -> 0 < b -> 0 < k -> log2_frac (a * k) (b * k) = log2_frac a b.
Proof.
  intros Ha Hb Hk; destruct (log2_frac_spec a b Ha Hb) as [H1 H2].
  apply log2_frac_unique; try nia; rewrite pow2_le_scale by exact Hk; assumption.
Qed.

(** The rounding step of [round_frac], for the quotient [num / den] at
    the exponent [e]. *)
Definition round_tail (neg : bool) (num den e : Z) : binary64 :=
  let q := num / den in
  let r := num mod den in
  let q' := if (den <? 2 * r) || ((2 * r =? den) && Z.odd q) then q + 1 else q in
  let '(m, e') := if q' =? 2 ^ 53 then (2 ^ 52, e + 1) else (q', e) in
  if m =? 0 then B64Zero neg
  else if 971 <? e' then B64Inf neg
  else B64Fin neg m e'.

Lemma round_frac_tail neg a b :
  round_frac neg a b =
  let e := Z.max (log2_frac a b - 52) (-1074) in
  if 0 <=? e then round_tail neg a (b * 2 ^ e) e else round_tail neg (a * 2 ^ (- e)) b e.
Proof. unfold round_frac; cbv zeta; destruct (0 <=? _); reflexivity. Qed.

Lemma round_tail_scale neg num den e k :
  0 < den -> 0 < k -> round_tail neg (num * k) (den * k) e = round_tail neg num den e.
Proof.
  intros Hd Hk; unfold round_tail.
  rewrite Z.div_mul_cancel_r, Z.mul_mod_distr_r by lia.
  replace (2 * (num mod den * k)) with (2 * (num mod den) * k) by ring.
  rewrite ltb_scale, eqb_scale by exact Hk; reflexivity.
Qed.

Lemma round_frac_scale neg a b k :
  0 < a -> 0 < b -> 0 < k -> round_frac neg (a * k) (b * k) = round_frac neg a b.
Proof.
  intros Ha Hb Hk; rewrite !round_frac_tail, log2_frac_scale by assumption; cbv zeta.
  set (e := Z.max (log2_frac a b - 52) (-1074)).
  destruct (Z.leb_spec 0 e) as [He|He].
  - replace (b * k * 2 ^ e) with (b * 2 ^ e * k) by ring.
    apply round_tail_scale; [apply Z.mul_pos_pos; [exact Hb | apply Z.pow_pos_nonneg; lia] | exact Hk].
  - replace (a * k * 2 ^ (- e)) with (a * 2 ^ (- e) * k) by ring.
    apply round_tail_scale; assumption.
Qed.

(** [round_frac] of [a / b] and of [a' / b'] agree when the two fractions
    are equal. *)
Lemma round_frac_ratio neg a b a' b' :
  0 < a -> 0 < b -> 0 < a' -> 0 < b' -> a * b' = a' * b ->
  round_frac neg a b = round_frac neg a' b'.
Proof.
  intros Ha Hb Ha' Hb' E.
  rewrite <- (round_frac_scale neg a b b'), <- (round_frac_scale neg a' b' b) by assumption.
  rewrite E; f_equal; ring.
Qed.

Lemma valid_fin_iff s m e :
  b64_valid (B64Fin s m e) = true
  <-> (2 ^ 52 <= m < 2 ^ 53 /\ -1074 <= e <= 971) \/ (0 < m < 2 ^ 52 /\ e = -1074).
Proof.
  unfold b64_valid.
  rewrite orb_true_iff, !andb_true_iff, !Z.leb_le, !Z.ltb_lt, Z.eqb_eq; tauto.
Qed.

Lemma round_tail_exact neg m den e :
  0 < den -> 0 < m < 2 ^ 53 -> e <= 971 -> round_tail neg (m * den) den e = B64Fin neg m e.
Proof.
  intros Hd Hm He; unfold round_tail; cbv zeta.
  rewrite Z.div_mul, Z.mod_mul by lia.
  replace (den <? 2 * 0) with false by (symmetry; apply Z.ltb_ge; lia).
  replace (2 * 0 =? den) with false by (symmetry; apply Z.eqb_neq; lia).
  cbn [orb andb].
  replace (m =? 2 ^ 53) with false by (symmetry; apply Z.eqb_neq; lia); cbv iota.
  replace (m =? 0) with false by (symmetry; apply Z.eqb_neq; lia).
  replace (971 <? e) with false by (symmetry; apply Z.ltb_ge; lia).
  reflexivity.
Qed.

(** A valid finite float is the rounding of its own exact value. *)
Lemma round_frac_exact neg m e :
  b64_valid (B64Fin neg m e) = true ->
  round_frac neg (fst (frac_of m e)) (snd (frac_of m e)) = B64Fin neg m e.
Proof.
  intros Hv; apply valid_fin_iff in Hv.
  assert (Hm : 0 < m < 2 ^ 53) by (assert (0 < 2 ^ 52 < 2 ^ 53) by (split; reflexivity); lia).
  destruct (Z.log2_spec m ltac:(lia)) as [Hl1 Hl2].
  pose proof (Z.log2_nonneg m) as Hlm0.
  set (lm := Z.log2 m) in *.
  assert (Hlm : (lm = 52 /\ -1074 <= e <= 971) \/ (lm < 52 /\ e = -1074)).
  { destruct Hv as [[Hn He]|[Hs He]].
    - left; split; [|exact He]; apply Z.log2_unique; [lia | exact (conj (proj1 Hn) (proj2 Hn))].
    - right; split; [apply Z.log2_lt_pow2; lia | exact He]. }
  assert (HL : log2_frac (fst (frac_of m e)) (snd (frac_of m e)) = lm + e).
  { unfold frac_of; destruct (Z.leb_spec 0 e) as [He|He]; cbn [fst snd].
    - apply log2_frac_unique.
      + apply Z.mul_pos_pos; [lia | apply Z.pow_pos_nonneg; lia].
      + lia.
      + apply (pow2_le_iff _ _ _ 0); [lia | lia|].
        rewrite Z.add_0_r, Z.pow_add_r by lia. nia.
      + apply not_true_iff_false; intros Hc.
        apply (pow2_le_iff _ _ _ 0) in Hc; [|lia|lia].
        rewrite Z.add_0_r in Hc; replace (lm + e + 1) with (Z.succ lm + e) in Hc by lia.
        rewrite Z.pow_add_r in Hc by lia. pose proof (Z.pow_pos_nonneg 2 e ltac:(lia)). nia.
    - apply log2_frac_unique.
      + lia.
      + apply Z.pow_pos_nonneg; lia.
      + apply (pow2_le_iff _ _ _ (- e)); [lia | lia|].
        replace (lm + e + - e) with lm by lia.
        pose proof (Z.pow_pos_nonneg 2 (- e) ltac:(lia)). nia.
      + apply not_true_iff_false; intros Hc.
        apply (pow2_le_iff _ _ _ (- e)) in Hc; [|lia|lia].
        replace (lm + e + 1 + - e) with (Z.succ lm) in Hc by lia.
        pose proof (Z.pow_pos_nonneg 2 (- e) ltac:(lia)). nia. }
  rewrite round_frac_tail, HL; cbv zeta.
  replace (Z.max (lm + e - 52) (-1074)) with e by lia.
  assert (He971 : e <= 971) by lia.
  unfold frac_of; destruct (Z.leb_spec 0 e) as [He|He]; cbn [fst snd].
  - rewrite Z.mul_1_l; apply round_tail_exact; [apply Z.pow_pos_nonneg | |]; lia.
  - apply round_tail_exact; [apply Z.pow_pos_nonneg | |]; lia.
Qed.

Ltac zbool :=
  repeat match goal with
  | H : (_ =? _) = true |- _ => apply Z.eqb_eq in H
  | H : (_ =? _) = false |- _ => apply Z.eqb_neq in H
  | H : (_ <? _) = true |- _ => apply Z.ltb_lt in H
  | H : (_ <? _) = false |- _ => apply Z.ltb_ge in H
  | H : (_ <=? _) = true |- _ => apply Z.leb_le in H
  | H : (_ <=? _) = false |- _ => apply Z.leb_gt in H
  | H : (_ || _) = true |- _ => apply orb_true_iff in H; destruct H
  | H : (_ || _) = false |- _ => apply orb_false_iff in H; destruct H
  | H : (_ && _) = true |- _ => apply andb_true_iff in H; destruct H
  end.

Lemma round_tail_valid neg num den e :
  0 < den -> 0 <= num -> -1074 <= e ->
  (den * 2 ^ 52 <= num < den * 2 ^ 53 \/ (e = -1074 /\ num < den * 2 ^ 52)) ->
  b64_valid (round_tail neg num den e) = true.
Proof.
  intros Hd Hn He Hb; unfold round_tail; cbv zeta.
  assert (Hq0 : 0 <= num / den) by (apply Z.div_pos; lia).
  assert (Hq : (2 ^ 52 <= num / den < 2 ^ 53) \/ (e = -1074 /\ num / den < 2 ^ 52)).
  { destruct Hb as [[H1 H2]|[H1 H2]]; [left | right]; split.
    - apply Z.div_le_lower_bound; lia.
    - apply Z.div_lt_upper_bound; lia.
    - exact H1.
    - apply Z.div_lt_upper_bound; lia. }
  set (q := num / den) in *.
  change (2 ^ 52) with 4503599627370496 in *; change (2 ^ 53) with 9007199254740992 in *.
  repeat match goal with
  | |- context [if ?c then _ else _] => destruct c eqn:?
  end; zbool; try reflexivity;
    apply valid_fin_iff; change (2 ^ 52) with 4503599627370496; change (2 ^ 53) with 9007199254740992; lia.
Qed.

Lemma round_frac_valid neg a b : 0 < a -> 0 < b -> b64_valid (round_frac neg a b) = true.
Proof.
  intros Ha Hb; rewrite round_frac_tail; cbv zeta.
  destruct (log2_frac_spec a b Ha Hb) as [H1 H2].
  set (L := log2_frac a b) in *.
  assert (Hsub : L - 52 < -1074 -> pow2_le (-1022) a b = false).
  { intros HL; apply not_true_iff_false; intros H.
    assert (pow2_le (L + 1) a b = true) by (apply (pow2_le_mono _ (-1022)); [exact Hb | lia | exact H]).
    congruence. }
  destruct (Z.leb_spec 0 (Z.max (L - 52) (-1074))) as [He|He].
  - replace (Z.max (L - 52) (-1074)) with (L - 52) in * by lia.
    apply round_tail_valid; [apply Z.mul_pos_pos; [lia | apply Z.pow_pos_nonneg; lia] | lia | lia|].
    left; split.
    + apply (pow2_le_iff _ _ _ 0) in H1; [|lia|lia].
      rewrite Z.add_0_r, Z.mul_1_r in H1; rewrite <- Z.mul_assoc, <- Z.pow_add_r by lia.
      replace (L - 52 + 52) with L by lia; exact H1.
    + apply not_true_iff_false in H2; apply Z.nle_gt; intros H; apply H2.
      apply (pow2_le_iff _ _ _ 0); [lia | lia|].
      rewrite Z.add_0_r, Z.mul_1_r; rewrite <- Z.mul_assoc, <- Z.pow_add_r in H by lia.
      replace (L + 1) with (L - 52 + 53) by lia; exact H.
  - apply round_tail_valid; [lia | apply Z.mul_nonneg_nonneg; [lia | apply Z.pow_nonneg; lia] | lia |].
    destruct (Z.leb_spec (-1074) (L - 52)) as [HL|HL].
    + replace (Z.max (L - 52) (-1074)) with (L - 52) in * by lia.
      left; split.
      * apply (pow2_le_iff _ _ _ (- (L - 52))) in H1; [|lia|lia].
        replace (L + - (L - 52)) with 52 in H1 by lia; exact H1.
      * apply not_true_iff_false in H2; apply Z.nle_gt; intros H; apply H2.
        apply (pow2_le_iff _ _ _ (- (L - 52))); [lia | lia|].
        replace (L + 1 + - (L - 52)) with 53 by lia; exact H.
    + replace (Z.max (L - 52) (-1074)) with (-1074) in * by lia.
      right; split; [reflexivity|].
      specialize (Hsub HL); apply not_true_iff_false in Hsub.
      apply Z.nle_gt; intros H; apply Hsub.
      apply (pow2_le_iff _ _ _ 1074); [lia | lia|].
      replace (-1022 + 1074) with 52 by lia; replace (- -1074) with 1074 in H by lia; exact H.
Qed.

Lemma b64_of_decimal_valid neg M E : 0 <= M -> b64_valid (b64_of_decimal neg M E) = true.
Proof.
  intros HM; unfold b64_of_decimal.
  destruct (Z.eqb_spec M 0); [reflexivity|].
  destruct (Z.leb_spec 0 E); apply round_frac_valid; try lia;
    try (apply Z.mul_pos_pos; [lia|]); apply Z.pow_pos_nonneg; lia.
Qed.

(** ** The text of a float

    Every layout [repr] picks is a well-formed JSON number, and it reads
    back as the decimal it was built from. *)

Lemma repr_layout_ok neg ds decpt :
  digits ds -> (exists c t, ds = c :: t /\ c <> 48) -> numtext_ok (repr_layout neg ds decpt).
Proof.
  intros Hd (c & t & -> & Hc); unfold repr_layout, numtext_ok; cbn [List.length].
  pose proof Hd as Hd'; apply Forall_cons_iff in Hd' as [Hc' Ht].
  destruct ((decpt <=? -4) || (16 <? decpt)) eqn:E1; cbn [nt_int nt_frac nt_exp].
  { cbn [firstn skipn]; split; [constructor; [exact Hc' | constructor]|].
    split; [right; exists c, []; split; [reflexivity | exact Hc]|].
    split; [exact Ht | discriminate]. }
  destruct (Z.leb_spec decpt 0) as [H0|H0]; cbn [nt_int nt_frac nt_exp].
  { split; [constructor; [reflexivity | constructor]|]; split; [left; reflexivity|].
    split; [apply Forall_app; split; [apply digits_zeros | exact Hd]|].
    intros Hn; apply app_eq_nil in Hn as [_ Hn]; discriminate. }
  destruct (Z.ltb_spec decpt (Z.of_nat (S (List.length t)))) as [Hn|Hn]; cbn [nt_int nt_frac nt_exp].
  - assert (Hk : exists k, Z.to_nat decpt = S k /\ (k < List.length t)%nat)
      by (exists (Nat.pred (Z.to_nat decpt)); lia).
    destruct Hk as (k & -> & Hk); cbn [firstn skipn].
    destruct (digits_split k t Ht) as [H1 H2].
    split; [constructor; assumption|].
    split; [right; exists c, (firstn k t); split; [reflexivity | exact Hc]|].
    split; [exact H2|].
    intros He; apply (f_equal (@List.length Z)) in He; rewrite length_skipn in He; cbn in He; lia.
  - split; [apply Forall_app; split; [exact Hd | apply digits_zeros]|].
    split; [right; exists c, (t ++ repeat 48 (Z.to_nat (decpt - Z.of_nat (S (List.length t))))); split; [reflexivity | exact Hc]|].
    split; [constructor; [reflexivity | constructor] | discriminate].
Qed.

Lemma strip_zeros_spec neg f c u :
  0 < c ->
  0 < fst (strip_zeros f c u)
  /\ b64_of_decimal neg (fst (strip_zeros f c u)) (snd (strip_zeros f c u)) = b64_of_decimal neg c u.
Proof.
  revert c u; induction f as [|f IH]; intros c u Hc; cbn [strip_zeros]; [split; [exact Hc | reflexivity]|].
  destruct ((0 <? c) && (c mod 10 =? 0)) eqn:E; [|split; [exact Hc | reflexivity]].
  zbool.
  assert (Hc10 : c = c / 10 * 10) by (pose proof (Z.div_mod c 10); lia).
  assert (Hq : 0 < c / 10) by (apply Z.div_str_pos; pose proof (Z.mod_pos_bound c 10); lia).
  destruct (IH (c / 10) (u + 1) Hq) as [IH1 IH2]; split; [exact IH1|].
  rewrite IH2; unfold b64_of_decimal.
  replace (c / 10 =? 0) with false by (symmetry; apply Z.eqb_neq; lia).
  replace (c =? 0) with false by (symmetry; apply Z.eqb_neq; lia).
  destruct (Z.leb_spec 0 (u + 1)) as [Hu|Hu]; destruct (Z.leb_spec 0 u) as [Hu'|Hu'].
  - f_equal; rewrite Hc10 at 2; rewrite <- Z.mul_assoc, <- Z.pow_succ_r by lia; f_equal; f_equal; lia.
  - replace u with (-1) by lia; change (-1 + 1) with 0; change (- -1) with 1.
    rewrite Z.pow_0_r, Z.pow_1_r, Z.mul_1_r; apply (round_frac_ratio neg); lia.
  - lia.
  - apply (round_frac_ratio neg); try lia; try (apply Z.pow_pos_nonneg; lia).
    rewrite Hc10 at 2; replace (- u) with (Z.succ (- (u + 1))) by lia.
    rewrite Z.pow_succ_r by lia. ring.
Qed.

Lemma b64_of_decimal_shift neg M E j :
  0 <= M -> 0 <= j -> b64_of_decimal neg (M * 10 ^ j) (E - j) = b64_of_decimal neg M E.
Proof.
  intros HM Hj; unfold b64_of_decimal.
  destruct (Z.eqb_spec M 0) as [->|HM0]; [reflexivity|].
  pose proof (Z.pow_pos_nonneg 10 j ltac:(lia)) as Pj.
  replace (M * 10 ^ j =? 0) with false by (symmetry; apply Z.eqb_neq; nia).
  destruct (Z.leb_spec 0 (E - j)); destruct (Z.leb_spec 0 E); try lia.
  - rewrite <- Z.mul_assoc, <- Z.pow_add_r by lia; do 3 f_equal; lia.
  - pose proof (Z.pow_pos_nonneg 10 E ltac:(lia)).
    pose proof (Z.pow_pos_nonneg 10 (- (E - j)) ltac:(lia)).
    apply (round_frac_ratio neg); try nia.
    rewrite Z.mul_1_r, <- Z.mul_assoc, <- Z.pow_add_r by lia; do 2 f_equal; lia.
  - pose proof (Z.pow_pos_nonneg 10 (- E) ltac:(lia)).
    pose proof (Z.pow_pos_nonneg 10 (- (E - j)) ltac:(lia)).
    apply (round_frac_ratio neg); try nia.
    rewrite <- Z.mul_assoc, <- Z.pow_add_r by lia; do 2 f_equal; lia.
Qed.

Lemma digits_value_lead_zeros j ds : digits_value (48 :: repeat 48 j ++ ds) = digits_value ds.
Proof.
  change (48 :: repeat 48 j ++ ds) with ((48 :: repeat 48 j) ++ ds).
  rewrite digits_value_app; change (48 :: repeat 48 j) with (repeat 48 (S j)).
  rewrite digits_value_zeros; ring.
Qed.

Lemma repr_layout_value neg ds u :
  digits ds -> ds <> [] ->
  numtext_value (repr_layout neg ds (Z.of_nat (List.length ds) + u)) = b64_of_decimal neg (digits_value ds) u.
Proof.
  intros Hd Hne; unfold repr_layout, numtext_value; cbv zeta.
  set (n := Z.of_nat (List.length ds)).
  assert (Hn : 1 <= n) by (destruct ds; [congruence | unfold n; cbn [List.length]; lia]).
  destruct ((n + u <=? -4) || (16 <? n + u)); cbn [nt_int nt_frac nt_exp nt_neg].
  { rewrite firstn_skipn, length_skipn; f_equal; unfold n; lia. }
  destruct (Z.leb_spec (n + u) 0) as [H0|H0]; cbn [nt_int nt_frac nt_exp nt_neg].
  { change ([48] ++ repeat 48 (Z.to_nat (- (n + u))) ++ ds) with (48 :: repeat 48 (Z.to_nat (- (n + u))) ++ ds).
    rewrite digits_value_lead_zeros, length_app, repeat_length; f_equal; fold n; lia. }
  destruct (Z.ltb_spec (n + u) n) as [H1|H1]; cbn [nt_int nt_frac nt_exp nt_neg].
  { rewrite firstn_skipn, length_skipn; f_equal; fold n; lia. }
  rewrite <- app_assoc, digits_value_app, digits_value_app, length_app, repeat_length, digits_value_zeros.
  change (digits_value [48]) with 0; cbn [List.length].
  replace (Z.of_nat (Z.to_nat (n + u - n) + 1)) with (u + 1) by lia.
  rewrite Z.mul_0_l, !Z.add_0_r; replace (0 - Z.of_nat 1) with (u - (u + 1)) by lia.
  apply b64_of_decimal_shift; [apply digits_value_nonneg; exact Hd | lia].
Qed.

Lemma dec_layout_spec neg c u :
  0 < c -> numtext_ok (dec_layout neg c u) /\ numtext_value (dec_layout neg c u) = b64_of_decimal neg c u.
Proof.
  intros Hc; unfold dec_layout.
  destruct (strip_zeros_spec neg (S (Z.to_nat (Z.log2 c))) c u Hc) as [H1 H2].
  destruct (strip_zeros (S (Z.to_nat (Z.log2 c))) c u) as [c' u']; cbn [fst snd] in H1, H2.
  destruct (nat_digits_ok c' ltac:(lia)) as [Hd _].
  destruct (nat_digits_shape c' ltac:(lia)) as [[E _] | Hlead]; [lia|].
  split; [apply repr_layout_ok; assumption|].
  rewrite repr_layout_value, nat_digits_value by (try lia; try exact Hd; destruct Hlead as (? & ? & -> & _); discriminate).
  exact H2.
Qed.

Lemma b64_eqb_true x y : b64_eqb x y = true -> x = y.
Proof.
  destruct x, y; cbn; intros H; try discriminate; try reflexivity;
    repeat (apply andb_true_iff in H as [H ?]); zbool;
    repeat match goal with Hb : Bool.eqb _ _ = true |- _ => apply Bool.eqb_prop in Hb end;
    subst; reflexivity.
Qed.

Lemma candidate_ok neg x a b k p t :
  candidate neg x a b k p = Some t ->
  numtext_value t = x /\ exists c u, 0 < c /\ t = dec_layout neg c u.
Proof.
  unfold candidate; cbv beta zeta.
  generalize (k - Z.of_nat p + 1); intros u.
  destruct (if 0 <=? u then _ else _) as [num den].
  assert (Hok : forall c, (0 <? c) && b64_eqb (numtext_value (dec_layout neg c u)) x = true ->
                 Some (dec_layout neg c u) = Some t ->
                 numtext_value t = x /\ exists c u, 0 < c /\ t = dec_layout neg c u).
  { intros c Hc Ht; injection Ht as <-; apply andb_true_iff in Hc as [Hc He]; apply Z.ltb_lt in Hc.
    split; [apply b64_eqb_true; exact He | exists c, u; split; [exact Hc | reflexivity]]. }
  intros H; repeat match type of H with
  | context [match ?c with _ => _ end] => destruct c eqn:?
  end; try discriminate; (eapply Hok; [| exact H]); assumption.
Qed.

Lemma first_some_some {A B} (f : A -> option B) xs y :
  first_some f xs = Some y -> exists x, In x xs /\ f x = Some y.
Proof.
  induction xs as [|x xs IH]; cbn; [discriminate|].
  destruct (f x) eqn:E; intros H.
  - injection H as <-; exists x; split; [left; reflexivity | exact E].
  - destruct (IH H) as (x' & Hin & Hx); exists x'; split; [right; exact Hin | exact Hx].
Qed.

(** The text [repr] writes for a valid finite float is a JSON number that
    reads back as the same float. *)
Lemma float_text_fin neg m e :
  b64_valid (B64Fin neg m e) = true ->
  numtext_ok (float_text (B64Fin neg m e)) /\ numtext_value (float_text (B64Fin neg m e)) = B64Fin neg m e.
Proof.
  intros Hv; pose proof (round_frac_exact neg m e Hv) as Hx.
  apply valid_fin_iff in Hv.
  assert (Hm : 0 < m) by (assert (0 < 2 ^ 52) by reflexivity; lia).
  unfold float_text; destruct (frac_of m e) as [a b] eqn:Hf; cbn [fst snd] in Hx.
  destruct (first_some _ _) as [t|] eqn:Hs.
  - apply first_some_some in Hs as (p & _ & Hp).
    apply candidate_ok in Hp as (Hval & c & u & Hc & ->).
    split; [apply dec_layout_spec; exact Hc | exact Hval].
  - unfold exact_layout; destruct (Z.leb_spec 0 e) as [He|He].
    + assert (Hc : 0 < m * 2 ^ e) by (apply Z.mul_pos_pos; [lia | apply Z.pow_pos_nonneg; lia]).
      destruct (dec_layout_spec neg (m * 2 ^ e) 0 Hc) as [Hok Hval]; split; [exact Hok|].
      rewrite Hval, <- Hx; unfold frac_of in Hf; rewrite (proj2 (Z.leb_le 0 e) He) in Hf.
      injection Hf as <- <-; unfold b64_of_decimal.
      replace (m * 2 ^ e =? 0) with false by (symmetry; apply Z.eqb_neq; lia).
      cbn [Z.leb Z.compare Z.pow]; rewrite Z.mul_1_r; reflexivity.
    + assert (Hc : 0 < m * 5 ^ (- e)) by (apply Z.mul_pos_pos; [lia | apply Z.pow_pos_nonneg; lia]).
      destruct (dec_layout_spec neg (m * 5 ^ (- e)) e Hc) as [Hok Hval]; split; [exact Hok|].
      rewrite Hval, <- Hx; unfold frac_of in Hf; rewrite (proj2 (Z.leb_gt 0 e) He) in Hf.
      injection Hf as <- <-; unfold b64_of_decimal.
      replace (m * 5 ^ (- e) =? 0) with false by (symmetry; apply Z.eqb_neq; lia).
      replace (0 <=? e) with false by (symmetry; apply Z.leb_gt; exact He).
      apply (round_frac_ratio neg); try lia; try (apply Z.pow_pos_nonneg; lia).
      change 10 with (2 * 5); rewrite Z.pow_mul_l; ring.
Qed.

(** ** Floats in JSON text *)

(** A text that the scanner hands to the number parser. *)
Definition numeric_head (s : pystr) : Prop :=
  match s with
  | c :: t => 48 <= c <= 57 \/ (c = 45 /\ match t with d :: _ => 48 <= d <= 57 | [] => False end)
  | [] => False
  end.

Lemma numeric_head_app s r : numeric_head s -> numeric_head (s ++ r).
Proof. destruct s as [|c [|d t]]; cbn [numeric_head app]; tauto. Qed.

Lemma is_prefix_head p ps c t : p <> c -> is_prefix (p :: ps) (c :: t) = false.
Proof. intros H; cbn [is_prefix]; rewrite (proj2 (Z.eqb_neq p c) H); reflexivity. Qed.

Lemma parse_value_num n s :
  numeric_head s ->
  parse_value (S n) s
  = match parse_number s with Some (v, r) => SOk v r | None => SErr "Expecting value" s end.
Proof.
  destruct s as [|c t]; [contradiction|]; intros Hc; cbn [numeric_head] in Hc.
  assert (Hc' : 45 <= c <= 57) by (destruct Hc as [Hc|[-> _]]; lia).
  cbn [parse_value].
  replace (c =? 34) with false by (symmetry; apply Z.eqb_neq; lia).
  replace (c =? 123) with false by (symmetry; apply Z.eqb_neq; lia).
  replace (c =? 91) with false by (symmetry; apply Z.eqb_neq; lia).
  unfold starts_with.
  change (lit "null") with [110; 117; 108; 108]; change (lit "true") with [116; 114; 117; 101].
  change (lit "false") with [102; 97; 108; 115; 101]; change (lit "NaN") with [78; 97; 78].
  change (lit "Infinity") with [73; 110; 102; 105; 110; 105; 116; 121].
  change (lit "-Infinity") with [45; 73; 110; 102; 105; 110; 105; 116; 121].
  rewrite !is_prefix_head by lia.
  destruct Hc as [Hc|[-> Ht]].
  - rewrite is_prefix_head by lia; reflexivity.
  - destruct t as [|d t]; [contradiction|].
    cbn [is_prefix]; rewrite Z.eqb_refl; replace (73 =? d) with false by (symmetry; apply Z.eqb_neq; lia); reflexivity.
Qed.

Lemma int_repr_head z : numeric_head (int_repr z).
Proof.
  unfold int_repr; destruct (z <? 0) eqn:E.
  - apply Z.ltb_lt in E; destruct (nat_digits_ok (- z) ltac:(lia)) as [Hd Hl].
    destruct (digits_head _ Hd Hl) as (c & t & -> & Hc).
    unfold is_digit in Hc; apply andb_prop in Hc as [H1 H2]; apply Z.leb_le in H1, H2.
    right; split; [reflexivity | lia].
  - apply Z.ltb_ge in E; destruct (nat_digits_ok z E) as [Hd Hl].
    destruct (digits_head _ Hd Hl) as (c & t & -> & Hc).
    unfold is_digit in Hc; apply andb_prop in Hc as [H1 H2]; apply Z.leb_le in H1, H2.
    left; lia.
Qed.

Lemma render_head t : numtext_ok t -> numeric_head (render t).
Proof.
  intros (Hd & Hl & _); destruct (digits_head _ Hd Hl) as (c & u & E & Hc).
  unfold is_digit in Hc; apply andb_prop in Hc as [H1 H2]; apply Z.leb_le in H1, H2.
  unfold render; rewrite E; destruct (nt_neg t); cbn [app numeric_head]; [right; split; [reflexivity | lia] | left; lia].
Qed.

Lemma float_text_zero neg :
  numtext_ok (float_text (B64Zero neg)) /\ numtext_value (float_text (B64Zero neg)) = B64Zero neg.
Proof.
  split; [|destruct neg; reflexivity].
  split; [repeat constructor|]; split; [left; reflexivity|]; split; [repeat constructor | discriminate].
Qed.

Lemma float_text_ok x :
  b64_valid x = true -> (forall neg, x <> B64Inf neg) -> x <> B64NaN ->
  numtext_ok (float_text x) /\ numtext_value (float_text x) = x.
Proof.
  intros Hv Hi Hn; destruct x as [neg|neg| |neg m e].
  - apply float_text_zero.
  - exfalso; exact (Hi neg eq_refl).
  - exfalso; exact (Hn eq_refl).
  - apply float_text_fin; exact Hv.
Qed.

(** The text [dumps] writes for a float is read back as that float. *)
Lemma parse_float_json n x rest :
  b64_valid x = true -> term_ok rest ->
  parse_value (S n) (float_json x ++ rest) = SOk (PFloat x) rest.
Proof.
  intros Hv Hr.
  destruct x as [neg|[|]| |neg m e]; try reflexivity;
    (destruct (float_text_ok _ Hv ltac:(discriminate) ltac:(discriminate)) as [Hok Hval];
     cbn [float_json];
     rewrite parse_value_num by (apply numeric_head_app, render_head; exact Hok);
     rewrite parse_render by assumption; rewrite Hval; reflexivity).
Qed.

(** ** Strings *)

Lemma hexval_hexch d : 0 <= d < 16 -> hexval (hexch d) = Some d.
Proof.
  intros Hd; unfold hexval, hexch, is_digit.
  destruct (Z.ltb_spec d 10).
  - replace (48 <=? 48 + d) with true by (symmetry; apply Z.leb_le; lia).
    replace (48 + d <=? 57) with true by (symmetry; apply Z.leb_le; lia).
    cbn [andb]; f_equal; lia.
  - replace (48 <=? 87 + d) with true by (symmetry; apply Z.leb_le; lia).
    replace (87 + d <=? 57) with false by (symmetry; apply Z.leb_gt; lia).
    replace (97 <=? 87 + d) with true by (symmetry; apply Z.leb_le; lia).
    replace (87 + d <=? 102) with true by (symmetry; apply Z.leb_le; lia).
    cbn [andb]; f_equal; lia.
Qed.

Lemma hex4_u c :
  0 <= c < 65536 ->
  hex4 (hexch (c / 4096 mod 16)) (hexch (c / 256 mod 16)) (hexch (c / 16 mod 16)) (hexch (c mod 16))
  = Some c.
Proof.
  intros Hc; unfold hex4.
  rewrite !hexval_hexch by (apply Z.mod_pos_bound; lia).
  f_equal.
  replace (c / 256) with (c / 16 / 16) by (rewrite Z.div_div by lia; reflexivity).
  replace (c / 4096) with (c / 16 / 16 / 16) by (rewrite !Z.div_div by lia; reflexivity).
  pose proof (Z.div_mod c 16); pose proof (Z.div_mod (c / 16) 16);
  pose proof (Z.div_mod (c / 16 / 16) 16).
  assert (0 <= c / 16 / 16 / 16 < 16).
  { rewrite !Z.div_div by lia; split; [apply Z.div_pos; lia | apply Z.div_lt_upper_bound; lia]. }
  rewrite (Z.mod_small (c / 16 / 16 / 16) 16) by lia.
  lia.
Qed.

Lemma scan_str_u start h1 h2 h3 h4 y s2 :
  scan_str start (92 :: 117 :: h1 :: h2 :: h3 :: h4 :: y :: s2) =
  match hex4 h1 h2 h3 h4 with
  | None => SErr "Invalid \uXXXX escape" (117 :: h1 :: h2 :: h3 :: h4 :: y :: s2)
  | Some u =>
      if is_high u then
        match s2 with
        | v :: l1 :: l2 :: l3 :: l4 :: z :: s3 =>
            if (y =? 92) && (v =? 117) then
              match hex4 l1 l2 l3 l4 with
              | None => SErr "Invalid \uXXXX escape" (v :: l1 :: l2 :: l3 :: l4 :: z :: s3)
              | Some u2 =>
                  if is_low u2 then scan_cons (join_surrogates u u2) (scan_str start (z :: s3))
                  else scan_cons u (scan_str start (y :: s2))
              end
            else scan_cons u (scan_str start (y :: s2))
        | _ => scan_cons u (scan_str start (y :: s2))
        end
      else scan_cons u (scan_str start (y :: s2))
  end.
Proof.
  cbn [scan_str]; change (92 =? 34) with false; change (92 =? 92) with true; change (117 =? 117) with true.
  cbv iota; destruct (hex4 h1 h2 h3 h4); [|reflexivity].
  destruct (is_high z); [|reflexivity].
  destruct s2 as [|v [|l1 [|l2 [|l3 [|l4 [|z' s3]]]]]]; reflexivity.
Qed.

Lemma scan_str_simple start e t :
  e <> 117 ->
  scan_str start (92 :: e :: t) =
  match simple_escape e with
  | Some c' => scan_cons c' (scan_str start t)
  | None => SErr "Invalid \escape" (92 :: e :: t)
  end.
Proof.
  intros He; apply Z.eqb_neq in He.
  cbn [scan_str]; change (92 =? 34) with false; change (92 =? 92) with true; cbv iota.
  rewrite He; reflexivity.
Qed.

(** The text after a [\uXXXX] escape of a high surrogate does not start
    with an escape that [scan_str] pairs with it. *)
Definition next_ok (s : pystr) : bool :=
  match s with
  | b :: v :: l1 :: l2 :: l3 :: l4 :: _ :: _ =>
      if (b =? 92) && (v =? 117) then
        match hex4 l1 l2 l3 l4 with Some u => negb (is_low u) | None => false end
      else true
  | _ => true
  end.

Lemma next_ok_not_u b v x : (b =? 92) && (v =? 117) = false -> next_ok (b :: v :: x) = true.
Proof.
  intros H; destruct x as [|l1 [|l2 [|l3 [|l4 [|z x]]]]]; try reflexivity.
  unfold next_ok; rewrite H; reflexivity.
Qed.

Lemma next_ok_single b x : b <> 92 -> next_ok (b :: x) = true.
Proof.
  intros Hb; destruct x as [|v x]; [reflexivity|].
  apply next_ok_not_u; apply Z.eqb_neq in Hb; rewrite Hb; reflexivity.
Qed.

Lemma next_ok_u c x : 0 <= c < 65536 -> x <> [] -> next_ok (u_escape c ++ x) = negb (is_low c).
Proof.
  intros Hc Hx; destruct x as [|y x]; [congruence|].
  unfold u_escape, next_ok; cbn [app]; rewrite hex4_u by exact Hc; reflexivity.
Qed.

Lemma scan_u start c s2 :
  0 <= c < 65536 -> s2 <> [] -> is_high c = false \/ next_ok s2 = true ->
  scan_str start (u_escape c ++ s2) = scan_cons c (scan_str start s2).
Proof.
  intros Hc Hne Hn; destruct s2 as [|y s2]; [congruence|].
  unfold u_escape; cbn [app].
  rewrite scan_str_u, hex4_u by exact Hc.
  destruct (is_high c) eqn:Hh; [|reflexivity].
  destruct Hn as [Hn|Hn]; [discriminate|].
  destruct s2 as [|v [|l1 [|l2 [|l3 [|l4 [|z s3]]]]]]; try reflexivity.
  unfold next_ok in Hn.
  destruct ((y =? 92) && (v =? 117)); [|reflexivity].
  destruct (hex4 l1 l2 l3 l4) as [u2|]; [|discriminate].
  apply negb_true_iff in Hn; rewrite Hn; reflexivity.
Qed.

Lemma scan_pair start c s2 :
  65536 <= c <= 1114111 -> s2 <> [] ->
  scan_str start (u_escape (55296 + (c - 65536) / 1024) ++ u_escape (56320 + (c - 65536) mod 1024) ++ s2)
  = scan_cons c (scan_str start s2).
Proof.
  intros Hc Hne; destruct s2 as [|y s2]; [congruence|].
  assert (Hq : 0 <= (c - 65536) / 1024 < 1024)
    by (split; [apply Z.div_pos; lia | apply Z.div_lt_upper_bound; lia]).
  pose proof (Z.mod_pos_bound (c - 65536) 1024 ltac:(lia)) as Hr.
  set (hi := 55296 + (c - 65536) / 1024).
  set (lo := 56320 + (c - 65536) mod 1024).
  assert (Hhi : is_high hi = true)
    by (unfold is_high, hi; apply andb_true_intro; split; apply Z.leb_le; lia).
  assert (Hlo : is_low lo = true)
    by (unfold is_low, lo; apply andb_true_intro; split; apply Z.leb_le; lia).
  unfold u_escape at 1; cbn [app].
  unfold u_escape; cbn [app].
  rewrite scan_str_u, hex4_u by (unfold hi; lia).
  rewrite Hhi; change ((92 =? 92) && (117 =? 117)) with true; cbv iota.
  rewrite hex4_u by (unfold lo; lia).
  rewrite Hlo; f_equal.
  unfold join_surrogates, hi, lo; pose proof (Z.div_mod (c - 65536) 1024); lia.
Qed.

Lemma scan_str_plain start c t :
  c <> 34 -> c <> 92 -> 32 <= c -> scan_str start (c :: t) = scan_cons c (scan_str start t).
Proof.
  intros H1 H2 H3; cbn [scan_str].
  rewrite (proj2 (Z.eqb_neq c 34) H1), (proj2 (Z.eqb_neq c 92) H2).
  replace (c <=? 31) with false by (symmetry; apply Z.leb_gt; lia); reflexivity.
Qed.

Lemma scan_esc_char start c t :
  0 <= c <= 1114111 -> t <> [] -> is_high c = false \/ next_ok t = true ->
  scan_str start (esc_char c ++ t) = scan_cons c (scan_str start t).
Proof.
  intros Hc Ht Hn; unfold esc_char.
  destruct (Z.eqb_spec c 34) as [->|N34]; [cbn [app]; rewrite scan_str_simple by lia; reflexivity|].
  destruct (Z.eqb_spec c 92) as [->|N92]; [cbn [app]; rewrite scan_str_simple by lia; reflexivity|].
  destruct (Z.eqb_spec c 8) as [->|N8]; [cbn [app]; rewrite scan_str_simple by lia; reflexivity|].
  destruct (Z.eqb_spec c 12) as [->|N12]; [cbn [app]; rewrite scan_str_simple by lia; reflexivity|].
  destruct (Z.eqb_spec c 10) as [->|N10]; [cbn [app]; rewrite scan_str_simple by lia; reflexivity|].
  destruct (Z.eqb_spec c 13) as [->|N13]; [cbn [app]; rewrite scan_str_simple by lia; reflexivity|].
  destruct (Z.eqb_spec c 9) as [->|N9]; [cbn [app]; rewrite scan_str_simple by lia; reflexivity|].
  destruct ((32 <=? c) && (c <=? 126)) eqn:Hp.
  - apply andb_prop in Hp; destruct Hp as [Hp _]; apply Z.leb_le in Hp.
    cbn [app]; apply scan_str_plain; assumption.
  - destruct (Z.leb_spec c 65535).
    + apply scan_u; [lia | exact Ht | exact Hn].
    + rewrite <- app_assoc; apply scan_pair; [lia | exact Ht].
Qed.

Lemma next_ok_esc d x :
  0 <= d <= 1114111 -> is_low d = false -> x <> [] -> next_ok (esc_char d ++ x) = true.
Proof.
  intros Hd Hl Hx; unfold esc_char.
  destruct (Z.eqb_spec d 34); [apply next_ok_not_u; reflexivity|].
  destruct (Z.eqb_spec d 92); [apply next_ok_not_u; reflexivity|].
  destruct (Z.eqb_spec d 8); [apply next_ok_not_u; reflexivity|].
  destruct (Z.eqb_spec d 12); [apply next_ok_not_u; reflexivity|].
  destruct (Z.eqb_spec d 10); [apply next_ok_not_u; reflexivity|].
  destruct (Z.eqb_spec d 13); [apply next_ok_not_u; reflexivity|].
  destruct (Z.eqb_spec d 9); [apply next_ok_not_u; reflexivity|].
  destruct ((32 <=? d) && (d <=? 126)) eqn:Hp; [apply next_ok_single; assumption|].
  destruct (Z.leb_spec d 65535).
  - rewrite next_ok_u by (lia || exact Hx); rewrite Hl; reflexivity.
  - rewrite <- app_assoc, next_ok_u.
    + apply negb_true_iff; unfold is_low; apply andb_false_intro1, Z.leb_gt.
      enough ((d - 65536) / 1024 < 1024) by lia.
      apply Z.div_lt_upper_bound; lia.
    + split; [pose proof (Z.div_pos (d - 65536) 1024); lia|].
      enough ((d - 65536) / 1024 < 1024) by lia.
      apply Z.div_lt_upper_bound; lia.
    + unfold u_escape; discriminate.
Qed.

Lemma str_ok_cons c s :
  str_ok (c :: s) = true ->
  (0 <= c <= 1114111) /\ str_ok s = true
  /\ (forall d t, s = d :: t -> is_high c = true -> is_low d = false).
Proof.
  cbn [str_ok]; intros H.
  apply andb_prop in H; destruct H as [H Hs]; apply andb_prop in H; destruct H as [H Ha].
  apply andb_prop in H; destruct H as [H0 H1]; apply Z.leb_le in H0; apply Z.leb_le in H1.
  split; [lia | split; [exact Hs|]].
  intros d t -> Hh; rewrite Hh in Ha; exact (proj1 (negb_true_iff _) Ha).
Qed.

Lemma esc_tail_ne s rest : flat_map esc_char s ++ 34 :: rest <> [].
Proof. intros H; apply app_eq_nil in H as [_ H]; discriminate. Qed.

Lemma scan_quote start s rest :
  str_ok s = true -> scan_str start (flat_map esc_char s ++ 34 :: rest) = SOk s rest.
Proof.
  induction s as [|c s IH]; intros Hs; [reflexivity|].
  destruct (str_ok_cons c s Hs) as (Hc & Hs' & Hadj).
  cbn [flat_map]; rewrite <- app_assoc.
  rewrite scan_esc_char.
  - rewrite IH by exact Hs'; reflexivity.
  - exact Hc.
  - apply esc_tail_ne.
  - destruct (is_high c) eqn:Hh; [right | left; reflexivity].
    destruct s as [|d t].
    + apply next_ok_single; lia.
    + cbn [flat_map]; rewrite <- app_assoc; apply next_ok_esc.
      * apply str_ok_cons in Hs'; tauto.
      * eapply Hadj; reflexivity.
      * apply esc_tail_ne.
Qed.

(** ** Reading back what [dumps] writes *)

Section PyvalInd.
Variable P : pyval -> Prop.
Hypothesis HNone : P PNone.
Hypothesis HBool : forall b, P (PBool b).
Hypothesis HInt : forall z, P (PInt z).
Hypothesis HFloat : forall x, P (PFloat x).
Hypothesis HStr : forall s, P (PStr s).
Hypothesis HList : forall l, Forall P l -> P (PList l).
Hypothesis HDict : forall kvs, Forall (fun kv => P (snd kv)) kvs -> P (PDict kvs).

Fixpoint pyval_ind' (v : pyval) : P v :=
  match v with
  | PNone => HNone
  | PBool b => HBool b
  | PInt z => HInt z
  | PFloat x => HFloat x
  | PStr s => HStr s
  | PList l =>
      HList l ((fix go (l : list pyval) : Forall P l :=
                  match l with
                  | [] => Forall_nil _
                  | x :: l' => Forall_cons x (pyval_ind' x) (go l')
                  end) l)
  | PDict kvs =>
      HDict kvs ((fix go (kvs : list (pystr * pyval)) : Forall (fun kv => P (snd kv)) kvs :=
                    match kvs with
                    | [] => Forall_nil _
                    | kv :: kvs' => Forall_cons kv (pyval_ind' (snd kv)) (go kvs')
                    end) kvs)
  end.
End PyvalInd.

Lemma not_ws c : c = 45 \/ 48 <= c <= 57 \/ c = 34 \/ c = 91 \/ c = 123 \/ c = 110 \/ c = 116 \/ c = 102
                 \/ c = 78 \/ c = 73 ->
  is_ws c = false.
Proof.
  intros Hc; apply not_true_iff_false; unfold is_ws; intros H.
  repeat (apply orb_prop in H; destruct H as [H|H]); apply Z.eqb_eq in H; lia.
Qed.

Lemma float_json_head x :
  b64_valid x = true -> exists c t, float_json x = c :: t /\ (c = 45 \/ 48 <= c <= 57 \/ c = 78 \/ c = 73).
Proof.
  intros Hv; destruct x as [neg|[|]| |neg m e];
    try (eexists _, _; split; [reflexivity | tauto]);
    (destruct (float_text_ok _ Hv ltac:(discriminate) ltac:(discriminate)) as [Hok _];
     pose proof (render_head _ Hok) as Hh; cbn [float_json];
     destruct (render (float_text _)) as [|c t]; [contradiction|];
     exists c, t; split; [reflexivity|]; cbn [numeric_head] in Hh; lia).
Qed.

Lemma dumps_head v :
  wf v = true ->
  exists c t, dumps v = c :: t /\ is_ws c = false /\ c <> 93 /\ c <> 125 /\ c <> 65279.
Proof.
  intros Hwf.
  assert (Hn : forall s, numeric_head s ->
            exists c t, s = c :: t /\ is_ws c = false /\ c <> 93 /\ c <> 125 /\ c <> 65279).
  { intros [|c t] Hs; [contradiction|]; exists c, t; cbn [numeric_head] in Hs.
    split; [reflexivity | split; [apply not_ws; lia | lia]]. }
  destruct v as [| [|] | z | x | s | l | kvs].
  - exists 110; eexists; split; [reflexivity | split; [reflexivity | lia]].
  - exists 116; eexists; split; [reflexivity | split; [reflexivity | lia]].
  - exists 102; eexists; split; [reflexivity | split; [reflexivity | lia]].
  - apply Hn, int_repr_head.
  - destruct (float_json_head x Hwf) as (c & t & E & Hc); cbn [dumps]; rewrite E.
    exists c, t; split; [reflexivity | split; [apply not_ws; lia | lia]].
  - exists 34; eexists; split; [reflexivity | split; [reflexivity | lia]].
  - exists 91; eexists; split; [reflexivity | split; [reflexivity | lia]].
  - exists 123; eexists; split; [reflexivity | split; [reflexivity | lia]].
Qed.

Lemma skip_ws_dumps v r : wf v = true -> skip_ws (dumps v ++ r) = dumps v ++ r.
Proof.
  intros Hwf; destruct (dumps_head v Hwf) as (c & t & E & Hc & _); rewrite E; cbn [app skip_ws]; rewrite Hc; reflexivity.
Qed.

Lemma skip_ws_cons c x : is_ws c = false -> skip_ws (c :: x) = c :: x.
Proof. intros H; cbn [skip_ws]; rewrite H; reflexivity. Qed.

Lemma skip_ws_space x : skip_ws (32 :: x) = skip_ws x.
Proof. reflexivity. Qed.

Lemma parse_value_list n x :
  parse_value (S n) (91 :: x)
  = match skip_ws x with
    | c1 :: r1 => if c1 =? 93 then SOk (PList []) r1 else parse_elements n (c1 :: r1) []
    | [] => parse_elements n [] []
    end.
Proof. reflexivity. Qed.

Lemma parse_value_dict n x :
  parse_value (S n) (123 :: x)
  = match skip_ws x with
    | c1 :: r1 => if c1 =? 125 then SOk (PDict []) r1 else parse_members n (c1 :: r1) []
    | [] => parse_members n [] []
    end.
Proof. reflexivity. Qed.

Lemma parse_value_str n x :
  parse_value (S n) (34 :: x)
  = match scan_str (34 :: x) x with SOk str r => SOk (PStr str) r | SErr m a => SErr m a end.
Proof. reflexivity. Qed.

Lemma parse_elements_step n s acc :
  parse_elements (S n) s acc
  = match parse_value n s with
    | SErr m a => SErr m a
    | SOk v r =>
        match skip_ws r with
        | c :: r' =>
            if c =? 93 then SOk (PList (acc ++ [v])) r'
            else if c =? 44 then parse_elements n (skip_ws r') (acc ++ [v])
            else SErr "Expecting ',' delimiter" (c :: r')
        | [] => SErr "Expecting ',' delimiter" []
        end
    end.
Proof. reflexivity. Qed.

Lemma parse_members_step n x acc :
  parse_members (S n) (34 :: x) acc
  = match scan_str (34 :: x) x with
    | SErr m a => SErr m a
    | SOk k r =>
        match skip_ws r with
        | c2 :: r2 =>
            if c2 =? 58 then
              match parse_value n (skip_ws r2) with
              | SErr m a => SErr m a
              | SOk v r3 =>
                  match skip_ws r3 with
                  | c3 :: r4 =>
                      if c3 =? 125 then SOk (PDict (dict_set acc k v)) r4
                      else if c3 =? 44 then parse_members n (skip_ws r4) (dict_set acc k v)
                      else SErr "Expecting ',' delimiter" (c3 :: r4)
                  | [] => SErr "Expecting ',' delimiter" []
                  end
              end
            else SErr "Expecting ':' delimiter" (c2 :: r2)
        | [] => SErr "Expecting ':' delimiter" []
        end
    end.
Proof. reflexivity. Qed.

(** [dumps v], followed by a text that may follow a value, is read back as
    [v] by the parser. *)
Definition roundtrips (v : pyval) : Prop :=
  wf v = true -> forall n rest, (size v <= n)%nat -> term_ok rest ->
  parse_value n (dumps v ++ rest) = SOk v rest.

Lemma skip_ws_join x xs r :
  wf x = true ->
  skip_ws (join (lit ", ") (map dumps (x :: xs)) ++ r) = join (lit ", ") (map dumps (x :: xs)) ++ r.
Proof.
  intros Hw; destruct xs as [|y ys]; cbn [map join].
  - apply skip_ws_dumps; exact Hw.
  - rewrite <- app_assoc; apply skip_ws_dumps; exact Hw.
Qed.

Lemma join_dumps_cons {A} (f : A -> pystr) x y ys :
  join (lit ", ") (map f (x :: y :: ys)) = f x ++ lit ", " ++ join (lit ", ") (map f (y :: ys)).
Proof. reflexivity. Qed.

Lemma parse_elements_dumps x xs acc m rest :
  Forall roundtrips (x :: xs) -> forallb wf (x :: xs) = true ->
  (list_sum (map (fun y => S (size y)) (x :: xs)) <= m)%nat -> term_ok rest ->
  parse_elements m (join (lit ", ") (map dumps (x :: xs)) ++ 93 :: rest) acc
  = SOk (PList (acc ++ x :: xs)) rest.
Proof.
  revert x acc m; induction xs as [|y ys IH]; intros x acc m Hrt Hwf Hm Hr;
    inversion Hrt as [|? ? Hx Hxs]; subst; cbn [forallb] in Hwf;
    apply andb_prop in Hwf; destruct Hwf as [Hwx Hwxs];
    cbn [map list_sum fold_right] in Hm; destruct m as [|m']; try lia.
  - cbn [map join]; rewrite parse_elements_step.
    rewrite (Hx Hwx m' (93 :: rest)) by (lia || (right; left; reflexivity)).
    rewrite skip_ws_cons by reflexivity.
    reflexivity.
  - rewrite join_dumps_cons, <- !app_assoc.
    change (lit ", " ++ ?X) with (44 :: 32 :: X).
    rewrite parse_elements_step.
    rewrite (Hx Hwx m') by (lia || (left; reflexivity)).
    rewrite skip_ws_cons by reflexivity.
    change (44 =? 93) with false; change (44 =? 44) with true; cbv iota.
    cbn [forallb] in Hwxs; pose proof Hwxs as Hwy; apply andb_prop in Hwy as [Hwy _].
    rewrite skip_ws_space, skip_ws_join by exact Hwy.
    rewrite (IH y (acc ++ [x]) m' Hxs Hwxs) by (cbn [map list_sum fold_right] in *; lia || exact Hr).
    rewrite <- app_assoc; reflexivity.
Qed.

Lemma key_in_app k a b : key_in k (a ++ b) = key_in k a || key_in k b.
Proof.
  induction a as [|[k' x] a IH]; [reflexivity|]; cbn [app key_in].
  destruct (list_eq_dec Z.eq_dec k k'); [reflexivity | exact IH].
Qed.

Lemma key_in_self k x kvs : key_in k ((k, x) :: kvs) = true.
Proof. cbn [key_in]; destruct (list_eq_dec Z.eq_dec k k); [reflexivity | congruence]. Qed.

Lemma key_in_cons_other k k' x kvs : key_in k' ((k, x) :: kvs) = false -> key_in k' kvs = false.
Proof. cbn [key_in]; destruct (list_eq_dec Z.eq_dec k' k); [discriminate | trivial]. Qed.

Lemma dict_set_fresh acc k v : key_in k acc = false -> dict_set acc k v = acc ++ [(k, v)].
Proof.
  induction acc as [|[k' v'] acc IH]; intros H; [reflexivity|]; cbn [key_in] in H; cbn [dict_set app].
  destruct (list_eq_dec Z.eq_dec k k'); [discriminate | rewrite IH by exact H; reflexivity].
Qed.

Lemma wf_dict_cons k x kvs :
  wf (PDict ((k, x) :: kvs)) = negb (key_in k kvs) && str_ok k && wf x && wf (PDict kvs).
Proof. reflexivity. Qed.

Definition member_text (kv : pystr * pyval) : pystr :=
  let '(k, x) := kv in quote k ++ lit ": " ++ dumps x.

Lemma member_text_eq k x r :
  member_text (k, x) ++ r = 34 :: flat_map esc_char k ++ 34 :: 58 :: 32 :: dumps x ++ r.
Proof. unfold member_text, quote; rewrite <- !app_assoc; reflexivity. Qed.

Lemma join_one {A} (f : A -> pystr) x : join (lit ", ") (map f [x]) = f x.
Proof. reflexivity. Qed.

Lemma join_members_head kv kvs r :
  exists t, join (lit ", ") (map member_text (kv :: kvs)) ++ r = 34 :: t.
Proof.
  destruct kv as [k x]; destruct kvs as [|kv2 kvs].
  - rewrite join_one, member_text_eq; eexists; reflexivity.
  - rewrite join_dumps_cons, <- app_assoc, member_text_eq; eexists; reflexivity.
Qed.

Lemma skip_ws_members kv kvs r :
  skip_ws (join (lit ", ") (map member_text (kv :: kvs)) ++ r) = join (lit ", ") (map member_text (kv :: kvs)) ++ r.
Proof. destruct (join_members_head kv kvs r) as [t E]; rewrite E; apply skip_ws_cons; reflexivity. Qed.

Lemma parse_members_dumps k x kvs acc m rest :
  Forall (fun kv => roundtrips (snd kv)) ((k, x) :: kvs) ->
  wf (PDict ((k, x) :: kvs)) = true ->
  (forall k', key_in k' acc = true -> key_in k' ((k, x) :: kvs) = false) ->
  (list_sum (map (fun kv => S (size (snd kv))) ((k, x) :: kvs)) <= m)%nat -> term_ok rest ->
  parse_members m (join (lit ", ") (map member_text ((k, x) :: kvs)) ++ 125 :: rest) acc
  = SOk (PDict (acc ++ (k, x) :: kvs)) rest.
Proof.
  revert k x acc m; induction kvs as [|[k2 x2] kvs IH]; intros k x acc m Hrt Hwf Hacc Hm Hr;
    inversion Hrt as [|? ? Hx Hxs]; subst; cbn [snd] in Hx;
    rewrite wf_dict_cons in Hwf;
    apply andb_prop in Hwf; destruct Hwf as [Hwf Hwkvs];
    apply andb_prop in Hwf; destruct Hwf as [Hwf Hwx];
    apply andb_prop in Hwf; destruct Hwf as [Hfresh Hk];
    cbn [map list_sum fold_right snd] in Hm; destruct m as [|m']; try lia;
    assert (Hnew : key_in k acc = false)
      by (destruct (key_in k acc) eqn:E; [|reflexivity];
          specialize (Hacc k E); rewrite key_in_self in Hacc; discriminate).
  - rewrite join_one, member_text_eq, parse_members_step, scan_quote by exact Hk; cbv iota.
    rewrite skip_ws_cons by reflexivity; change (58 =? 58) with true; cbv iota.
    rewrite skip_ws_space, skip_ws_dumps by exact Hwx.
    rewrite (Hx Hwx m' (125 :: rest)) by (lia || (right; right; reflexivity)); cbv iota.
    rewrite skip_ws_cons by reflexivity; change (125 =? 125) with true; cbv iota.
    rewrite dict_set_fresh by exact Hnew; reflexivity.
  - rewrite join_dumps_cons, <- !app_assoc, member_text_eq, parse_members_step, scan_quote by exact Hk;
      cbv iota.
    rewrite skip_ws_cons by reflexivity; change (58 =? 58) with true; cbv iota.
    rewrite skip_ws_space, skip_ws_dumps by exact Hwx.
    change (lit ", " ++ ?X) with (44 :: 32 :: X).
    rewrite (Hx Hwx m') by (lia || (left; reflexivity)); cbv iota.
    rewrite skip_ws_cons by reflexivity; change (44 =? 125) with false; change (44 =? 44) with true; cbv iota.
    rewrite skip_ws_space, skip_ws_members, dict_set_fresh by exact Hnew.
    rewrite (IH k2 x2 (acc ++ [(k, x)]) m' Hxs Hwkvs).
    + rewrite <- app_assoc; reflexivity.
    + intros k' Hk'; rewrite key_in_app in Hk'; apply orb_prop in Hk'; destruct Hk' as [Hk'|Hk'].
      * exact (key_in_cons_other _ _ _ _ (Hacc k' Hk')).
      * cbn [key_in] in Hk'; destruct (list_eq_dec Z.eq_dec k' k) as [->|]; [|discriminate].
        apply negb_true_iff; exact Hfresh.
    + cbn [map list_sum fold_right snd] in *; lia.
    + exact Hr.
Qed.

Lemma join_dumps_head x xs r :
  wf x = true -> exists c t, join (lit ", ") (map dumps (x :: xs)) ++ r = c :: t /\ c <> 93.
Proof.
  intros Hw; destruct (dumps_head x Hw) as (c & t & E & _ & H93 & _).
  destruct xs as [|y ys].
  - rewrite join_one, E; eexists c, _; split; [reflexivity | exact H93].
  - rewrite join_dumps_cons, <- app_assoc, E; eexists c, _; split; [reflexivity | exact H93].
Qed.

Lemma dumps_roundtrips v : roundtrips v.
Proof.
  induction v as [| b | z | x | s | l Hl | kvs Hkvs] using pyval_ind';
    intros Hwf n rest Hn Hr; (destruct n as [|n]; [cbn [size] in Hn; lia|]).
  - reflexivity.
  - destruct b; reflexivity.
  - cbn [dumps]; rewrite parse_value_num by (apply numeric_head_app, int_repr_head).
    rewrite parse_int by exact Hr; reflexivity.
  - cbn [dumps]; apply parse_float_json; [exact Hwf | exact Hr].
  - cbn [dumps]; unfold quote; rewrite <- !app_assoc; cbn [app].
    rewrite parse_value_str, scan_quote by exact Hwf; reflexivity.
  - destruct l as [|x xs]; [reflexivity|].
    change (dumps (PList (x :: xs))) with ([91] ++ join (lit ", ") (map dumps (x :: xs)) ++ [93]).
    rewrite <- !app_assoc; cbn [app].
    pose proof Hwf as Hwx; cbn [wf forallb] in Hwx; apply andb_prop in Hwx as [Hwx _].
    rewrite parse_value_list, skip_ws_join by exact Hwx.
    destruct (join_dumps_head x xs (93 :: rest) Hwx) as (c & t & E & Hc).
    rewrite E; replace (c =? 93) with false by (symmetry; apply Z.eqb_neq; exact Hc); rewrite <- E.
    apply (parse_elements_dumps x xs [] n rest Hl Hwf); [cbn [size] in Hn; lia | exact Hr].
  - destruct kvs as [|[k x] kvs]; [reflexivity|].
    change (dumps (PDict ((k, x) :: kvs)))
      with ([123] ++ join (lit ", ") (map member_text ((k, x) :: kvs)) ++ [125]).
    rewrite <- !app_assoc; cbn [app].
    rewrite parse_value_dict, skip_ws_members.
    destruct (join_members_head (k, x) kvs (125 :: rest)) as (t & E).
    rewrite E; change (34 =? 125) with false; rewrite <- E.
    apply (parse_members_dumps k x kvs [] n rest Hkvs Hwf); [discriminate | cbn [size] in Hn; lia | exact Hr].
Qed.

Lemma length_join_cons {A} (f : A -> pystr) x y ys :
  List.length (join (lit ", ") (map f (x :: y :: ys))) = (List.length (f x) + 2 + List.length (join (lit ", ") (map f (y :: ys))))%nat.
Proof. rewrite join_dumps_cons, !length_app; change (List.length (lit ", ")) with 2%nat; lia. Qed.

Lemma list_sum_join {A} (f : A -> pystr) (g : A -> nat) x xs :
  Forall (fun y => (g y <= List.length (f y) + 1)%nat) (x :: xs) ->
  (list_sum (map g (x :: xs)) <= List.length (join (lit ", ") (map f (x :: xs))) + 1)%nat.
Proof.
  revert x; induction xs as [|y ys IH]; intros x H; inversion H as [|? ? Hx Hxs]; subst.
  - cbn [map list_sum fold_right join]; lia.
  - rewrite length_join_cons; specialize (IH y Hxs).
    change (list_sum (map g (x :: y :: ys))) with (g x + list_sum (map g (y :: ys)))%nat; lia.
Qed.

Lemma size_le_dumps v : wf v = true -> (size v <= List.length (dumps v))%nat.
Proof.
  induction v as [| b | z | x | s | l Hl | kvs Hkvs] using pyval_ind'; intros Hwf; cbn [size].
  - cbn; lia.
  - destruct b; cbn; lia.
  - cbn [dumps]; pose proof (int_repr_head z) as H; destruct (int_repr z); [contradiction | cbn [List.length]; lia].
  - destruct (dumps_head (PFloat x) Hwf) as (c & t & -> & _); cbn [List.length]; lia.
  - cbn [dumps]; unfold quote; rewrite !length_app; cbn [List.length]; lia.
  - destruct l as [|x xs]; [cbn; lia|].
    change (dumps (PList (x :: xs))) with ([91] ++ join (lit ", ") (map dumps (x :: xs)) ++ [93]).
    rewrite !length_app; cbn [List.length].
    pose proof (list_sum_join dumps (fun y => S (size y)) x xs) as H.
    assert (Forall (fun y => (S (size y) <= List.length (dumps y) + 1)%nat) (x :: xs)).
    { cbn [wf] in Hwf; apply Forall_forall; intros y Hy.
      rewrite Forall_forall in Hl; specialize (Hl y Hy).
      rewrite forallb_forall in Hwf; specialize (Hl (Hwf y Hy)); lia. }
    specialize (H H0); lia.
  - destruct kvs as [|[k x] kvs]; [cbn; lia|].
    change (dumps (PDict ((k, x) :: kvs)))
      with ([123] ++ join (lit ", ") (map member_text ((k, x) :: kvs)) ++ [125]).
    rewrite !length_app; cbn [List.length].
    pose proof (list_sum_join member_text (fun kv => S (size (snd kv))) (k, x) kvs) as H.
    assert (Hw : forall kv, In kv ((k, x) :: kvs) -> wf (snd kv) = true).
    { clear H Hkvs; revert Hwf; generalize ((k, x) :: kvs) as l; intros l Hwf.
      induction l as [|[k' x'] l IHl]; [contradiction|]; intros kv [<-|Hin];
        rewrite wf_dict_cons in Hwf; apply andb_prop in Hwf as [Hwf Hrest];
        apply andb_prop in Hwf as [_ Hx'];
        [exact Hx' | exact (IHl Hrest kv Hin)]. }
    assert (Forall (fun kv => (S (size (snd kv)) <= List.length (member_text kv) + 1)%nat) ((k, x) :: kvs)).
    { apply Forall_forall; intros [k' x'] Hin; rewrite Forall_forall in Hkvs.
      specialize (Hkvs _ Hin (Hw _ Hin)); cbn [snd] in *.
      unfold member_text, quote; rewrite !length_app; lia. }
    specialize (H H0); lia.
Qed.

(** Without a byte order mark in front, [loads] parses the text. *)
Lemma loads_result_nobom c t :
  c <> 65279 ->
  loads_result (c :: t)
  = match parse_value (S (List.length (c :: t))) (skip_ws (c :: t)) with
    | SOk v r => match skip_ws r with [] => Decoded v | r' => DecodeError "Extra data" r' end
    | SErr m a => DecodeError m a
    end.
Proof.
  intros Hc; unfold loads_result.
  destruct c as [|p|p]; try reflexivity.
  repeat (destruct p as [p|p|]; try reflexivity).
  exfalso; apply Hc; reflexivity.
Qed.

Lemma loads_result_cases s :
  loads_result s = DecodeError "Unexpected UTF-8 BOM (decode using utf-8-sig)" s
  \/ loads_result s
     = match parse_value (S (List.length s)) (skip_ws s) with
       | SOk v r => match skip_ws r with [] => Decoded v | r' => DecodeError "Extra data" r' end
       | SErr m a => DecodeError m a
       end.
Proof.
  destruct s as [|c t]; [right; reflexivity|].
  destruct (Z.eq_dec c 65279) as [->|Hc]; [left; reflexivity|].
  right; apply loads_result_nobom; exact Hc.
Qed.

Lemma loads_dumps v : wf v = true -> loads_text (dumps v) = Some v.
Proof.
  intros Hwf; unfold loads_text.
  destruct (dumps_head v Hwf) as (c & t & E & _ & _ & _ & Hc).
  rewrite E, loads_result_nobom by exact Hc; rewrite <- E.
  rewrite <- (app_nil_r (dumps v)), skip_ws_dumps by exact Hwf.
  rewrite (dumps_roundtrips v Hwf (S (List.length (dumps v ++ []))) []).
  - reflexivity.
  - rewrite app_nil_r; pose proof (size_le_dumps v Hwf); lia.
  - exact I.
Qed.

(** ** What [loads] returns is well formed *)

Definition suffix (r s : pystr) : Prop := exists p, s = p ++ r.

Lemma suffix_refl s : suffix s s.
Proof. exists []; reflexivity. Qed.

Lemma suffix_trans a b c : suffix a b -> suffix b c -> suffix a c.
Proof. intros [p ->] [q ->]; exists (q ++ p); rewrite app_assoc; reflexivity. Qed.

Lemma suffix_cons c r s : suffix r s -> suffix r (c :: s).
Proof. intros [p ->]; exists (c :: p); reflexivity. Qed.

Lemma suffix_nil s : suffix [] s.
Proof. exists s; rewrite app_nil_r; reflexivity. Qed.

Ltac sfx := first [apply suffix_refl | apply suffix_cons; sfx].

Lemma suffix_scalar r s : suffix r s -> forallb scalar s = true -> forallb scalar r = true.
Proof. intros [p ->] H; rewrite forallb_app in H; apply andb_prop in H; tauto. Qed.

Lemma suffix_skip_ws s : suffix (skip_ws s) s.
Proof.
  induction s as [|c s IH]; [apply suffix_refl|]; cbn [skip_ws].
  destruct (is_ws c); [apply suffix_cons, IH | apply suffix_refl].
Qed.

Lemma suffix_skipn n s : suffix (skipn n s) s.
Proof. exists (firstn n s); symmetry; apply firstn_skipn. Qed.

(** The text starts with the escape of a low surrogate that [scan_str]
    would pair with a high one before it. *)
Definition lead_low (s : pystr) : bool :=
  match s with
  | b :: v :: a1 :: a2 :: a3 :: a4 :: _ :: _ =>
      (b =? 92) && (v =? 117) && match hex4 a1 a2 a3 a4 with Some u => is_low u | None => false end
  | _ => false
  end.

Lemma hexval_range c x : hexval c = Some x -> 0 <= x < 16.
Proof.
  unfold hexval, is_digit; intros H.
  destruct ((48 <=? c) && (c <=? 57)) eqn:E1;
    [apply andb_prop in E1; destruct E1 as [E1 E2]; apply Z.leb_le in E1; apply Z.leb_le in E2;
     injection H as <-; lia|].
  destruct ((97 <=? c) && (c <=? 102)) eqn:E3;
    [apply andb_prop in E3; destruct E3 as [E3 E4]; apply Z.leb_le in E3; apply Z.leb_le in E4;
     injection H as <-; lia|].
  destruct ((65 <=? c) && (c <=? 70)) eqn:E5; [|discriminate].
  apply andb_prop in E5; destruct E5 as [E5 E6]; apply Z.leb_le in E5; apply Z.leb_le in E6;
    injection H as <-; lia.
Qed.

Lemma hex4_range a b c d u : hex4 a b c d = Some u -> 0 <= u < 65536.
Proof.
  unfold hex4; intros H.
  destruct (hexval a) eqn:Ea; [|discriminate]; destruct (hexval b) eqn:Eb; [|discriminate];
  destruct (hexval c) eqn:Ec; [|discriminate]; destruct (hexval d) eqn:Ed; [|discriminate].
  apply hexval_range in Ea; apply hexval_range in Eb; apply hexval_range in Ec; apply hexval_range in Ed.
  injection H as <-; lia.
Qed.

Lemma simple_escape_range e c : simple_escape e = Some c -> 0 <= c <= 92.
Proof.
  unfold simple_escape; intros H.
  repeat (destruct (_ =? _); [injection H as <-; lia|]); discriminate.
Qed.

Lemma high_range u : is_high u = true <-> 55296 <= u <= 56319.
Proof. unfold is_high; rewrite andb_true_iff, !Z.leb_le; tauto. Qed.

Lemma low_range u : is_low u = true <-> 56320 <= u <= 57343.
Proof. unfold is_low; rewrite andb_true_iff, !Z.leb_le; tauto. Qed.

(** What one step of [scan_str] produces: a code point in range that is
    a high surrogate only if the text after it does not start with an
    escape it would be paired with, and a low surrogate only if it was
    escaped. *)
Definition scan_char (c : Z) (s t : pystr) : Prop :=
  0 <= c <= 1114111
  /\ (is_high c = true -> lead_low t = false)
  /\ (is_low c = true -> lead_low s = true).

Lemma scan_step start s x r :
  forallb scalar s = true -> scan_str start s = SOk x r ->
  (x = [] /\ s = 34 :: r)
  \/ exists c x' t, x = c :: x' /\ scan_str start t = SOk x' r
       /\ (exists p, s = p ++ t /\ p <> []) /\ scan_char c s t.
Proof.
  intros Hs H.
  assert (Hcf : forall c t, scan_cons c (scan_str start t) = SOk x r ->
                  exists x', x = c :: x' /\ scan_str start t = SOk x' r).
  { intros c t Hc; destruct (scan_str start t) as [x' r'|m a]; cbn [scan_cons] in Hc; [|discriminate].
    injection Hc as <- <-; exists x'; split; reflexivity. }
  destruct s as [|c s']; [discriminate|].
  cbn [scan_str] in H.
  destruct (Z.eqb_spec c 34) as [->|H34]; [injection H as <- <-; left; split; reflexivity|].
  destruct (Z.eqb_spec c 92) as [->|H92].
  - destruct s' as [|e t]; [discriminate|].
    destruct (Z.eqb_spec e 117) as [->|He].
    + destruct t as [|h1 [|h2 [|h3 [|h4 [|y s2]]]]]; try discriminate.
      destruct (hex4 h1 h2 h3 h4) as [u|] eqn:Eh; [|discriminate].
      pose proof (hex4_range _ _ _ _ _ Eh) as Hu.
      destruct (is_high u) eqn:Ehi.
      * apply high_range in Ehi.
        assert (Hsingle : forall t, scan_cons u (scan_str start t) = SOk x r -> lead_low t = false ->
                  (x = [] /\ 92 :: 117 :: h1 :: h2 :: h3 :: h4 :: t = 34 :: r)
                  \/ exists c x' t', x = c :: x' /\ scan_str start t' = SOk x' r
                       /\ (exists p, 92 :: 117 :: h1 :: h2 :: h3 :: h4 :: t = p ++ t' /\ p <> [])
                       /\ scan_char c (92 :: 117 :: h1 :: h2 :: h3 :: h4 :: t) t').
        { intros t Ht Hl; apply Hcf in Ht; destruct Ht as (x' & -> & Ht); right.
          exists u, x', t; split; [reflexivity|]; split; [exact Ht|].
          split; [exists [92; 117; h1; h2; h3; h4]; split; [reflexivity | discriminate]|].
          split; [lia|]; split; intros Hc; [exact Hl | apply low_range in Hc; lia]. }
        destruct s2 as [|v [|l1 [|l2 [|l3 [|l4 [|z s3]]]]]];
          try (apply Hsingle; [exact H | reflexivity]).
        destruct ((y =? 92) && (v =? 117)) eqn:Ebv;
          [|apply Hsingle; [exact H | cbn [lead_low]; rewrite Ebv; reflexivity]].
        destruct (hex4 l1 l2 l3 l4) as [u2|] eqn:Eh2; [|discriminate].
        destruct (is_low u2) eqn:Elo;
          [|apply Hsingle; [exact H | cbn [lead_low]; rewrite Ebv, Eh2, Elo; reflexivity]].
        apply low_range in Elo; apply Hcf in H; destruct H as (x' & -> & H); right.
        exists (join_surrogates u u2), x', (z :: s3); split; [reflexivity|]; split; [exact H|].
        split; [exists [92; 117; h1; h2; h3; h4; y; v; l1; l2; l3; l4]; split; [reflexivity | discriminate]|].
        unfold join_surrogates; split; [lia|]; split; intros Hc;
          [apply high_range in Hc; lia | apply low_range in Hc; lia].
      * apply Hcf in H; destruct H as (x' & -> & H); right.
        exists u, x', (y :: s2); split; [reflexivity|]; split; [exact H|].
        split; [exists [92; 117; h1; h2; h3; h4]; split; [reflexivity | discriminate]|].
        split; [lia|]; split; intros Hc; [congruence|].
        cbn [lead_low]; rewrite Eh, Hc; reflexivity.
    + destruct (simple_escape e) as [c'|] eqn:Es; [|discriminate].
      apply Hcf in H; destruct H as (x' & -> & H);
      apply simple_escape_range in Es; right.
      eexists c', x', _; split; [reflexivity|]; split; [exact H|].
      split; [exists [92; e]; split; [reflexivity | discriminate]|].
      split; [lia|]; split; intros Hc; [apply high_range in Hc; lia | apply low_range in Hc; lia].
  - destruct (c <=? 31); [discriminate|].
    apply Hcf in H; destruct H as (x' & -> & H); right.
    cbn [forallb] in Hs; apply andb_prop in Hs; destruct Hs as [Hc _].
    unfold scalar in Hc; apply andb_prop in Hc; destruct Hc as [Hc Hhl].
    apply andb_prop in Hc; destruct Hc as [Hc0 Hc1]; apply Z.leb_le in Hc0; apply Z.leb_le in Hc1.
    apply negb_true_iff, orb_false_iff in Hhl; destruct Hhl as [Hh Hl].
    exists c, x', s'; split; [reflexivity|]; split; [exact H|].
    split; [exists [c]; split; [reflexivity | discriminate]|].
    split; [lia|]; split; intros; congruence.
Qed.

Lemma scan_ok start n : forall s x r, (List.length s <= n)%nat ->
  forallb scalar s = true -> scan_str start s = SOk x r -> str_ok x = true /\ suffix r s.
Proof.
  induction n as [|n IH]; intros s x r Hlen Hs H.
  - destruct s; [discriminate | cbn [List.length] in Hlen; lia].
  - destruct (scan_step start s x r Hs H)
      as [[-> ->] | (c & x' & t & -> & Ht & (p & Hp & Hpn) & Hc0 & Hhi & Hlo)].
    + split; [reflexivity | exists [34]; reflexivity].
    + assert (Hts : forallb scalar t = true) by (apply (suffix_scalar t s); [exists p; exact Hp | exact Hs]).
      assert (Hlt : (List.length t <= n)%nat)
        by (subst s; rewrite length_app in Hlen; destruct p; [congruence | cbn [List.length] in Hlen; lia]).
      destruct (IH t x' r Hlt Hts Ht) as [Hx' Hr].
      split; [|exact (suffix_trans r t s Hr (ex_intro _ p Hp))].
      cbn [str_ok]; rewrite Hx', andb_true_r.
      apply andb_true_intro; split; [apply andb_true_intro; split; apply Z.leb_le; lia|].
      destruct x' as [|d x'']; [reflexivity|].
      apply negb_true_iff; destruct (is_high c) eqn:Eh; [|reflexivity]; cbn [andb].
      specialize (Hhi eq_refl).
      destruct (is_low d) eqn:El; [|reflexivity].
      destruct (scan_step start t (d :: x'') r Hts Ht)
        as [[? _] | (d' & x3 & t' & Hd & _ & _ & _ & _ & Hlo')]; [discriminate|].
      injection Hd as <- _; rewrite (Hlo' El) in Hhi; discriminate.
Qed.

Lemma scan_str_ok start s x r :
  forallb scalar s = true -> scan_str start s = SOk x r -> str_ok x = true /\ suffix r s.
Proof. apply (scan_ok start (List.length s)); lia. Qed.

Lemma span_digits_split s : s = fst (span_digits s) ++ snd (span_digits s).
Proof.
  induction s as [|c s IH]; [reflexivity|]; cbn [span_digits].
  destruct (is_digit c); [|reflexivity].
  destruct (span_digits s) as [ds r]; cbn [fst snd] in *; rewrite IH at 1; reflexivity.
Qed.

Lemma suffix_span s : suffix (snd (span_digits s)) s.
Proof. exists (fst (span_digits s)); apply span_digits_split. Qed.

Lemma span_digits_digits s : digits (fst (span_digits s)).
Proof.
  induction s as [|c s IH]; cbn [span_digits]; [constructor|].
  destruct (is_digit c) eqn:E; [|constructor].
  destruct (span_digits s) as [ds r]; cbn [fst] in *; constructor; assumption.
Qed.

Lemma int_part_ok s ip s2 : int_part s = Some (ip, s2) -> digits ip /\ suffix s2 s.
Proof.
  unfold int_part; destruct s as [|c t]; [discriminate|].
  pose proof (span_digits_digits (c :: t)) as Hd; pose proof (suffix_span (c :: t)) as Hs.
  destruct (span_digits (c :: t)) as [a b] eqn:Esp; cbn [fst snd] in Hd, Hs.
  destruct (Z.eqb_spec c 48) as [->|_]; [intros H; injection H as <- <-; split; [repeat constructor | sfx]|].
  destruct (is_digit c); [|discriminate]; intros H; injection H as <- <-; split; assumption.
Qed.

Lemma frac_part_ok s fp s3 : frac_part s = (fp, s3) -> digits fp /\ suffix s3 s.
Proof.
  unfold frac_part; destruct s as [|c [|d t]]; try (intros H; injection H as <- <-; split; [constructor | apply suffix_refl]).
  destruct ((c =? 46) && is_digit d); [|intros H; injection H as <- <-; split; [constructor | apply suffix_refl]].
  intros H; pose proof (span_digits_digits (d :: t)) as Hd; pose proof (suffix_span (d :: t)) as Hs.
  rewrite H in Hd, Hs; cbn [fst snd] in Hd, Hs; split; [exact Hd | apply suffix_cons; exact Hs].
Qed.

Lemma exp_part_ok s ex s4 : exp_part s = (ex, s4) -> suffix s4 s.
Proof.
  intros Ex.
  assert (Hd : forall sg t fb e0 s0, exp_digits sg t fb = (e0, s0) -> suffix t s -> suffix fb s -> suffix s0 s).
  { intros sg t fb e0 s0 He Ht Hfb; unfold exp_digits in He.
    pose proof (suffix_span t) as Hst.
    destruct (span_digits t) as [[|d ds] r0]; cbn [snd] in *; injection He as _ <-;
      [exact Hfb | exact (suffix_trans _ _ _ Hst Ht)]. }
  unfold exp_part in Ex; destruct s as [|c t]; [injection Ex as _ <-; apply suffix_refl|].
  destruct ((c =? 101) || (c =? 69)); [|injection Ex as _ <-; apply suffix_refl].
  destruct t as [|d t']; [injection Ex as _ <-; apply suffix_refl|].
  destruct (d =? 43); [|destruct (d =? 45)]; (eapply Hd; [exact Ex | ..]); sfx.
Qed.

Lemma number_ok s v r : parse_number s = Some (v, r) -> wf v = true /\ suffix r s.
Proof.
  unfold parse_number; intros H.
  destruct (match s with c :: t => if c =? 45 then (true, t) else (false, s) | [] => (false, s) end)
    as [neg s1] eqn:E.
  assert (Hs1 : suffix s1 s).
  { destruct s as [|c t]; [injection E as _ <-; apply suffix_refl|].
    destruct (c =? 45); injection E as _ <-; [apply suffix_cons, suffix_refl | apply suffix_refl]. }
  destruct (int_part s1) as [[ip s2]|] eqn:Ei; [|discriminate].
  destruct (int_part_ok _ _ _ Ei) as [Hip H2].
  destruct (frac_part s2) as [fp s3] eqn:Ef.
  destruct (frac_part_ok _ _ _ Ef) as [Hfp H3].
  destruct (exp_part s3) as [ex s4] eqn:Ex.
  pose proof (exp_part_ok _ _ _ Ex) as H4.
  assert (Hr : suffix s4 s) by eauto using suffix_trans.
  assert (Hv : wf (PFloat (numtext_value (mkNumtext neg ip fp ex))) = true).
  { cbn [wf]; unfold numtext_value; apply b64_of_decimal_valid, digits_value_nonneg.
    apply Forall_app; split; assumption. }
  destruct fp, ex; injection H as <- <-; (split; [first [exact Hv | reflexivity] | exact Hr]).
Qed.

Definition keq (k k' : pystr) : bool := if list_eq_dec Z.eq_dec k k' then true else false.

Lemma key_in_dict_set k acc k' v : key_in k (dict_set acc k' v) = key_in k acc || keq k k'.
Proof.
  unfold keq; induction acc as [|[k1 x1] acc IH]; cbn [dict_set key_in].
  - destruct (list_eq_dec Z.eq_dec k k'); reflexivity.
  - destruct (list_eq_dec Z.eq_dec k' k1) as [E|Hne]; cbn [key_in];
      destruct (list_eq_dec Z.eq_dec k k1) as [E2|Hne2]; try reflexivity.
    + subst; destruct (list_eq_dec Z.eq_dec k k1); [congruence | symmetry; apply orb_false_r].
    + exact IH.
Qed.

Lemma wf_dict_set acc k v :
  wf (PDict acc) = true -> str_ok k = true -> wf v = true -> wf (PDict (dict_set acc k v)) = true.
Proof.
  induction acc as [|[k1 x1] acc IH]; intros Ha Hk Hv.
  - cbn [dict_set]; rewrite wf_dict_cons, Hk, Hv; reflexivity.
  - rewrite wf_dict_cons in Ha; apply andb_prop in Ha; destruct Ha as [Ha Hrest].
    apply andb_prop in Ha; destruct Ha as [Ha Hx1]; apply andb_prop in Ha; destruct Ha as [Hf Hk1].
    cbn [dict_set]; destruct (list_eq_dec Z.eq_dec k k1) as [->|Hne].
    + rewrite wf_dict_cons, Hf, Hk1, Hv, Hrest; reflexivity.
    + rewrite wf_dict_cons, key_in_dict_set, Hk1, Hx1, IH by assumption.
      apply negb_true_iff in Hf; rewrite Hf; unfold keq.
      destruct (list_eq_dec Z.eq_dec k1 k); [congruence | reflexivity].
Qed.

Lemma scalar_tail c s : forallb scalar (c :: s) = true -> forallb scalar s = true.
Proof. cbn [forallb]; intros H; apply andb_prop in H; tauto. Qed.

Lemma suffix_ws s c r : skip_ws s = c :: r -> suffix r s.
Proof. intros E; pose proof (suffix_skip_ws s) as W; rewrite E in W; exact (suffix_trans _ _ _ (suffix_cons c r r (suffix_refl r)) W). Qed.

Lemma suffix_ws' s c r : skip_ws s = c :: r -> suffix (c :: r) s.
Proof. intros E; pose proof (suffix_skip_ws s) as W; rewrite E in W; exact W. Qed.

Lemma parse_ok n :
  (forall s v r, forallb scalar s = true -> parse_value n s = SOk v r -> wf v = true /\ suffix r s) /\
  (forall s acc v r, forallb scalar s = true -> forallb wf acc = true ->
     parse_elements n s acc = SOk v r -> wf v = true /\ suffix r s) /\
  (forall s acc v r, forallb scalar s = true -> wf (PDict acc) = true ->
     parse_members n s acc = SOk v r -> wf v = true /\ suffix r s).
Proof.
  induction n as [|n (IHv & IHe & IHm)];
    [split; [|split]; intros; cbn in *; discriminate|].
  split; [|split].
  - intros s v r Hs H; destruct s as [|c s']; [discriminate|].
    pose proof (scalar_tail _ _ Hs) as Hs'.
    cbn [parse_value] in H.
    destruct (c =? 34).
    { destruct (scan_str (c :: s') s') as [str r1|m a] eqn:Es; [|discriminate]; injection H as <- <-.
      destruct (scan_str_ok _ _ _ _ Hs' Es) as [Hok Hsf]; split; [exact Hok | apply suffix_cons, Hsf]. }
    destruct (c =? 123).
    { destruct (skip_ws s') as [|c1 r1] eqn:Ew.
      - destruct (IHm [] [] v r eq_refl eq_refl H) as [Hv Hr].
        split; [exact Hv|]; destruct Hr as [p Hp]; symmetry in Hp; apply app_eq_nil in Hp as [_ ->].
        apply suffix_nil.
      - destruct (c1 =? 125).
        + injection H as <- <-; split; [reflexivity|]; apply suffix_cons; exact (suffix_ws _ _ _ Ew).
        + pose proof (suffix_ws' _ _ _ Ew) as W.
          destruct (IHm _ [] _ _ (suffix_scalar _ _ W Hs') eq_refl H) as [Hv Hr].
          split; [exact Hv | apply suffix_cons; exact (suffix_trans _ _ _ Hr W)]. }
    destruct (c =? 91).
    { destruct (skip_ws s') as [|c1 r1] eqn:Ew.
      - destruct (IHe [] [] v r eq_refl eq_refl H) as [Hv Hr].
        split; [exact Hv|]; destruct Hr as [p Hp]; symmetry in Hp; apply app_eq_nil in Hp as [_ ->].
        apply suffix_nil.
      - destruct (c1 =? 93).
        + injection H as <- <-; split; [reflexivity|]; apply suffix_cons; exact (suffix_ws _ _ _ Ew).
        + pose proof (suffix_ws' _ _ _ Ew) as W.
          destruct (IHe _ [] _ _ (suffix_scalar _ _ W Hs') eq_refl H) as [Hv Hr].
          split; [exact Hv | apply suffix_cons; exact (suffix_trans _ _ _ Hr W)]. }
    repeat match type of H with
    | (if starts_with ?p ?x then SOk ?v0 (skipn ?k ?x) else _) = _ =>
        destruct (starts_with p x);
        [injection H as <- <-; split; [reflexivity | exact (suffix_skipn k x)]|]
    end.
    destruct (parse_number (c :: s')) as [[v1 r1]|] eqn:Ep; [|discriminate].
    injection H as <- <-; exact (number_ok _ _ _ Ep).
  - intros s acc v r Hs Hacc H; cbn [parse_elements] in H.
    destruct (parse_value n s) as [v1 r1|m a] eqn:Ev; [|discriminate].
    destruct (IHv _ _ _ Hs Ev) as [Hv1 Hr1].
    destruct (skip_ws r1) as [|c r'] eqn:Ew; [discriminate|].
    pose proof (suffix_trans _ _ _ (suffix_ws _ _ _ Ew) Hr1) as W.
    assert (Hacc' : forallb wf (acc ++ [v1]) = true)
      by (rewrite forallb_app, Hacc; cbn [forallb]; rewrite Hv1; reflexivity).
    destruct (c =? 93); [injection H as <- <-; split; [exact Hacc' | exact W]|].
    destruct (c =? 44); [|discriminate].
    pose proof (suffix_trans _ _ _ (suffix_skip_ws r') W) as W'.
    destruct (IHe _ _ _ _ (suffix_scalar _ _ W' Hs) Hacc' H) as [Hv Hr].
    split; [exact Hv | exact (suffix_trans _ _ _ Hr W')].
  - intros s acc v r Hs Hacc H; destruct s as [|c s']; [cbn in H; discriminate|].
    pose proof (scalar_tail _ _ Hs) as Hs'.
    cbn [parse_members] in H.
    destruct (c =? 34); [|discriminate].
    destruct (scan_str (c :: s') s') as [k r1|m a] eqn:Es; [|discriminate].
    destruct (scan_str_ok _ _ _ _ Hs' Es) as [Hk Hr1].
    destruct (skip_ws r1) as [|c2 r2] eqn:Ew; [discriminate|].
    pose proof (suffix_trans _ _ _ (suffix_ws _ _ _ Ew) Hr1) as W2.
    destruct (c2 =? 58); [|discriminate].
    pose proof (suffix_trans _ _ _ (suffix_skip_ws r2) W2) as W2'.
    destruct (parse_value n (skip_ws r2)) as [v1 r3|m a] eqn:Ev; [|discriminate].
    destruct (IHv _ _ _ (suffix_scalar _ _ W2' Hs') Ev) as [Hv1 Hr3].
    destruct (skip_ws r3) as [|c3 r4] eqn:Ew3; [discriminate|].
    pose proof (suffix_trans _ _ _ (suffix_trans _ _ _ (suffix_ws _ _ _ Ew3) Hr3) W2') as W4.
    pose proof (wf_dict_set acc k v1 Hacc Hk Hv1) as Hd.
    destruct (c3 =? 125); [injection H as <- <-; split; [exact Hd | apply suffix_cons, W4]|].
    destruct (c3 =? 44); [|discriminate].
    pose proof (suffix_trans _ _ _ (suffix_skip_ws r4) W4) as W5.
    destruct (IHm _ _ _ _ (suffix_scalar _ _ W5 Hs') Hd H) as [Hv Hr].
    split; [exact Hv | apply suffix_cons; exact (suffix_trans _ _ _ Hr W5)].
Qed.

Lemma loads_wf s v : forallb scalar s = true -> loads_text s = Some v -> wf v = true.
Proof.
  unfold loads_text; intros Hs H.
  destruct (loads_result_cases s) as [E|E]; rewrite E in H; [discriminate|].
  destruct (parse_value _ (skip_ws s)) as [v1 r|m a] eqn:Ev; [|discriminate].
  destruct (skip_ws r); [|discriminate]; injection H as <-.
  exact (proj1 ((proj1 (parse_ok _)) _ _ _ (suffix_scalar _ _ (suffix_skip_ws s) Hs) Ev)).
Qed.

Lemma file_get_set fs p c : PostScale.file_get (PostScale.file_set fs p c) p = Some c.
Proof.
  induction fs as [|[p' c'] fs IH]; cbn [PostScale.file_set PostScale.file_get].
  - destruct (list_eq_dec Z.eq_dec p p); [reflexivity | congruence].
  - destruct (list_eq_dec Z.eq_dec p p') as [E|Hne]; cbn [PostScale.file_get].
    + destruct (list_eq_dec Z.eq_dec p p'); [reflexivity | congruence].
    + destruct (list_eq_dec Z.eq_dec p p'); [congruence | exact IH].
Qed.

Lemma file_set_set fs p a b :
  PostScale.file_set (PostScale.file_set fs p a) p b = PostScale.file_set fs p b.
Proof.
  induction fs as [|[p' c'] fs IH]; cbn [PostScale.file_set].
  - destruct (list_eq_dec Z.eq_dec p p); [reflexivity | congruence].
  - destruct (list_eq_dec Z.eq_dec p p') as [E|Hne]; cbn [PostScale.file_set].
    + destruct (list_eq_dec Z.eq_dec p p'); [reflexivity | congruence].
    + destruct (list_eq_dec Z.eq_dec p p'); [congruence | rewrite IH; reflexivity].
Qed.

Lemma post_scale_run fs doc v :
  loads_text doc = Some v ->
  run_with fs (PostScale.main doc)
  = mkOutcome [] [] 0 (PostScale.file_set fs PostScale.data_path (dumps v)).
Proof.
  intros H; unfold run_with, PostScale.main.
  rewrite (bind_ok _ _ _ _ _ (json_loads_ok doc v _ H)).
  unfold bind, PostScale.open_truncate, PostScale.file_write; cbn [io_out io_err io_files].
  rewrite file_get_set, file_set_set; reflexivity.
Qed.

(** C9 (post-scale hook round trip): for every input text of Unicode
    scalar values that [json.loads] accepts, with [v] the parsed document,
    the hook exits with status 0 and writes nothing to its streams; the file
    [/post_scale_data.json] holds exactly [json.dumps(v)] whatever it held
    before; and parsing that file gives back [v]. *)
Theorem post_scale_round_trip fs doc v :
  forallb scalar doc = true -> loads_text doc = Some v ->
  run_with fs (PostScale.main doc)
    = mkOutcome [] [] 0 (PostScale.file_set fs PostScale.data_path (dumps v))
  /\ PostScale.file_get (PostScale.file_set fs PostScale.data_path (dumps v)) PostScale.data_path
     = Some (dumps v)
  /\ loads_text (dumps v) = Some v.
Proof.
  intros Hs H; split; [exact (post_scale_run fs doc v H)|].
  split; [apply file_get_set | exact (loads_dumps v (loads_wf doc v Hs H))].
Qed.

Definition c9_doc : pystr :=
  jtext "{'a': [1, 2.50, {'b': null}], 'a': true, 'f': 2.50, 's': '\ud83d\ude00'}".
Definition c9_value : pyval :=
  PDict [(lit "a", PBool true); (lit "f", PFloat (B64Fin false (5 * 2 ^ 50) (-51))); (lit "s", PStr [128512])].
Definition c9_files : list (pystr * pystr) := [(PostScale.data_path, lit "old")].

Lemma post_scale_round_trip_witness :
  forallb scalar c9_doc = true /\ loads_text c9_doc = Some c9_value
  /\ run_with c9_files (PostScale.main c9_doc)
     = mkOutcome [] [] 0 [(PostScale.data_path, jtext "{'a': true, 'f': 2.5, 's': '\ud83d\ude00'}")].
Proof.
  split; [vm_compute; reflexivity|]; split; [vm_compute; reflexivity|].
  destruct (post_scale_round_trip c9_files c9_doc c9_value
              ltac:(vm_compute; reflexivity) ltac:(vm_compute; reflexivity)) as [E _].
  rewrite E; vm_compute; reflexivity.
Defined.

(** * Further properties of the scripts *)




(** [scale-on-tweet/evaluate.py] stops with exit status 1 and the message
    [Expected 1 metric] on standard error, and nothing on standard output,
    for any list or dictionary of metrics whose length is not 1. *)
Theorem tweet_evaluator_requires_one_metric :
  (forall l, List.length l <> 1%nat ->
     run (ScaleOnTweet.evaluate (PList l)) = mkOutcome [] (lit "Expected 1 metric") 1 [])
  /\ (forall kvs, List.length kvs <> 1%nat ->
     run (ScaleOnTweet.evaluate (PDict kvs)) = mkOutcome [] (lit "Expected 1 metric") 1 []).
Proof.
  split; intros l H; unfold run, run_with, ScaleOnTweet.evaluate, bind, py_len, ret;
    (replace (Z.of_nat (List.length l) =? 1) with false by (symmetry; apply Z.eqb_neq; lia));
    reflexivity.
Qed.

Lemma tweet_evaluator_requires_one_metric_witness :
  run (ScaleOnTweet.evaluate (PList [])) = mkOutcome [] (lit "Expected 1 metric") 1 []
  /\ run (ScaleOnTweet.evaluate (PDict [(lit "a", PNone); (lit "b", PNone)]))
     = mkOutcome [] (lit "Expected 1 metric") 1 [].
Proof.
  split; [apply (proj1 tweet_evaluator_requires_one_metric) | apply (proj2 tweet_evaluator_requires_one_metric)];
    cbn; lia.
Defined.

(** [custom-autoscaler/evaluate.py] accepts a float metric value: [int()]
    truncates a finite float towards zero and the evaluator writes twice the
    truncated value ([-2.5] gives [-4]); an infinite float makes [int()]
    raise [OverflowError], which the [except ValueError] clause does not
    catch. *)
Theorem custom_autoscaler_truncates_float :
  forall (spec rm m0 : pyval) (rest : list pyval) (x : binary64),
    get spec "resourceMetrics" = Some rm ->
    get rm "metrics" = Some (PList (m0 :: rest)) ->
    get m0 "value" = Some (PFloat x) ->
    (forall z, b64_trunc x = Some z ->
       run (CustomAutoscaler.evaluate spec)
       = mkOutcome (evaluation_doc "targetReplicas" (z * 2)) [] 0 [])
    /\ (forall neg, x = B64Inf neg ->
       run (CustomAutoscaler.evaluate spec)
       = mkOutcome []
           (traceback (Exc OverflowError (lit "cannot convert float infinity to integer") None)) 1 []).
Proof.
  intros spec rm m0 rest x Hrm Hms Hv; split.
  - intros z Hz; unfold run, run_with, CustomAutoscaler.evaluate, try_except.
    do 4 step.
    erewrite bind_ok by (apply py_int_ok; exact Hz).
    reflexivity.
  - intros neg ->; unfold run, run_with, CustomAutoscaler.evaluate, try_except.
    do 4 step.
    reflexivity.
Qed.

Definition float_metric_input (x : binary64) : pyval :=
  PDict [(lit "resourceMetrics",
          PDict [(lit "metrics", PList [PDict [(lit "value", PFloat x)]])])].

Lemma custom_autoscaler_truncates_float_witness :
  b64_trunc (B64Fin true (5 * 2 ^ 50) (-51)) = Some (-2)
  /\ run (CustomAutoscaler.evaluate (float_metric_input (B64Fin true (5 * 2 ^ 50) (-51))))
     = mkOutcome (jtext "{'targetReplicas': -4}") [] 0 [].
Proof.
  split; [vm_compute; reflexivity|].
  rewrite (proj1 (custom_autoscaler_truncates_float
                    (float_metric_input (B64Fin true (5 * 2 ^ 50) (-51))) _ _ [] _
                    eq_refl eq_refl eq_refl) (-2) ltac:(vm_compute; reflexivity)).
  vm_compute; reflexivity.
Defined.

(** [custom-autoscaler/evaluate.py] catches [ValueError] only: an empty metric
    list escapes as an [IndexError] and a value [int()] rejects by type (not a
    string and not a number) escapes as a [TypeError], each with a traceback
    and exit status 1 instead of the [Invalid metric value] message. *)
Theorem custom_autoscaler_handles_only_value_error :
  forall (spec rm : pyval),
    get spec "resourceMetrics" = Some rm ->
    (get rm "metrics" = Some (PList []) ->
       run (CustomAutoscaler.evaluate spec)
       = mkOutcome [] (traceback (Exc IndexError (lit "list index out of range") None)) 1 [])
    /\ (forall m0 rest v, get rm "metrics" = Some (PList (m0 :: rest)) ->
         get m0 "value" = Some v -> int_value v = None -> (forall s, v <> PStr s) ->
         (forall x, v <> PFloat x) ->
         run (CustomAutoscaler.evaluate spec)
         = mkOutcome []
             (traceback (Exc TypeError
                (lit "int() argument must be a string, a bytes-like object or a real number") None))
             1 []).
Proof.
  intros spec rm Hrm; split.
  - intros Hms; unfold run, run_with, CustomAutoscaler.evaluate, try_except.
    do 2 step; reflexivity.
  - intros m0 rest v Hms Hv Hi Hs Hf; unfold run, run_with, CustomAutoscaler.evaluate, try_except.
    do 4 step.
    erewrite bind_exn
      by (unfold py_int; rewrite Hi; destruct v; try reflexivity; exfalso;
          first [eapply Hs; reflexivity | eapply Hf; reflexivity]).
    reflexivity.
Qed.

Lemma custom_autoscaler_handles_only_value_error_witness :
  run (CustomAutoscaler.evaluate (PDict [(lit "resourceMetrics", PDict [(lit "metrics", PList [])])]))
  = mkOutcome [] (traceback (Exc IndexError (lit "list index out of range") None)) 1 []
  /\ run (CustomAutoscaler.evaluate
            (PDict [(lit "resourceMetrics", PDict [(lit "metrics", PList [PDict [(lit "value", PNone)]])])]))
     = mkOutcome []
         (traceback (Exc TypeError
            (lit "int() argument must be a string, a bytes-like object or a real number") None)) 1 [].
Proof.
  split.
  - apply (proj1 (custom_autoscaler_handles_only_value_error
                    (PDict [(lit "resourceMetrics", PDict [(lit "metrics", PList [])])]) _ eq_refl) eq_refl).
  - apply (proj2 (custom_autoscaler_handles_only_value_error
                    (PDict [(lit "resourceMetrics", PDict [(lit "metrics", PList [PDict [(lit "value", PNone)]])])])
                    _ eq_refl) _ [] PNone eq_refl eq_refl eq_refl).
    all: discriminate.
Defined.

(** [zero-scaler/metric.py] writes the [numPods] label with
    [sys.stdout.write], which only takes a string: a label value of any other
    type ends in a [TypeError] traceback, exit status 1, nothing written. *)
Theorem zero_scaler_non_string_label :
  forall (spec resource metadata v : pyval) (kvs : list (pystr * pyval)),
    get spec "resource" = Some resource ->
    get resource "metadata" = Some metadata ->
    get metadata "labels" = Some (PDict kvs) ->
    dict_get kvs (lit "numPods") = Some v -> (forall s, v <> PStr s) ->
    run (ZeroScaler.metric spec)
    = mkOutcome [] (traceback (Exc TypeError (lit "write() argument must be str") None)) 1 [].
Proof.
  intros spec resource metadata v kvs Hr Hm Hl Hn Hs; unfold run, run_with, ZeroScaler.metric.
  do 4 step; rewrite Hn.
  erewrite bind_ok by (apply item_get; exact Hn).
  destruct v; try reflexivity; exfalso; eapply Hs; reflexivity.
Qed.

Definition labels_input (labels : list (pystr * pyval)) : pyval :=
  PDict [(lit "resource", PDict [(lit "metadata", PDict [(lit "labels", PDict labels)])])].

Lemma zero_scaler_non_string_label_witness :
  run (ZeroScaler.metric (labels_input [(lit "numPods", PInt 3)]))
  = mkOutcome [] (traceback (Exc TypeError (lit "write() argument must be str") None)) 1 [].
Proof.
  apply (zero_scaler_non_string_label (labels_input [(lit "numPods", PInt 3)]) _ _ (PInt 3) _
           eq_refl eq_refl eq_refl eq_refl); discriminate.
Defined.

(** Both remote probes write the body of whatever response the pod returns,
    and exit 0, whatever its HTTP status: [raise_for_status] is never called,
    so a 500 response is forwarded as a metric. *)
Theorem probes_forward_any_response :
  (forall net pod status ip code text,
     get pod "status" = Some status -> get status "podIP" = Some ip ->
     net (probe_url ip) = RemoteProbe.Response code text ->
     run (RemoteProbe.metric net pod) = mkOutcome text [] 0 [])
  /\ (forall net spec resource status ip code text,
     get spec "resource" = Some resource -> get resource "status" = Some status ->
     get status "podIP" = Some ip ->
     net (probe_url ip) = RemoteProbe.Response code text ->
     run (DownscaleStabilization.metric net spec) = mkOutcome text [] 0 []).
Proof.
  split.
  - intros net pod status ip code text Hs Hip Hnet.
    unfold run, run_with, RemoteProbe.metric; do 2 step; unfold try_except.
    erewrite bind_ok
      by (unfold RemoteProbe.requests_get; unfold probe_url in Hnet; rewrite Hnet; reflexivity).
    reflexivity.
  - intros net spec resource status ip code text Hr Hs Hip Hnet.
    unfold run, run_with, DownscaleStabilization.metric; do 3 step; unfold try_except.
    erewrite bind_ok
      by (unfold RemoteProbe.requests_get; unfold probe_url in Hnet; rewrite Hnet; reflexivity).
    reflexivity.
Qed.

Definition pod_at (ip : string) : pyval := PDict [(lit "status", PDict [(lit "podIP", PStr (lit ip))])].

Definition server_error_net (url : pystr) : RemoteProbe.http_result :=
  RemoteProbe.Response 500 (lit "Internal Server Error").

Lemma probes_forward_any_response_witness :
  run (RemoteProbe.metric server_error_net (pod_at "10.0.0.1"))
  = mkOutcome (lit "Internal Server Error") [] 0 []
  /\ run (DownscaleStabilization.metric server_error_net (PDict [(lit "resource", pod_at "10.0.0.1")]))
     = mkOutcome (lit "Internal Server Error") [] 0 [].
Proof.
  split.
  - apply (proj1 probes_forward_any_response server_error_net (pod_at "10.0.0.1") _ (PStr (lit "10.0.0.1")) 500
             _ eq_refl eq_refl eq_refl).
  - apply (proj2 probes_forward_any_response server_error_net (PDict [(lit "resource", pod_at "10.0.0.1")])
             _ _ (PStr (lit "10.0.0.1")) 500 _ eq_refl eq_refl eq_refl eq_refl).
Defined.

(** The probe of [downscale-stabilization/metric.py] fails like the one of
    [python/metric.py]: any exception of the request reaches the first
    [except] clause, whose name [HTTPError] is unbound, so the run ends in a
    [NameError] traceback raised while handling it, with exit status 1. *)
Theorem downscale_probe_failure_is_name_error :
  forall (net : pystr -> RemoteProbe.http_result) (spec resource status ip : pyval)
         (c : exc_class) (m : pystr),
    get spec "resource" = Some resource ->
    get resource "status" = Some status ->
    get status "podIP" = Some ip ->
    net (probe_url ip) = RemoteProbe.Failure c m ->
    run (DownscaleStabilization.metric net spec)
    = mkOutcome [] (traceback (name_error_HTTPError (Exc c m None))) 1 [].
Proof.
  intros net spec resource status ip c m Hr Hs Hip Hnet.
  unfold run, run_with, DownscaleStabilization.metric.
  do 3 step; unfold try_except.
  erewrite bind_exn
    by (unfold RemoteProbe.requests_get; unfold probe_url in Hnet; rewrite Hnet; reflexivity).
  reflexivity.
Qed.

Definition timeout_net (url : pystr) : RemoteProbe.http_result :=
  RemoteProbe.Failure RequestsTimeout (lit "timed out").

Lemma downscale_probe_failure_is_name_error_witness :
  run (DownscaleStabilization.metric timeout_net (PDict [(lit "resource", pod_at "10.0.0.1")]))
  = mkOutcome [] (traceback (name_error_HTTPError (Exc RequestsTimeout (lit "timed out") None))) 1 [].
Proof.
  apply (downscale_probe_failure_is_name_error timeout_net (PDict [(lit "resource", pod_at "10.0.0.1")])
           _ _ (PStr (lit "10.0.0.1")) RequestsTimeout (lit "timed out") eq_refl eq_refl eq_refl eq_refl).
Defined.

(** When the pod status has no [podIP] field, both remote probes stop with
    a [KeyError] traceback and exit status 1 before any request, whatever
    the network does: the lookup is outside the [try] block. *)
Theorem probes_without_pod_ip_make_no_request :
  (forall net pod kvs,
     get pod "status" = Some (PDict kvs) -> dict_get kvs (lit "podIP") = None ->
     run (RemoteProbe.metric net pod)
     = mkOutcome [] (traceback (Exc KeyError (lit "'podIP'") None)) 1 [])
  /\ (forall net spec resource kvs,
     get spec "resource" = Some resource -> get resource "status" = Some (PDict kvs) ->
     dict_get kvs (lit "podIP") = None ->
     run (DownscaleStabilization.metric net spec)
     = mkOutcome [] (traceback (Exc KeyError (lit "'podIP'") None)) 1 []).
Proof.
  split.
  - intros net pod kvs Hs Hn; unfold run, run_with, RemoteProbe.metric.
    step; unfold bind at 1, item, py_getitem; rewrite Hn; reflexivity.
  - intros net spec resource kvs Hr Hs Hn; unfold run, run_with, DownscaleStabilization.metric.
    do 2 step; unfold bind at 1, item, py_getitem; rewrite Hn; reflexivity.
Qed.

Lemma probes_without_pod_ip_make_no_request_witness :
  run (RemoteProbe.metric timeout_net (PDict [(lit "status", PDict [(lit "phase", PStr (lit "Pending"))])]))
  = mkOutcome [] (traceback (Exc KeyError (lit "'podIP'") None)) 1 [].
Proof.
  apply (proj1 probes_without_pod_ip_make_no_request timeout_net
           (PDict [(lit "status", PDict [(lit "phase", PStr (lit "Pending"))])]) _ eq_refl eq_refl).
Defined.

Definition increment_reply (g : Z) (i : nat) : MetricApp.reply :=
  if g + Z.of_nat i <=? MetricApp.MAX_METRIC then MetricApp.Body (MetricApp.snapshot (g + Z.of_nat i))
  else MetricApp.Abort 400 (lit "Metric cannot be incremented beyond 5").

Definition decrement_reply (g : Z) (i : nat) : MetricApp.reply :=
  if MetricApp.MIN_METRIC <=? g - Z.of_nat i then MetricApp.Body (MetricApp.snapshot (g - Z.of_nat i))
  else MetricApp.Abort 400 (lit "Metric cannot be decremented below 0").

Lemma map_seq_shift {A} (f h : nat -> A) n :
  (forall i, (1 <= i)%nat -> f i = h (S i)) -> map f (seq 1 n) = map h (seq 2 n).
Proof.
  intros H; rewrite <- (seq_shift n 1), map_map; apply map_ext_in.
  intros i Hi; apply in_seq in Hi; apply H; lia.
Qed.

(** From a value within [[MIN_METRIC, MAX_METRIC]], [n] increments of
    [python/app/api.py] answer with the snapshots of the values up to
    [MAX_METRIC] and then with 400 aborts, leaving [min (g + n) MAX_METRIC];
    decrements likewise stop at [MIN_METRIC]. *)
Theorem metric_app_saturates :
  forall (g : Z) (n : nat),
    MetricApp.MIN_METRIC <= g <= MetricApp.MAX_METRIC ->
    MetricApp.serve g (repeat MetricApp.PostIncrement n)
      = (map (increment_reply g) (seq 1 n), Z.min (g + Z.of_nat n) MetricApp.MAX_METRIC)
    /\ MetricApp.serve g (repeat MetricApp.PostDecrement n)
      = (map (decrement_reply g) (seq 1 n), Z.max (g - Z.of_nat n) MetricApp.MIN_METRIC).
Proof.
  unfold MetricApp.MIN_METRIC, MetricApp.MAX_METRIC.
  intros g n; revert g; induction n as [|n IH]; intros g Hg.
  - cbn [repeat MetricApp.serve seq map]; split; f_equal; lia.
  - cbn [repeat MetricApp.serve MetricApp.route seq map]; split.
    + unfold MetricApp.increment, MetricApp.MAX_METRIC.
      destruct (Z.geb_spec g 5) as [H5|H5].
      * destruct (IH g Hg) as [IH1 _]; rewrite IH1.
        f_equal; [f_equal|lia].
        -- unfold increment_reply, MetricApp.MAX_METRIC.
           replace (g + Z.of_nat 1 <=? 5) with false by (symmetry; apply Z.leb_gt; lia); reflexivity.
        -- apply map_seq_shift; intros i Hi; unfold increment_reply, MetricApp.MAX_METRIC.
           replace (g + Z.of_nat i <=? 5) with false by (symmetry; apply Z.leb_gt; lia).
           replace (g + Z.of_nat (S i) <=? 5) with false by (symmetry; apply Z.leb_gt; lia).
           reflexivity.
      * destruct (IH (g + 1) ltac:(lia)) as [IH1 _]; rewrite IH1.
        f_equal; [f_equal|lia].
        -- unfold increment_reply, MetricApp.MAX_METRIC.
           replace (g + Z.of_nat 1 <=? 5) with true by (symmetry; apply Z.leb_le; lia).
           do 3 f_equal; lia.
        -- apply map_seq_shift; intros i Hi; unfold increment_reply.
           replace (g + 1 + Z.of_nat i) with (g + Z.of_nat (S i)) by lia; reflexivity.
    + unfold MetricApp.decrement, MetricApp.MIN_METRIC.
      destruct (Z.leb_spec g 0) as [H0|H0].
      * destruct (IH g Hg) as [_ IH2]; rewrite IH2.
        f_equal; [f_equal|lia].
        -- unfold decrement_reply, MetricApp.MIN_METRIC.
           replace (0 <=? g - Z.of_nat 1) with false by (symmetry; apply Z.leb_gt; lia); reflexivity.
        -- apply map_seq_shift; intros i Hi; unfold decrement_reply, MetricApp.MIN_METRIC.
           replace (0 <=? g - Z.of_nat i) with false by (symmetry; apply Z.leb_gt; lia).
           replace (0 <=? g - Z.of_nat (S i)) with false by (symmetry; apply Z.leb_gt; lia).
           reflexivity.
      * destruct (IH (g - 1) ltac:(lia)) as [_ IH2]; rewrite IH2.
        f_equal; [f_equal|lia].
        -- unfold decrement_reply, MetricApp.MIN_METRIC.
           replace (0 <=? g - Z.of_nat 1) with true by (symmetry; apply Z.leb_le; lia).
           do 3 f_equal; lia.
        -- apply map_seq_shift; intros i Hi; unfold decrement_reply.
           replace (g - 1 - Z.of_nat i) with (g - Z.of_nat (S i)) by lia; reflexivity.
Qed.

Lemma metric_app_saturates_witness :
  MetricApp.serve 4 (repeat MetricApp.PostIncrement 3)
  = ([MetricApp.Body (MetricApp.snapshot 5);
      MetricApp.Abort 400 (lit "Metric cannot be incremented beyond 5");
      MetricApp.Abort 400 (lit "Metric cannot be incremented beyond 5")], 5).
Proof.
  rewrite (proj1 (metric_app_saturates 4 3 ltac:(unfold MetricApp.MIN_METRIC, MetricApp.MAX_METRIC; lia))).
  reflexivity.
Defined.

(** A reply of the metric app within its bounds: a body showing a value
    in [[MIN_METRIC, MAX_METRIC]], or a 400 abort. *)
Definition reply_in_bounds (rep : MetricApp.reply) : Prop :=
  match rep with
  | MetricApp.Body t => exists v, MetricApp.MIN_METRIC <= v <= MetricApp.MAX_METRIC /\ t = MetricApp.snapshot v
  | MetricApp.Abort code _ => code = 400
  end.

Lemma route_in_bounds r g :
  MetricApp.MIN_METRIC <= g <= MetricApp.MAX_METRIC ->
  MetricApp.MIN_METRIC <= snd (MetricApp.route r g) <= MetricApp.MAX_METRIC
  /\ reply_in_bounds (fst (MetricApp.route r g)).
Proof.
  unfold MetricApp.MIN_METRIC, MetricApp.MAX_METRIC; intros Hg.
  destruct r; cbn [MetricApp.route].
  - split; [exact Hg | exists g; split; [exact Hg | reflexivity]].
  - unfold MetricApp.increment, MetricApp.MAX_METRIC; destruct (Z.geb_spec g 5).
    + split; [exact Hg | reflexivity].
    + cbn [fst snd]; split; [lia | exists (g + 1); split; [unfold MetricApp.MIN_METRIC, MetricApp.MAX_METRIC; lia | reflexivity]].
  - unfold MetricApp.decrement, MetricApp.MIN_METRIC; destruct (Z.leb_spec g 0).
    + split; [exact Hg | reflexivity].
    + cbn [fst snd]; split; [lia | exists (g - 1); split; [unfold MetricApp.MIN_METRIC, MetricApp.MAX_METRIC; lia | reflexivity]].
Qed.

(** From a value within [[MIN_METRIC, MAX_METRIC]], any sequence of requests to
    the metric app keeps [global_metric] within these bounds, and every reply
    is either the snapshot of a value within them or a 400 abort. *)
Theorem metric_app_keeps_bounds :
  forall (g : Z) (rs : list MetricApp.request),
    MetricApp.MIN_METRIC <= g <= MetricApp.MAX_METRIC ->
    MetricApp.MIN_METRIC <= snd (MetricApp.serve g rs) <= MetricApp.MAX_METRIC
    /\ Forall reply_in_bounds (fst (MetricApp.serve g rs)).
Proof.
  intros g rs; revert g; induction rs as [|r rs IH]; intros g Hg.
  - split; [exact Hg | constructor].
  - cbn [MetricApp.serve].
    destruct (route_in_bounds r g Hg) as [H1 H2].
    destruct (MetricApp.route r g) as [rep g1]; cbn [fst snd] in H1, H2.
    destruct (IH g1 H1) as [H3 H4].
    destruct (MetricApp.serve g1 rs) as [reps g2]; cbn [fst snd] in *.
    split; [exact H3 | constructor; assumption].
Qed.

Lemma metric_app_keeps_bounds_witness :
  let rs := [MetricApp.PostDecrement; MetricApp.PostIncrement; MetricApp.GetMetric] in
  snd (MetricApp.serve MetricApp.global_metric_init rs) = 1
  /\ Forall reply_in_bounds (fst (MetricApp.serve MetricApp.global_metric_init rs)).
Proof.
  split; [reflexivity|].
  apply (metric_app_keeps_bounds MetricApp.global_metric_init
           [MetricApp.PostDecrement; MetricApp.PostIncrement; MetricApp.GetMetric]).
  unfold MetricApp.global_metric_init, MetricApp.MIN_METRIC, MetricApp.MAX_METRIC; lia.
Defined.

(** An increment followed by a decrement (below [MAX_METRIC]), or a decrement
    followed by an increment (above [MIN_METRIC]), both succeed and restore
    [global_metric]. *)
Theorem metric_app_increment_decrement_inverse :
  forall g : Z,
    (MetricApp.MIN_METRIC <= g < MetricApp.MAX_METRIC ->
       MetricApp.serve g [MetricApp.PostIncrement; MetricApp.PostDecrement]
       = ([MetricApp.Body (MetricApp.snapshot (g + 1)); MetricApp.Body (MetricApp.snapshot g)], g))
    /\ (MetricApp.MIN_METRIC < g <= MetricApp.MAX_METRIC ->
       MetricApp.serve g [MetricApp.PostDecrement; MetricApp.PostIncrement]
       = ([MetricApp.Body (MetricApp.snapshot (g - 1)); MetricApp.Body (MetricApp.snapshot g)], g)).
Proof.
  unfold MetricApp.MIN_METRIC, MetricApp.MAX_METRIC; intros g; split; intros H;
    cbn [MetricApp.serve MetricApp.route]; unfold MetricApp.increment, MetricApp.decrement,
      MetricApp.MIN_METRIC, MetricApp.MAX_METRIC.
  - replace (g >=? 5) with false by (symmetry; rewrite Z.geb_leb; apply Z.leb_gt; lia).
    replace (g + 1 <=? 0) with false by (symmetry; apply Z.leb_gt; lia).
    replace (g + 1 - 1) with g by lia; reflexivity.
  - replace (g <=? 0) with false by (symmetry; apply Z.leb_gt; lia).
    replace (g - 1 >=? 5) with false by (symmetry; rewrite Z.geb_leb; apply Z.leb_gt; lia).
    replace (g - 1 + 1) with g by lia; reflexivity.
Qed.

Lemma metric_app_increment_decrement_inverse_witness :
  MetricApp.serve 0 [MetricApp.PostIncrement; MetricApp.PostDecrement]
  = ([MetricApp.Body (MetricApp.snapshot 1); MetricApp.Body (MetricApp.snapshot 0)], 0).
Proof.
  apply (proj1 (metric_app_increment_decrement_inverse 0));
    unfold MetricApp.MIN_METRIC, MetricApp.MAX_METRIC; lia.
Defined.

(** A metric entry as the Custom Pod Autoscaler builds it from a pod
    named [fst p] whose [/metric] view returned the snapshot of [snd p]. *)
Definition snapshot_entry (p : pystr * Z) : pyval :=
  PDict [(lit "resource", PStr (fst p)); (lit "value", PStr (MetricApp.snapshot (snd p)))].

Lemma snapshot_available p :
  available_entry (snapshot_entry p) (MetricApp.MAX_METRIC - snd p).
Proof.
  exists (MetricApp.snapshot (snd p)),
    (PDict [(lit "value", PInt (snd p));
            (lit "available", PInt (MetricApp.MAX_METRIC - snd p));
            (lit "min", PInt MetricApp.MIN_METRIC);
            (lit "max", PInt MetricApp.MAX_METRIC)]).
  split; [reflexivity|split; [|reflexivity]].
  apply loads_dumps; reflexivity.
Qed.

(** The snapshots of the metric app, as values of the metric entries, drive
    [simple-pod-metrics-python/evaluate.py]: its total is the sum of the
    [MAX_METRIC - value] fields of the pods, and the evaluator writes the
    target of its hysteresis band for that total. *)
Theorem metric_app_feeds_simple_evaluator :
  forall (spec : pyval) (pods : list (pystr * Z)) (resource rstatus : pyval) (baseline : Z),
    get spec "metrics" = Some (PList (map snapshot_entry pods)) ->
    get spec "resource" = Some resource ->
    get resource "status" = Some rstatus ->
    get rstatus "replicas" = Some (PInt baseline) ->
    let total := sum (map (fun p => MetricApp.MAX_METRIC - snd p) pods) in
    run (SimplePodMetrics.evaluate spec)
    = mkOutcome (evaluation_doc "targetReplicas"
                   (let t := if total >? 5 then baseline - 1 else baseline in
                    if total <=? 0 then t + 1 else t)) [] 0 [].
Proof.
  intros spec pods resource rstatus baseline Hm Hr Hs Hb total.
  apply (simple_evaluate_run spec (map snapshot_entry pods) _ resource rstatus); try assumption.
  clear; induction pods as [|p pods IH]; cbn [map]; constructor; [apply snapshot_available | exact IH].
Qed.

Definition snapshot_spec : pyval :=
  PDict [(lit "metrics", PList (map snapshot_entry [(lit "pod-a", 0); (lit "pod-b", 5)]));
         (lit "resource", PDict [(lit "status", PDict [(lit "replicas", PInt 2)])])].

Lemma metric_app_feeds_simple_evaluator_witness :
  run (SimplePodMetrics.evaluate snapshot_spec) = mkOutcome (evaluation_doc "targetReplicas" 2) [] 0 [].
Proof.
  exact (metric_app_feeds_simple_evaluator snapshot_spec [(lit "pod-a", 0); (lit "pod-b", 5)]
           (PDict [(lit "status", PDict [(lit "replicas", PInt 2)])]) (PDict [(lit "replicas", PInt 2)]) 2
           eq_refl eq_refl eq_refl eq_refl).
Defined.

(** The tweets whose text contains a thumbs up, and those containing a
    thumbs down but no thumbs up. *)
Definition up_count (tweets : list pystr) : Z :=
  Z.of_nat (List.length (filter (fun t => is_infix TweetMetric.thumbs_up t) tweets)).

Definition down_count (tweets : list pystr) : Z :=
  Z.of_nat (List.length (filter (fun t => negb (is_infix TweetMetric.thumbs_up t)
                                          && is_infix TweetMetric.thumbs_down t) tweets)).

Lemma count_tweet_loop tweets u d st :
  for_acc tweets (u, d) TweetMetric.count_tweet st
  = (Ok (u + up_count tweets, d + down_count tweets), st).
Proof.
  revert u d; induction tweets as [|t tweets IH]; intros u d.
  - unfold up_count, down_count; cbn; rewrite !Z.add_0_r; reflexivity.
  - cbn [for_acc]; unfold bind at 1, TweetMetric.count_tweet, py_contains_str, bind, ret.
    unfold up_count, down_count in *; cbn [filter].
    destruct (is_infix TweetMetric.thumbs_up t) eqn:Eu;
      [|destruct (is_infix TweetMetric.thumbs_down t) eqn:Ed]; cbn [negb andb];
      rewrite IH; cbn [List.length];
      match goal with
      | |- (Ok (?a, ?b), _) = (Ok (?c, ?e), _) => replace a with c by lia; replace b with e by lia
      end; reflexivity.
Qed.

Lemma environ_get_ok env key v st :
  TweetMetric.env_lookup env (lit key) = Some v ->
  TweetMetric.environ_get env key st = (Ok v, st).
Proof. intros H; unfold TweetMetric.environ_get; rewrite H; reflexivity. Qed.

#[local] Hint Resolve environ_get_ok : pyrun.

Lemma tweet_metric_run :
  forall (env : list (pystr * pystr)) (search : pystr -> list pystr)
         (consumer_key consumer_secret access_token access_token_secret hashtag : pystr),
    TweetMetric.env_lookup env (lit TweetMetric.CONSUMER_KEY_ENV) = Some consumer_key ->
    TweetMetric.env_lookup env (lit TweetMetric.CONSUMER_SECRET_ENV) = Some consumer_secret ->
    TweetMetric.env_lookup env (lit TweetMetric.ACCESS_TOKEN_ENV) = Some access_token ->
    TweetMetric.env_lookup env (lit TweetMetric.ACCESS_TOKEN_SECRET_ENV) = Some access_token_secret ->
    TweetMetric.env_lookup env (lit TweetMetric.HASHTAG_ENV) = Some hashtag ->
    let tweets := search (lit "q=%23" ++ hashtag ++ lit "&result_type=recent&count=100") in
    run (TweetMetric.main env search)
    = mkOutcome (dumps (PDict [(lit "up", PInt (up_count tweets));
                               (lit "down", PInt (down_count tweets))])) [] 0 [].
Proof.
  intros env search k1 k2 k3 k4 h H1 H2 H3 H4 H5 tweets.
  unfold run, run_with, TweetMetric.main.
  do 5 step.
  erewrite bind_ok by (apply count_tweet_loop).
  reflexivity.
Qed.

(** With its five environment variables set, [scale-on-tweet/metric.py] writes
    the number of tweets containing a thumbs up as [up], and the number of
    those containing a thumbs down but no thumbs up as [down]; a tweet is
    counted at most once. *)
Theorem tweet_metric_counts :
  forall (env : list (pystr * pystr)) (search : pystr -> list pystr)
         (consumer_key consumer_secret access_token access_token_secret hashtag : pystr),
    TweetMetric.env_lookup env (lit TweetMetric.CONSUMER_KEY_ENV) = Some consumer_key ->
    TweetMetric.env_lookup env (lit TweetMetric.CONSUMER_SECRET_ENV) = Some consumer_secret ->
    TweetMetric.env_lookup env (lit TweetMetric.ACCESS_TOKEN_ENV) = Some access_token ->
    TweetMetric.env_lookup env (lit TweetMetric.ACCESS_TOKEN_SECRET_ENV) = Some access_token_secret ->
    TweetMetric.env_lookup env (lit TweetMetric.HASHTAG_ENV) = Some hashtag ->
    let tweets := search (lit "q=%23" ++ hashtag ++ lit "&result_type=recent&count=100") in
    run (TweetMetric.main env search)
    = mkOutcome (dumps (PDict [(lit "up", PInt (up_count tweets));
                               (lit "down", PInt (down_count tweets))])) [] 0 [].
Proof. intros; apply tweet_metric_run with consumer_key consumer_secret access_token access_token_secret; assumption. Qed.

Definition tweet_env : list (pystr * pystr) :=
  [(lit "consumerKey", lit "ck"); (lit "consumerSecret", lit "cs");
   (lit "accessToken", lit "at"); (lit "accessTokenSecret", lit "ats");
   (lit "hashtag", lit "kubernetes")].

Definition tweet_search (q : pystr) : list pystr :=
  [lit "great" ++ TweetMetric.thumbs_up; TweetMetric.thumbs_down ++ TweetMetric.thumbs_up;
   TweetMetric.thumbs_down; lit "meh"].

Lemma tweet_metric_counts_witness :
  run (TweetMetric.main tweet_env tweet_search)
  = mkOutcome (dumps (PDict [(lit "up", PInt 2); (lit "down", PInt 1)])) [] 0 [].
Proof.
  exact (tweet_metric_counts tweet_env tweet_search (lit "ck") (lit "cs") (lit "at") (lit "ats")
           (lit "kubernetes") eq_refl eq_refl eq_refl eq_refl eq_refl).
Defined.

(** The order in which the script reads its environment. *)
Definition tweet_env_keys : list string :=
  [TweetMetric.CONSUMER_KEY_ENV; TweetMetric.CONSUMER_SECRET_ENV; TweetMetric.ACCESS_TOKEN_ENV;
   TweetMetric.ACCESS_TOKEN_SECRET_ENV; TweetMetric.HASHTAG_ENV].

(** [scale-on-tweet/metric.py] reads its environment variables in the order
    consumerKey, consumerSecret, accessToken, accessTokenSecret, hashtag; the
    first one missing ends the run in a [KeyError] traceback naming it, exit
    status 1, nothing written and no search made. *)
Theorem tweet_metric_missing_env :
  forall (env : list (pystr * pystr)) (search : pystr -> list pystr)
         (pre : list string) (key : string) (post : list string),
    tweet_env_keys = pre ++ key :: post ->
    Forall (fun k => TweetMetric.env_lookup env (lit k) <> None) pre ->
    TweetMetric.env_lookup env (lit key) = None ->
    run (TweetMetric.main env search)
    = mkOutcome [] (traceback (Exc KeyError ([39] ++ lit key ++ [39]) None)) 1 [].
Proof.
  intros env search pre key post Hk Hpre Hn.
  unfold tweet_env_keys in Hk.
  destruct pre as [|k1 [|k2 [|k3 [|k4 [|k5 pre]]]]]; cbn in Hk; inversion Hk; subst;
    try (exfalso; eapply app_cons_not_nil; eassumption);
    repeat match goal with H : Forall _ (_ :: _) |- _ => inversion H; subst; clear H end;
    repeat match goal with
           | H : TweetMetric.env_lookup env (lit ?k) <> None |- _ =>
               let v := fresh "v" in let E := fresh "E" in
               destruct (TweetMetric.env_lookup env (lit k)) as [v|] eqn:E; [clear H | contradiction]
           end;
    unfold run, run_with, TweetMetric.main;
    repeat step; unfold bind at 1, TweetMetric.environ_get; rewrite Hn; reflexivity.
Qed.

Definition tweet_env_no_hashtag : list (pystr * pystr) :=
  [(lit "consumerKey", lit "ck"); (lit "consumerSecret", lit "cs");
   (lit "accessToken", lit "at"); (lit "accessTokenSecret", lit "ats")].

Lemma tweet_metric_missing_env_witness :
  run (TweetMetric.main tweet_env_no_hashtag tweet_search)
  = mkOutcome [] (traceback (Exc KeyError ([39] ++ lit "hashtag" ++ [39]) None)) 1 [].
Proof.
  apply (tweet_metric_missing_env tweet_env_no_hashtag tweet_search
           [TweetMetric.CONSUMER_KEY_ENV; TweetMetric.CONSUMER_SECRET_ENV; TweetMetric.ACCESS_TOKEN_ENV;
            TweetMetric.ACCESS_TOKEN_SECRET_ENV] TweetMetric.HASHTAG_ENV []).
  - reflexivity.
  - repeat constructor; discriminate.
  - reflexivity.
Defined.

(** The document [scale-on-tweet/metric.py] writes, as the value of the single
    metric entry, makes [scale-on-tweet/evaluate.py] ask for
    [up - down] replicas. *)
Theorem tweet_metric_feeds_evaluator :
  forall (env : list (pystr * pystr)) (search : pystr -> list pystr)
         (consumer_key consumer_secret access_token access_token_secret hashtag name : pystr),
    TweetMetric.env_lookup env (lit TweetMetric.CONSUMER_KEY_ENV) = Some consumer_key ->
    TweetMetric.env_lookup env (lit TweetMetric.CONSUMER_SECRET_ENV) = Some consumer_secret ->
    TweetMetric.env_lookup env (lit TweetMetric.ACCESS_TOKEN_ENV) = Some access_token ->
    TweetMetric.env_lookup env (lit TweetMetric.ACCESS_TOKEN_SECRET_ENV) = Some access_token_secret ->
    TweetMetric.env_lookup env (lit TweetMetric.HASHTAG_ENV) = Some hashtag ->
    let tweets := search (lit "q=%23" ++ hashtag ++ lit "&result_type=recent&count=100") in
    let o := run (TweetMetric.main env search) in
    run (ScaleOnTweet.evaluate (PList [PDict [(lit "resource", PStr name); (lit "value", PStr (out o))]]))
    = mkOutcome (evaluation_doc "target_replicas" (up_count tweets - down_count tweets)) [] 0 [].
Proof.
  intros env search k1 k2 k3 k4 h name H1 H2 H3 H4 H5 tweets o.
  subst o; rewrite (tweet_metric_run env search k1 k2 k3 k4 h) by assumption; cbn [out].
  set (j := PDict [(lit "up", PInt (up_count tweets)); (lit "down", PInt (down_count tweets))]).
  assert (Hl : loads_text (dumps j) = Some j) by (apply loads_dumps; reflexivity).
  unfold run, run_with, ScaleOnTweet.evaluate.
  do 9 step; reflexivity.
Qed.

Lemma tweet_metric_feeds_evaluator_witness :
  run (ScaleOnTweet.evaluate (PList [PDict [(lit "resource", PStr (lit "hello-kubernetes"));
                                            (lit "value", PStr (out (run (TweetMetric.main tweet_env tweet_search))))]]))
  = mkOutcome (evaluation_doc "target_replicas" 1) [] 0 [].
Proof.
  exact (tweet_metric_feeds_evaluator tweet_env tweet_search (lit "ck") (lit "cs") (lit "at") (lit "ats")
           (lit "kubernetes") (lit "hello-kubernetes") eq_refl eq_refl eq_refl eq_refl eq_refl).
Defined.

Lemma for_acc_app {A B} (l1 l2 : list A) (acc : B) (body : A -> B -> M B) st :
  for_acc (l1 ++ l2) acc body st = bind (for_acc l1 acc body) (fun a => for_acc l2 a body) st.
Proof.
  revert acc st; induction l1 as [|x l1 IH]; intros acc st; [reflexivity|].
  cbn [app for_acc]; unfold bind.
  destruct (body x acc st) as [[a|e] st']; [|reflexivity].
  rewrite IH; reflexivity.
Qed.

Lemma py_add_numeric a b st s st' :
  num_of a <> None -> py_add a b st = (Ok s, st') -> num_of s <> None.
Proof.
  intros Ha H.
  assert (E : py_add a b
              = match num_of a, num_of b with
                | Some (inl x), Some (inl y) => ret (PInt (x + y))
                | Some x, Some y => fx <- to_b64 x ;; fy <- to_b64 y ;; ret (PFloat (b64_add fx fy))
                | _, _ => raise TypeError (lit "unsupported operand type(s) for +")
                end)
    by (destruct a; try (exfalso; apply Ha; reflexivity); destruct b; reflexivity).
  rewrite E in H; destruct (num_of a) as [x|]; [|contradiction].
  destruct (num_of b) as [y|]; [|destruct x; discriminate H].
  destruct x as [x|x], y as [y|y];
    [injection H as <- _; discriminate | ..];
    unfold bind in H; destruct (to_b64 _ st) as [[fx|e] st1]; try discriminate H;
    destruct (to_b64 _ st1) as [[fy|e] st2]; try discriminate H;
    injection H as <- _; discriminate.
Qed.

(** The running total of the summing loop of [cpu/metric.py] stays a number:
    it starts at [0] and [+] on a number gives a number or raises. *)
Lemma cpu_loop_numeric pods acc st acc' st' :
  num_of acc <> None -> for_acc pods acc CpuMetric.add_utilization st = (Ok acc', st') ->
  num_of acc' <> None.
Proof.
  revert acc st; induction pods as [|p pods IH]; intros acc st Ha H.
  - cbn [for_acc] in H; unfold ret in H; injection H as <- _; exact Ha.
  - cbn [for_acc] in H; unfold bind at 1 in H.
    destruct (CpuMetric.add_utilization p acc st) as [[a|e] st1] eqn:E; [|discriminate H].
    apply (IH a st1); [|exact H].
    unfold CpuMetric.add_utilization, bind in E.
    destruct (item (snd p) "Value" st) as [[v|e] st2]; [|discriminate E].
    exact (py_add_numeric _ _ _ _ _ Ha E).
Qed.

(** In [cpu/metric.py], the first pod (in mapping order) whose [Value] is not a
    number ends the run in a [TypeError] traceback with exit status 1 and
    nothing written, when the values of the pods before it are added without
    an exception (they are numbers, and no [int] among them or in the running
    total is too large to convert to a float when a float is added): [+] is
    never concatenation here, since the running total is always a number. *)
Theorem cpu_metric_rejects_non_numeric_value :
  forall (spec cm res cr : pyval) (rest : list pyval)
         (pre post : list (pystr * pyval)) (pod : pystr * pyval) (v acc : pyval),
    get spec "kubernetesMetrics" = Some (PList (cm :: rest)) ->
    get cm "current_replicas" = Some cr ->
    get cm "resource" = Some res ->
    get res "pod_metrics_info" = Some (PDict (pre ++ pod :: post)) ->
    for_acc pre (PInt 0) CpuMetric.add_utilization (mkIO [] [] []) = (Ok acc, mkIO [] [] []) ->
    get (snd pod) "Value" = Some v -> num_of v = None ->
    run (CpuMetric.metric spec)
    = mkOutcome [] (traceback (Exc TypeError (lit "unsupported operand type(s) for +") None)) 1 [].
Proof.
  intros spec cm res cr rest pre post pod v acc Hk Hc Hr Hp Hl Hv Hn.
  pose proof (cpu_loop_numeric pre (PInt 0) _ acc _ ltac:(discriminate) Hl) as Ha.
  unfold run, run_with, CpuMetric.metric.
  do 6 step.
  erewrite bind_exn.
  2:{ rewrite for_acc_app; erewrite bind_ok by exact Hl; cbn [for_acc].
      apply bind_exn; unfold CpuMetric.add_utilization.
      erewrite bind_ok by (apply item_get; exact Hv).
      unfold py_add; destruct (num_of acc) as [x|] eqn:Ex; [|contradiction].
      rewrite Hn.
      destruct acc; try discriminate; destruct v; try discriminate;
        destruct x; reflexivity. }
  reflexivity.
Qed.

Definition cpu_string_spec : pyval :=
  PDict [(lit "kubernetesMetrics",
          PList [PDict [(lit "current_replicas", PInt 2);
                        (lit "resource",
                         PDict [(lit "pod_metrics_info",
                                 PDict [(lit "pod-a", PDict [(lit "Value", PInt 4)]);
                                        (lit "pod-b", PDict [(lit "Value", PStr (lit "7"))])])])]])].

Lemma cpu_metric_rejects_non_numeric_value_witness :
  run (CpuMetric.metric cpu_string_spec)
  = mkOutcome [] (traceback (Exc TypeError (lit "unsupported operand type(s) for +") None)) 1 [].
Proof.
  apply (cpu_metric_rejects_non_numeric_value cpu_string_spec
           (PDict [(lit "current_replicas", PInt 2);
                   (lit "resource",
                    PDict [(lit "pod_metrics_info",
                            PDict [(lit "pod-a", PDict [(lit "Value", PInt 4)]);
                                   (lit "pod-b", PDict [(lit "Value", PStr (lit "7"))])])])])
           (PDict [(lit "pod_metrics_info",
                    PDict [(lit "pod-a", PDict [(lit "Value", PInt 4)]);
                           (lit "pod-b", PDict [(lit "Value", PStr (lit "7"))])])])
           (PInt 2) [] [(lit "pod-a", PDict [(lit "Value", PInt 4)])] []
           (lit "pod-b", PDict [(lit "Value", PStr (lit "7"))]) (PStr (lit "7")) (PInt 4));
    reflexivity.
Defined.
